(** * SiteScanExifPrep: GPS tagging of drone images from a CSV table

    A shallow embedding of [SiteScan_Image_Formatter_Source.py] and the
    properties of its coordinate encoder ([to_deg], [change_to_rational]),
    of the GPS block built by [set_gps_location] and of the batch loop
    [main].

    Python floats are IEEE-754 binary64 numbers.  A finite float is
    modelled by the rational number it denotes, every arithmetic operation
    rounds its exact result to the nearest binary64 value (ties to even),
    and the non-finite values are kept as constructors of their own.  The
    sign of a zero is not modelled: no operation of the program observes
    it. *)

From Stdlib Require Import ZArith QArith Qround Qabs Qpower Qreduction.
From Stdlib Require Import Lqa Lia Bool List String Ascii.
From Stdlib Require SpecFloat.
From stdpp Require Import gmap strings.
Import ListNotations.

Local Open Scope Z_scope.

(** ** Exceptions and the error monad *)

Inductive exn : Type :=
| ValueError
| OverflowError
| IndexError
| OSError
| ZeroDivisionError
| StructError.

Inductive result (A : Type) : Type :=
| Ok (a : A)
| Raise (e : exn).

Arguments Ok {A} a.
Arguments Raise {A} e.

Definition rbind {A B : Type} (r : result A) (k : A -> result B) : result B :=
  match r with
  | Ok a => k a
  | Raise e => Raise e
  end.

Declare Scope err_scope.
Delimit Scope err_scope with err.
Notation "'let?' x ':=' r 'in' k" :=
  (rbind r (fun x => k))
  (at level 10, x pattern, r at level 100, k at level 200) : err_scope.
Local Open Scope err_scope.

(** ** Rounding rationals *)

Module Rounding.

Local Open Scope Q_scope.

(** Nearest integer, ties to the even one. *)
Definition round_half_even (x : Q) : Z :=
  let f := Qfloor x in
  match Qcompare (x - inject_Z f) (1 # 2) with
  | Lt => f
  | Gt => (f + 1)%Z
  | Eq => if Z.even f then f else (f + 1)%Z
  end.

(** Integer part, towards zero. *)
Definition truncate (x : Q) : Z :=
  if Qle_bool 0 x then Qfloor x else Qceiling x.

(** [ilog2 x] is the binary exponent of a non-zero [x]:
    [2 ^ ilog2 x <= |x| < 2 ^ (ilog2 x + 1)]; it is 0 at 0. *)
Definition ilog2 (x : Q) : Z :=
  let l := (Z.log2 (Z.abs (Qnum x)) - Z.log2 (Zpos (Qden x)))%Z in
  if Qeq_bool x 0 then 0%Z
  else if Qle_bool (2 ^ l) (Qabs x) then l else (l - 1)%Z.

(** binary64: 53 significant bits, least exponent -1074, values below
    2^1024. *)
Definition prec : Z := 53.
Definition emin : Z := -1074.
Definition emax : Z := 1024.

(** Exponent of the unit in the last place of the binade of [x]; at 0 it
    is that of the least subnormal. *)
Definition ulp_exp (x : Q) : Z :=
  if Qeq_bool x 0 then emin else Z.max (ilog2 x - (prec - 1)) emin.

(** Nearest binary64-grid value with unbounded exponent, ties to even. *)
Definition rnd (x : Q) : Q :=
  let e := ulp_exp x in
  Qred (inject_Z (round_half_even (x * 2 ^ (- e))) * 2 ^ e).

End Rounding.
Export Rounding.

(** ** Python floats *)

Inductive pyfloat : Type :=
| Fin (q : Q)
| Inf (neg : bool)
| NaN.

Module Float.

Local Open Scope Q_scope.

(** Rounding of an exact result to a float; overflow gives an infinity. *)
Definition round_f64 (x : Q) : pyfloat :=
  let r := rnd x in
  if Qle_bool (2 ^ emax) (Qabs r) then Inf (negb (Qle_bool 0 x)) else Fin r.

(** A rational is a binary64 value when rounding leaves it as it is. *)
Definition is_f64 (q : Q) : Prop := round_f64 q = Fin q.

Definition fabs (x : pyfloat) : pyfloat :=
  match x with
  | Fin q => Fin (Qabs q)
  | Inf _ => Inf false
  | NaN => NaN
  end.

Definition fsub (a b : pyfloat) : pyfloat :=
  match a, b with
  | NaN, _ | _, NaN => NaN
  | Inf s1, Inf s2 => if Bool.eqb s1 s2 then NaN else Inf s1
  | Inf s, Fin _ => Inf s
  | Fin _, Inf s => Inf (negb s)
  | Fin x, Fin y => round_f64 (x - y)
  end.

Definition fmul (a b : pyfloat) : pyfloat :=
  match a, b with
  | NaN, _ | _, NaN => NaN
  | Inf s1, Inf s2 => Inf (xorb s1 s2)
  | Inf s, Fin y | Fin y, Inf s =>
      match Qcompare y 0 with
      | Eq => NaN
      | Lt => Inf (negb s)
      | Gt => Inf s
      end
  | Fin x, Fin y => round_f64 (x * y)
  end.

(** [float(n)] for an int, as the mixed operations do it. *)
Definition float_of_int (n : Z) : result pyfloat :=
  match round_f64 (inject_Z n) with
  | Inf _ => Raise OverflowError
  | f => Ok f
  end.

(** [x - n] and [x * n] for a float [x] and an int [n]. *)
Definition fsub_int (x : pyfloat) (n : Z) : result pyfloat :=
  let? y := float_of_int n in Ok (fsub x y).

Definition fmul_int (x : pyfloat) (n : Z) : result pyfloat :=
  let? y := float_of_int n in Ok (fmul x y).

(** [x < n] and [x > n] for a float [x] and an int [n]: exact, and false
    on NaN. *)
Definition flt_int (x : pyfloat) (n : Z) : bool :=
  match x with
  | Fin q => negb (Qle_bool (inject_Z n) q)
  | Inf neg => neg
  | NaN => false
  end.

Definition fgt_int (x : pyfloat) (n : Z) : bool :=
  match x with
  | Fin q => negb (Qle_bool q (inject_Z n))
  | Inf neg => negb neg
  | NaN => false
  end.

(** [int(x)]. *)
Definition py_int (x : pyfloat) : result Z :=
  match x with
  | Fin q => Ok (truncate q)
  | Inf _ => Raise OverflowError
  | NaN => Raise ValueError
  end.

(** [round(x)]: the nearest int, ties to even. *)
Definition py_round (x : pyfloat) : result Z :=
  match x with
  | Fin q => Ok (round_half_even q)
  | Inf _ => Raise OverflowError
  | NaN => Raise ValueError
  end.

(** [round(x, ndigits)]: the decimal with [ndigits] fractional digits
    nearest to [x] (ties to even), read back as a float. *)
Definition ndigits_max : Z := 323.
Definition ndigits_min : Z := -308.

Definition py_round_ndigits (x : pyfloat) (ndigits : Z) : result pyfloat :=
  match x with
  | Fin q =>
      if (ndigits_max <? ndigits)%Z then Ok x
      else if (ndigits <? ndigits_min)%Z then Ok (Fin 0)
      else
        let k := round_half_even (q * 10 ^ ndigits) in
        match round_f64 (inject_Z k * 10 ^ (- ndigits)) with
        | Inf _ => Raise OverflowError
        | f => Ok f
        end
  | _ => Ok x
  end.

End Float.
Export Float.

(** ** The binary64 numbers of the Standard Library

    [SpecFloat] specifies the IEEE-754 operations on sign, significand
    and exponent.  Its numbers are read here as floats of this model, to
    compare the two on samples. *)

Module IEEE754.

Definition of_spec_float (f : SpecFloat.spec_float) : pyfloat :=
  match f with
  | SpecFloat.S754_zero _ => Fin 0
  | SpecFloat.S754_infinity s => Inf s
  | SpecFloat.S754_nan => NaN
  | SpecFloat.S754_finite s m e =>
      Fin (Qred (inject_Z (if s then Zneg m else Zpos m) * 2 ^ e))
  end.

Definition same_float (x y : pyfloat) : bool :=
  match x, y with
  | Fin a, Fin b => Qeq_bool a b
  | Inf s, Inf t => Bool.eqb s t
  | NaN, NaN => true
  | _, _ => false
  end.

Definition samples : list SpecFloat.spec_float :=
  [ SpecFloat.S754_finite false 7205759403792794 (-56);   (* 0.1 *)
    SpecFloat.S754_finite false 8444249301319680 (-47);   (* 60 *)
    SpecFloat.S754_finite true 7101479886520407 (-48);    (* -25.23... *)
    SpecFloat.S754_finite false 7036874417766400 (-48);   (* 25 *)
    SpecFloat.S754_finite false 1 (-1074);                (* the least subnormal *)
    SpecFloat.S754_finite false 4503599627370496 (-53);   (* 0.5 *)
    SpecFloat.S754_finite false 9007199254740991 971;     (* the greatest float *)
    SpecFloat.S754_finite false 6004799503160661 (-54);   (* 1/3 *)
    SpecFloat.S754_finite true 4503599627370497 (-1074);
    SpecFloat.S754_finite false 4803839602528529 (-58);   (* 1/60 *)
    SpecFloat.S754_zero false;
    SpecFloat.S754_infinity true;
    SpecFloat.S754_nan ].

(** [op] and [pyop] give the same float on every pair of samples. *)
Definition agree_on_samples
    (op : SpecFloat.spec_float -> SpecFloat.spec_float -> SpecFloat.spec_float)
    (pyop : pyfloat -> pyfloat -> pyfloat) : bool :=
  forallb (fun x =>
    forallb (fun y =>
      same_float (of_spec_float (op x y)) (pyop (of_spec_float x) (of_spec_float y)))
      samples) samples.

End IEEE754.

(** ** Sequences *)

(** [l[i]] with Python's negative indices. *)
Definition py_index {A : Type} (l : list A) (i : Z) : result A :=
  let n := Z.of_nat (length l) in
  let j := if i <? 0 then i + n else i in
  if (0 <=? j) && (j <? n) then
    match nth_error l (Z.to_nat j) with
    | Some a => Ok a
    | None => Raise IndexError
    end
  else Raise IndexError.

(** ** Text: [str] of numbers and [Fraction] of text *)

Module Text.

Local Open Scope string_scope.

Definition digit_char (d : Z) : ascii := ascii_of_nat (48 + Z.to_nat d).

Definition is_digit (c : ascii) : bool :=
  let n := Z.of_nat (nat_of_ascii c) in ((48 <=? n) && (n <=? 57))%Z.

Definition digit_val (c : ascii) : Z := Z.of_nat (nat_of_ascii c) - 48.

(** The decimal digits of a natural number, the most significant first. *)
Fixpoint str_nat_aux (fuel : nat) (n : Z) (acc : string) : string :=
  match fuel with
  | O => acc
  | S f =>
      let acc' := String (digit_char (n mod 10)) acc in
      if (n <? 10)%Z then acc' else str_nat_aux f (n / 10) acc'
  end.

Definition str_nat (n : Z) : string :=
  str_nat_aux (S (Z.to_nat (Z.log2 n))) n "".

(** [str(n)] for an int. *)
Definition str_int (n : Z) : string :=
  if (n <? 0)%Z then String "-" (str_nat (- n)) else str_nat n.

(** The number written by a run of digits. *)
Fixpoint int_of_digits_from (acc : Z) (s : string) : Z :=
  match s with
  | EmptyString => acc
  | String c s' => int_of_digits_from (10 * acc + digit_val c) s'
  end.

Definition int_of_digits (s : string) : Z := int_of_digits_from 0 s.

(** The longest prefix of digits, and what follows it. *)
Fixpoint span_digits (s : string) : string * string :=
  match s with
  | EmptyString => (EmptyString, EmptyString)
  | String c s' =>
      if is_digit c then let (d, r) := span_digits s' in (String c d, r)
      else (EmptyString, s)
  end.

Definition is_space (c : ascii) : bool :=
  let n := nat_of_ascii c in
  ((9 <=? n) && (n <=? 13))%nat || (n =? 32)%nat.

Fixpoint skip_spaces (s : string) : string :=
  match s with
  | String c s' => if is_space c then skip_spaces s' else s
  | EmptyString => EmptyString
  end.

Definition zeros (n : Z) : string := string_of_list_ascii (repeat "0"%char (Z.to_nat n)).

(** Runs of digits. *)
Definition digits_only (s : string) : Prop :=
  Forall (fun c => is_digit c = true) (list_ascii_of_string s).

End Text.
Export Text.

(** *** [repr] of a float: the shortest decimal that reads back *)

Module Repr.

Local Open Scope Q_scope.

(** Decimal exponent of a positive number: [10 ^ e <= a < 10 ^ (e + 1)].
    It is looked for next to its estimate from the binary exponent, and
    otherwise upwards from the least one a float can have. *)
Definition in_decade (a : Q) (e : Z) : bool :=
  Qle_bool (10 ^ e) a && negb (Qle_bool (10 ^ (e + 1)) a).

Fixpoint ilog10_from (fuel : nat) (e : Z) (a : Q) : Z :=
  match fuel with
  | O => e
  | S f => if Qle_bool (10 ^ (e + 1)) a then ilog10_from f (e + 1) a else e
  end.

Definition ilog10 (a : Q) : Z :=
  let e0 := (ilog2 a * 1233 / 4096)%Z in
  if in_decade a e0 then e0
  else if in_decade a (e0 + 1) then (e0 + 1)%Z
  else if in_decade a (e0 - 1) then (e0 - 1)%Z
  else ilog10_from 640 (-324) a.

(** [c] reads back as the float [a]. *)
Definition reads_as (a c : Q) : bool :=
  match round_f64 c with
  | Fin r => Qeq_bool r a
  | _ => false
  end.

(** The digits (as a number) and the exponent of the shortest decimal
    with at least [n] significant digits that reads back as [a]; the
    nearer one to [a] when two of a length do. *)
Fixpoint shortest_from (fuel : nat) (n : Z) (e10 : Z) (a : Q) : Z * Z :=
  let e := (e10 - n + 1)%Z in
  let y := a * 10 ^ (- e) in
  let lo := Qfloor y in
  let hi := (lo + 1)%Z in
  match fuel with
  | O => (round_half_even y, e)
  | S f =>
      match reads_as a (inject_Z lo * 10 ^ e), reads_as a (inject_Z hi * 10 ^ e) with
      | true, true => (round_half_even y, e)
      | true, false => (lo, e)
      | false, true => (hi, e)
      | false, false => shortest_from f (n + 1) e10 a
      end
  end.

(** Dropping the trailing zeros of the digits. *)
Fixpoint strip_zeros (fuel : nat) (d e : Z) : Z * Z :=
  match fuel with
  | O => (d, e)
  | S f => if (d mod 10 =? 0)%Z && negb (d =? 0)%Z then strip_zeros f (d / 10) (e + 1) else (d, e)
  end.

(** Digits and exponent of [repr] for a positive float: 17 digits always
    suffice. *)
Definition repr_digits (a : Q) : Z * Z :=
  let (d, e) := shortest_from 16 1 (ilog10 a) a in
  strip_zeros 17 d e.

(** Layout of the digits [ds] with the decimal point after [decpt] of
    them, as [repr] does it. *)
Definition layout (ds : string) (decpt : Z) : string :=
  let n := Z.of_nat (String.length ds) in
  if ((decpt <=? -4) || (16 <? decpt))%Z then
    let ex := (decpt - 1)%Z in
    let mant :=
      match ds with
      | String c EmptyString => ds
      | String c rest => String c (String "." rest)
      | EmptyString => ds
      end in
    let exs := str_nat (Z.abs ex) in
    let exs := if (Z.abs ex <? 10)%Z then String "0" exs else exs in
    (mant ++ "e" ++ (if (ex <? 0)%Z then "-" else "+") ++ exs)%string
  else if (decpt <=? 0)%Z then ("0." ++ zeros (- decpt) ++ ds)%string
  else if (n <=? decpt)%Z then (ds ++ zeros (decpt - n) ++ ".0")%string
  else (substring 0 (Z.to_nat decpt) ds ++ "."
        ++ substring (Z.to_nat decpt) (Z.to_nat (n - decpt)) ds)%string.

(** [str(x)] for a float. *)
Definition str_float (x : pyfloat) : string :=
  match x with
  | NaN => "nan"
  | Inf neg => if neg then "-inf" else "inf"
  | Fin q =>
      match Qcompare q 0 with
      | Eq => "0.0"
      | c =>
          let (d, e) := repr_digits (Qabs q) in
          let ds := str_nat d in
          let body := layout ds (Z.of_nat (String.length ds) + e) in
          match c with Lt => String "-" body | _ => body end
      end
  end%string.

(** The number that the text of [str(x)] writes, for a finite [x]. *)
Definition repr_value (q : Q) : Q :=
  match Qcompare q 0 with
  | Eq => 0
  | Lt => let (d, e) := repr_digits (Qabs q) in - (inject_Z d * 10 ^ e)
  | Gt => let (d, e) := repr_digits (Qabs q) in inject_Z d * 10 ^ e
  end.

End Repr.
Export Repr.

(** The numbers handed to [change_to_rational]: ints and floats. *)
Inductive pynum : Type :=
| PInt (n : Z)
| PFloat (x : pyfloat).

Definition str (number : pynum) : string :=
  match number with
  | PInt n => str_int n
  | PFloat x => str_float x
  end.

(** *** [Fraction(s)] for a string *)

Module Fractions.

Local Open Scope string_scope.

(** The pieces of the text of a rational: sign, digits of the integer
    part, and then either a denominator or a fractional part and an
    exponent. *)
Definition take_sign (s : string) : bool * string :=
  match s with
  | String "-" s' => (true, s')
  | String "+" s' => (false, s')
  | _ => (false, s)
  end.

Definition starts_number (s : string) : bool :=
  match s with
  | String c s' =>
      is_digit c ||
      (Ascii.eqb c "." && match s' with String c' _ => is_digit c' | _ => false end)
  | EmptyString => false
  end.

Definition at_end (s : string) : bool :=
  match skip_spaces s with EmptyString => true | _ => false end.

(** The exponent part [E[-+]?\d+], when there is one. *)
Definition take_exponent (s : string) : option Z * string :=
  match s with
  | String c s' =>
      if Ascii.eqb c "e" || Ascii.eqb c "E" then
        let (neg, s'') := take_sign s' in
        let (ds, r) := span_digits s'' in
        match ds with
        | EmptyString => (None, s)
        | _ => (Some (if neg then - int_of_digits ds else int_of_digits ds), r)
        end
      else (None, s)
  | EmptyString => (None, s)
  end.

(** The fractional part [\.\d*], when there is one. *)
Definition take_point (s : string) : string * string :=
  match s with
  | String "." s' => span_digits s'
  | _ => (EmptyString, s)
  end.

Definition signed (neg : bool) (n : Z) : Z := if neg then (- n)%Z else n.

(** After the numerator and a slash: the denominator. *)
Definition rational_tail (neg : bool) (numerator : Z) (s3 : string) : result Q :=
  let (denom, s4) := span_digits s3 in
  match denom with
  | EmptyString => Raise ValueError
  | _ =>
      if negb (at_end s4) then Raise ValueError else
      match int_of_digits denom with
      | Zpos d => Ok (Qred (signed neg numerator # d))
      | _ => Raise ZeroDivisionError
      end
  end.

(** After the numerator and no slash: fractional part and exponent. *)
Definition decimal_tail (neg : bool) (numerator : Z) (s2 : string) : result Q :=
  let (decimal, s3) := take_point s2 in
  let (exp, s4) := take_exponent s3 in
  if negb (at_end s4) then Raise ValueError else
  let scale := 10 ^ Z.of_nat (String.length decimal) in
  let numerator := numerator * scale + int_of_digits decimal in
  let q := (inject_Z (signed neg numerator) / inject_Z scale)%Q in
  Ok (Qred (match exp with Some e => q * 10 ^ e | None => q end)%Q).

Definition Fraction (s : string) : result Q :=
  let (neg, s1) := take_sign (skip_spaces s) in
  if negb (starts_number s1) then Raise ValueError else
  let (num, s2) := span_digits s1 in
  let numerator := int_of_digits num in
  match s2 with
  | String "/" s3 => rational_tail neg numerator s3
  | _ => decimal_tail neg numerator s2
  end.

End Fractions.
Export Fractions.

Definition change_to_rational (number : pynum) : result (Z * Z) :=
  let? f := Fraction (str number) in
  Ok (Qnum f, Zpos (Qden f)).

(** *** The shapes of a decimal text *)

(** No digit at the head: where a run of digits ends. *)
Definition no_digit_head (s : string) : Prop :=
  match s with
  | String c _ => is_digit c = false
  | EmptyString => True
  end.

Definition sign_text (neg : bool) : string := if neg then "-"%string else ""%string.

Definition point_text (p : option string) : string :=
  match p with
  | Some fp => String "." fp
  | None => ""%string
  end.

Definition exp_text (x : option (bool * string)) : string :=
  match x with
  | Some (eneg, eds) => String "e" ((if eneg : bool then "-" else "+") ++ eds)
  | None => ""%string
  end.

(** The number that sign, integer digits, fractional digits and exponent
    write. *)
Definition decimal_value (neg : bool) (ip : string) (p : option string)
           (x : option (bool * string)) : Q :=
  let fp := default ""%string p in
  let scale := 10 ^ Z.of_nat (String.length fp) in
  let e := match x with Some (eneg, eds) => signed eneg (int_of_digits eds) | None => 0 end in
  (inject_Z (signed neg (int_of_digits ip * scale + int_of_digits fp)) / inject_Z scale
   * 10 ^ e)%Q.

(** The text [s] writes the number [v]: a sign, digits, and then
    fractional digits and an exponent when they are there. *)
Definition decimal_text (s : string) (v : Q) : Prop :=
  exists (neg : bool) (ip : string) (p : option string) (x : option (bool * string)),
    s = (sign_text neg ++ ip ++ point_text p ++ exp_text x)%string /\
    digits_only ip /\ ip <> ""%string /\
    (forall fp, p = Some fp -> digits_only fp) /\
    (forall eneg eds, x = Some (eneg, eds) -> digits_only eds /\ eds <> ""%string) /\
    (decimal_value neg ip p x == v)%Q.

(** The ints and the finite floats. *)
Definition finite_number (number : pynum) : Prop :=
  match number with
  | PInt _ => True
  | PFloat (Fin q) => is_f64 q
  | PFloat _ => False
  end.

(** ** The coordinate encoder *)

Definition to_deg (value : pyfloat) (loc : list string)
  : result (Z * Z * pyfloat * string) :=
  let? loc_value :=
    if flt_int value 0 then py_index loc 0
    else if fgt_int value 0 then py_index loc 1
    else Ok ""%string in
  let abs_value := fabs value in
  let? deg := py_int abs_value in
  let? d := fsub_int abs_value deg in
  let? t1 := fmul_int d 60 in
  let? min := py_int t1 in
  let? r := fsub_int t1 min in
  let? s := fmul_int r 60 in
  let? sec := py_round_ndigits s 5 in
  Ok (deg, min, sec, loc_value).

(** ** The contract of the encoder, in the words of the specification *)

Module Contract.

Local Open Scope Q_scope.

(** Fractional part: what is left of [x] after its integer part. *)
Definition frac_part (x : Q) : Q := x - inject_Z (truncate x).

(** Product with 60, as a float. *)
Definition times60 (x : Q) : Q := rnd (x * 60).

(** Rounding to 5 decimal places: the float nearest to the nearest
    multiple of 10^-5. *)
Definition round5 (x : Q) : Q :=
  rnd (inject_Z (round_half_even (x * 100000)) / 100000).

Definition ref_char (v : Q) (negativeRef positiveRef : string) : string :=
  match Qcompare v 0 with
  | Lt => negativeRef
  | Gt => positiveRef
  | Eq => ""%string
  end.

Definition dms_contract (v : Q) (negativeRef positiveRef : string)
  : Z * Z * pyfloat * string :=
  let a := Qabs v in
  let deg := truncate a in
  let m := times60 (frac_part a) in
  let min := truncate m in
  let sec := round5 (times60 (frac_part m)) in
  (deg, min, Fin sec, ref_char v negativeRef positiveRef).

(** Decoding a tuple back into decimal degrees, the sign taken from the
    reference character. *)
Definition dms_to_decimal (t : Z * Z * pyfloat * string) (negativeRef : string) : option Q :=
  match t with
  | (deg, min, Fin sec, ref) =>
      let m := inject_Z deg + inject_Z min / 60 + sec / 3600 in
      Some (if String.eqb ref negativeRef then - m else m)
  | _ => None
  end.

(** Non-negative numbers with a 53-bit significand. *)
Definition repr53 (x : Q) : Prop :=
  exists j g : Z, x == inject_Z j * 2 ^ g /\ (0 <= j < 2 ^ prec)%Z /\ (emin <= g)%Z.

(** The intermediate values of the conversion and their ranges. *)
Record dms_trace (a m r s sec : Q) : Prop := {
  tr_deg : (0 <= truncate a)%Z;
  tr_frac_lo : 0 <= frac_part a;
  tr_frac_hi : frac_part a <= 1 - 2 ^ (- prec);
  tr_m : m = times60 (frac_part a);
  tr_m_err : Qabs (m - frac_part a * 60) <= 2 ^ (-48);
  tr_min : (0 <= truncate m <= 59)%Z;
  tr_r : r = frac_part m;
  tr_r_lo : 0 <= r;
  tr_r_hi : r <= 1 - 2 ^ (- prec);
  tr_s : s = times60 r;
  tr_s_err : Qabs (s - r * 60) <= 2 ^ (-48);
  tr_s_lo : 0 <= s;
  tr_s_hi : s <= 60;
  tr_sec : sec = round5 s;
  tr_k_err : Qabs (inject_Z (round_half_even (s * 100000)) / 100000 - s) <= 1 # 200000;
  tr_sec_err : Qabs (sec - inject_Z (round_half_even (s * 100000)) / 100000) <= 2 ^ (-48);
  tr_sec_lo : 0 <= sec;
  tr_sec_hi : sec <= 60
}.

End Contract.
Export Contract.

(** ** The world: files and standard output *)

Record world : Type := World {
  files : gmap string string;   (* path to content *)
  stdout : list string          (* the lines printed so far *)
}.

(** Commands: they may raise, and what they did before stays done. *)
Definition M (A : Type) : Type := world -> result A * world.

Definition ret {A : Type} (a : A) : M A := fun w => (Ok a, w).

Definition bind {A B : Type} (c : M A) (k : A -> M B) : M B :=
  fun w =>
    match c w with
    | (Ok a, w') => k a w'
    | (Raise e, w') => (Raise e, w')
    end.

Definition lift {A : Type} (r : result A) : M A := fun w => (r, w).

Declare Scope cmd_scope.
Delimit Scope cmd_scope with cmd.
Notation "'let*' x ':=' c 'in' k" := (bind c (fun x => k))
  (at level 10, x pattern, c at level 100, k at level 200) : cmd_scope.
Notation "c ';;' k" := (bind c (fun _ => k))
  (at level 100, k at level 200, right associativity) : cmd_scope.
Local Open Scope cmd_scope.

Definition print (line : string) : M unit :=
  fun w => (Ok tt, World (files w) (stdout w ++ [line])).

Definition path_exists (p : string) : M bool :=
  fun w => (Ok (bool_decide (is_Some (files w !! p))), w).

(** What the file system allows besides the files it holds.  At the
    paths of [dir_writable] the directory of the path is there and
    entries can be created in it and deleted from it; at the paths of
    [file_writable] the file that is there can be opened for writing. *)
Section Access.

Variable dir_writable : string -> bool.
Variable file_writable : string -> bool.

(** [os.remove(p)]. *)
Definition remove (p : string) : M unit :=
  fun w =>
    match files w !! p with
    | Some _ =>
        if dir_writable p then (Ok tt, World (delete p (files w)) (stdout w))
        else (Raise OSError, w)
    | None => (Raise OSError, w)
    end.

(** [open(p, "w")]: the file that is there is emptied, when it can be
    written; one that is not there is created, when the directory takes
    it. *)
Definition open_write (p : string) : M unit :=
  fun w =>
    let allowed :=
      match files w !! p with
      | Some _ => file_writable p
      | None => dir_writable p
      end in
    if allowed then (Ok tt, World (<[p := ""%string]> (files w)) (stdout w))
    else (Raise OSError, w).

End Access.

(** [open(p)] for reading: the content. *)
Definition open_read (p : string) : M string :=
  fun w =>
    match files w !! p with
    | Some data => (Ok data, w)
    | None => (Raise OSError, w)
    end.

(** [outfile.write(s)] on the file opened at [p]. *)
Definition file_write (p : string) (s : string) : M unit :=
  fun w =>
    (Ok tt, World (<[p := (default ""%string (files w !! p) ++ s)%string]> (files w)) (stdout w)).

Definition newline : string := String (ascii_of_nat 10) EmptyString.

(** ** The GPS block *)

Definition rational : Type := Z * Z.

Record gps_ifd : Type := {
  GPSVersionID : Z * Z * Z * Z;
  GPSAltitudeRef : Z;
  GPSAltitude : rational;
  GPSLatitudeRef : string;
  GPSLatitude : rational * rational * rational;
  GPSLongitudeRef : string;
  GPSLongitude : rational * rational * rational
}.

(** The three rationals of a degrees, minutes, seconds tuple. *)
Definition exiv (deg min : Z) (sec : pyfloat) : result (rational * rational * rational) :=
  let? d := change_to_rational (PInt deg) in
  let? m := change_to_rational (PInt min) in
  let? s := change_to_rational (PFloat sec) in
  Ok (d, m, s).

(** The dict [gps_ifd] that [set_gps_location] builds. *)
Definition gps_ifd_of (lat lng altitude : pyfloat) : result gps_ifd :=
  let? lat_deg := to_deg lat ["S"; "N"]%string in
  let? lng_deg := to_deg lng ["W"; "E"]%string in
  let '(lat_d, lat_m, lat_s, lat_ref) := lat_deg in
  let '(lng_d, lng_m, lng_s, lng_ref) := lng_deg in
  let? exiv_lat := exiv lat_d lat_m lat_s in
  let? exiv_lng := exiv lng_d lng_m lng_s in
  let? alt_m := py_round altitude in
  let? alt := change_to_rational (PInt alt_m) in
  Ok {| GPSVersionID := (2, 0, 0, 0);
        GPSAltitudeRef := 1;
        GPSAltitude := alt;
        GPSLatitudeRef := lat_ref;
        GPSLatitude := exiv_lat;
        GPSLongitudeRef := lng_ref;
        GPSLongitude := exiv_lng |}.

Definition report_lines (inList : list string) : string :=
  fold_right (fun entries rest => (entries ++ newline ++ rest)%string) ""%string inList.

Section Batch.

(** The collaborators: [os.path.join], [csv.reader] on the content of a
    file, [float] on a string, and [piexif.dump] and [piexif.insert], the
    latter as the new content of the image it is given; and what the file
    system allows. *)
Variable path_join : string -> string -> string.
Variable csv_reader : string -> list (list string).
Variable py_float : string -> result pyfloat.
Variable piexif_dump : gps_ifd -> result string.
Variable piexif_insert : string -> string -> result string.
Variable dir_writable : string -> bool.
Variable file_writable : string -> bool.

Definition insert_exif (exif_bytes file_name : string) : M unit :=
  fun w =>
    match files w !! file_name with
    | None => (Raise OSError, w)
    | Some data =>
        match piexif_insert exif_bytes data with
        | Ok data' => (Ok tt, World (<[file_name := data']> (files w)) (stdout w))
        | Raise e => (Raise e, w)
        end
    end.

Definition set_gps_location (file_name : string) (lat lng altitude : pyfloat) : M unit :=
  let* gps_ifd := lift (gps_ifd_of lat lng altitude) in
  let* exif_bytes := lift (piexif_dump gps_ifd) in
  insert_exif exif_bytes file_name.

Fixpoint write_entries (csvFile : string) (inList : list string) : M unit :=
  match inList with
  | [] => ret tt
  | entries :: rest =>
      file_write csvFile entries ;;
      file_write csvFile newline ;;
      write_entries csvFile rest
  end.

Definition write_list_to_file (inList : list string) (csvFile : string) : M unit :=
  let* ex := path_exists csvFile in
  (if ex : bool then remove dir_writable csvFile else ret tt) ;;
  open_write dir_writable file_writable csvFile ;;
  write_entries csvFile inList.

Section Main.

Variables sourceImageFolder gpscsv errorLogCSV : string.
Variables img_Name_Column Lat_Y_Column Long_X_Column Alt_Z_Column : Z.

(** [float(row[i])]. *)
Definition float_at (row : list string) (i : Z) : result pyfloat :=
  let? s := py_index row i in py_float s.

Definition skipped_line (name : string) : string :=
  ("Skipped " ++ name ++ " as file does not exist in Source Image Folder Location")%string.

(** The body of the loop over the rows. *)
Definition process_row (row : list string) (failedFiles : list string) : M (list string) :=
  let* name := lift (py_index row img_Name_Column) in
  let imgFile := path_join sourceImageFolder name in
  let* ex := path_exists imgFile in
  if negb ex then
    print (skipped_line name) ;;
    ret (failedFiles ++ [name])
  else
    print imgFile ;;
    let* lat := lift (float_at row Lat_Y_Column) in
    let* lng := lift (float_at row Long_X_Column) in
    let* alt := lift (float_at row Alt_Z_Column) in
    set_gps_location imgFile lat lng alt ;;
    ret failedFiles.

Fixpoint process_rows (rows : list (list string)) (failedFiles : list string)
  : M (list string) :=
  match rows with
  | [] => ret failedFiles
  | row :: rest =>
      let* failedFiles' := process_row row failedFiles in
      process_rows rest failedFiles'
  end.

Definition report (failedFiles : list string) : M unit :=
  match failedFiles with
  | [] => ret tt
  | _ =>
      print ("could not locate " ++ str_int (Z.of_nat (length failedFiles))
             ++ " files at path specified")%string ;;
      print ("appending names of failed files to CSV to errorLog " ++ errorLogCSV)%string ;;
      write_list_to_file failedFiles errorLogCSV ;;
      print ("see " ++ errorLogCSV
             ++ " for list of failed files... locate the files and reprocess")%string
  end.

Definition main : M unit :=
  let* data := open_read gpscsv in
  let readCSV := csv_reader data in
  let rows := tl readCSV in
  let* failedFiles := process_rows rows [] in
  report failedFiles.

End Main.
End Batch.

(** ** Printing the GPS tags of an image *)

(** [getGPSInfo] looks keys up in dicts: besides the exceptions above it
    raises [KeyError]. *)
Inductive lookup_exn : Type :=
| KeyError
| Raised (e : exn).

(** The tags of [piexif.GPSIFD] that it reads. *)
Definition tag_GPSLatitude : Z := 2.
Definition tag_GPSLongitude : Z := 4.
Definition tag_GPSAltitude : Z := 6.

Section Reader.

(** The collaborators: the values that piexif gives to the tags and their
    text when printed, [Image.open] as the dict [info] of the image that
    the content of a file holds, and [piexif.load] as the dicts of tags
    by IFD. *)
Variable value : Type.
Variable py_str : value -> string.
Variable Image_open : string -> result (gmap string string).
Variable piexif_load : string -> result (gmap string (gmap Z value)).

Definition getGPSInfo (inFile : string) : world -> (unit + lookup_exn) * world :=
  fun w =>
    match files w !! inFile with
    | None => (inr (Raised OSError), w)
    | Some content =>
    match Image_open content with
    | Raise e => (inr (Raised e), w)
    | Ok info =>
    match info !! "exif"%string with
    | None => (inr KeyError, w)
    | Some exif =>
    match piexif_load exif with
    | Raise e => (inr (Raised e), w)
    | Ok exif_dict =>
    match exif_dict !! "GPS"%string with
    | None => (inr KeyError, w)
    | Some gps =>
    match gps !! tag_GPSLatitude with
    | None => (inr KeyError, w)
    | Some latitude =>
    match gps !! tag_GPSLongitude with
    | None => (inr KeyError, w)
    | Some longitude =>
    match gps !! tag_GPSAltitude with
    | None => (inr KeyError, w)
    | Some altitude =>
        (inl tt,
         World (files w)
               (stdout w ++ [py_str latitude; py_str longitude; py_str altitude]))
    end end end end end end end end.

End Reader.

(** ** What a run leaves behind, row by row *)

Section BatchDefs.
Variable path_join : string -> string -> string.
Variable sourceImageFolder : string.
Variable img_Name_Column : Z.

(** The identifiers of the rows whose image file is missing, in the order
    of the rows. *)
Definition missing_names (fs : gmap string string) (rows : list (list string)) : list string :=
  omap (fun row =>
          match py_index row img_Name_Column with
          | Ok name =>
              match fs !! path_join sourceImageFolder name with
              | None => Some name
              | Some _ => None
              end
          | Raise _ => None
          end) rows.

(** The line printed for a row: the path of its image, or that it was
    skipped. *)
Definition row_line (fs : gmap string string) (row : list string) : string :=
  match py_index row img_Name_Column with
  | Ok name =>
      match fs !! path_join sourceImageFolder name with
      | None => skipped_line name
      | Some _ => path_join sourceImageFolder name
      end
  | Raise _ => ""%string
  end.

(** The paths of the images that the rows name. *)
Definition image_paths (rows : list (list string)) : list string :=
  omap (fun row =>
          match py_index row img_Name_Column with
          | Ok name => Some (path_join sourceImageFolder name)
          | Raise _ => None
          end) rows.

(** A row at which the run raises [e]: the name column is missing, or the
    image exists and one of the three coordinates is missing or is not a
    number. *)
Variable py_float : string -> result pyfloat.
Variables Lat_Y_Column Long_X_Column Alt_Z_Column : Z.

Definition row_raises (fs : gmap string string) (row : list string) (e : exn) : Prop :=
  py_index row img_Name_Column = Raise e \/
  exists name : string,
    py_index row img_Name_Column = Ok name /\
    is_Some (fs !! path_join sourceImageFolder name) /\
    (let? lat := float_at py_float row Lat_Y_Column in
     let? lng := float_at py_float row Long_X_Column in
     let? alt := float_at py_float row Alt_Z_Column in
     Ok tt)%err = Raise e.
End BatchDefs.

(** The two lines that announce the report, and the line after it. *)
Definition report_announced (errorLogCSV : string) (failed : list string) : list string :=
  [("could not locate " ++ str_int (Z.of_nat (length failed))
    ++ " files at path specified")%string;
   ("appending names of failed files to CSV to errorLog " ++ errorLogCSV)%string].

Definition report_closed (errorLogCSV : string) : string :=
  ("see " ++ errorLogCSV
   ++ " for list of failed files... locate the files and reprocess")%string.

(** ** Reading a GPS block back *)

(** The number that a pair (numerator, denominator) stands for. *)
Definition rational_value (r : rational) : Q := (inject_Z (fst r) / inject_Z (snd r))%Q.

(** Decimal degrees of three rationals: degrees, minutes and seconds. *)
Definition dms_value (x : rational * rational * rational) : Q :=
  let '(d, m, s) := x in
  (rational_value d + rational_value m / 60 + rational_value s / 3600)%Q.

(** The sign is that of the reference: south and west are negative. *)
Definition signed_degrees (ref negativeRef : string) (x : rational * rational * rational) : Q :=
  if String.eqb ref negativeRef then (- dms_value x)%Q else dms_value x.

Definition latitude_of (block : gps_ifd) : Q :=
  signed_degrees (GPSLatitudeRef block) "S" (GPSLatitude block).

Definition longitude_of (block : gps_ifd) : Q :=
  signed_degrees (GPSLongitudeRef block) "W" (GPSLongitude block).

(** The RATIONAL of EXIF: two unsigned 32-bit integers, the second one
    not zero. *)
Definition unsigned_rational (r : rational) : Prop :=
  0 <= fst r < 2 ^ 32 /\ 0 < snd r < 2 ^ 32.

(** Texts without a newline: the entries that stay on a line of their
    own. *)
Definition one_line (s : string) : Prop :=
  ~ In (ascii_of_nat 10) (list_ascii_of_string s).

(** ** A sample of the collaborators, to run the batch on *)

Module Sample.

(** [posixpath.join] of two paths. *)
Definition ends_with_slash (s : string) : bool :=
  match rev (list_ascii_of_string s) with
  | c :: _ => Ascii.eqb c "/"
  | [] => false
  end.

Definition path_join (folder name : string) : string :=
  match name with
  | String "/" _ => name
  | _ =>
      if String.eqb folder "" || ends_with_slash folder then (folder ++ name)%string
      else (folder ++ "/" ++ name)%string
  end.

(** The pieces of [s] between the occurrences of [sep]. *)
Fixpoint split_on (sep : ascii) (s : string) : list string :=
  match s with
  | EmptyString => [EmptyString]
  | String c s' =>
      let pieces := split_on sep s' in
      if Ascii.eqb c sep then EmptyString :: pieces
      else match pieces with
           | piece :: rest => String c piece :: rest
           | [] => [String c EmptyString]
           end
  end.

(** *** [csv.reader] with its default dialect *)

(** A file opened without [newline=] gives its line ends as newlines. *)
Fixpoint universal_newlines (s : string) : string :=
  match s with
  | String c s' =>
      if Ascii.eqb c (ascii_of_nat 13) then
        match s' with
        | String c' s'' =>
            if Ascii.eqb c' (ascii_of_nat 10) then String c' (universal_newlines s'')
            else String (ascii_of_nat 10) (universal_newlines s')
        | EmptyString => String (ascii_of_nat 10) EmptyString
        end
      else String c (universal_newlines s')
  | EmptyString => EmptyString
  end.

Inductive csv_state : Type :=
| StartRecord
| StartField
| InField
| InQuotedField
| QuoteInQuotedField.

Definition quotechar : ascii := ascii_of_nat 34.

Definition add_char (field : string) (c : ascii) : string :=
  (field ++ String c EmptyString)%string.

(** The rows of the text [s], read from the state [st] with the cells
    [row] (the last one first) and the characters [field] of the record
    under way. *)
Fixpoint csv_rows (st : csv_state) (row : list string) (field : string) (s : string)
  : list (list string) :=
  match s with
  | EmptyString =>
      match st with
      | StartRecord => []
      | _ => [rev (field :: row)]
      end
  | String c s' =>
      let is_newline := Ascii.eqb c (ascii_of_nat 10) in
      let is_comma := Ascii.eqb c "," in
      let is_quote := Ascii.eqb c quotechar in
      match st with
      | StartRecord =>
          if is_newline then [] :: csv_rows StartRecord [] EmptyString s'
          else if is_quote then csv_rows InQuotedField [] EmptyString s'
          else if is_comma then csv_rows StartField [EmptyString] EmptyString s'
          else csv_rows InField [] (String c EmptyString) s'
      | StartField =>
          if is_newline then rev (EmptyString :: row) :: csv_rows StartRecord [] EmptyString s'
          else if is_quote then csv_rows InQuotedField row EmptyString s'
          else if is_comma then csv_rows StartField (EmptyString :: row) EmptyString s'
          else csv_rows InField row (String c EmptyString) s'
      | InField =>
          if is_newline then rev (field :: row) :: csv_rows StartRecord [] EmptyString s'
          else if is_comma then csv_rows StartField (field :: row) EmptyString s'
          else csv_rows InField row (add_char field c) s'
      | InQuotedField =>
          if is_quote then csv_rows QuoteInQuotedField row field s'
          else csv_rows InQuotedField row (add_char field c) s'
      | QuoteInQuotedField =>
          if is_quote then csv_rows InQuotedField row (add_char field c) s'
          else if is_comma then csv_rows StartField (field :: row) EmptyString s'
          else if is_newline then rev (field :: row) :: csv_rows StartRecord [] EmptyString s'
          else csv_rows InField row (add_char field c) s'
      end
  end.

Definition csv_reader (data : string) : list (list string) :=
  csv_rows StartRecord [] EmptyString (universal_newlines data).

(** *** [float] of a text *)

Definition lower (c : ascii) : ascii :=
  let n := nat_of_ascii c in
  if ((65 <=? n) && (n <=? 90))%nat then ascii_of_nat (n + 32) else c.

Fixpoint lowercase (s : string) : string :=
  match s with
  | String c s' => String (lower c) (lowercase s')
  | EmptyString => EmptyString
  end.

Definition strip (s : string) : string :=
  let t := skip_spaces s in
  string_of_list_ascii
    (rev (list_ascii_of_string
            (skip_spaces (string_of_list_ascii (rev (list_ascii_of_string t)))))).

(** The texts of the floats that are not finite: [inf], [infinity] and
    [nan], in any case and with a sign. *)
Definition non_finite (s : string) : option pyfloat :=
  let (neg, body) := take_sign (lowercase s) in
  if String.eqb body "inf" || String.eqb body "infinity" then Some (Inf neg)
  else if String.eqb body "nan" then Some NaN
  else None.

(** Underscores are allowed between two digits, and nowhere else; [prev]
    tells whether the character before is a digit. *)
Fixpoint drop_underscores (prev : bool) (s : string) : option string :=
  match s with
  | EmptyString => Some EmptyString
  | String c s' =>
      if Ascii.eqb c "_" then
        match s' with
        | String c' _ =>
            if prev && is_digit c' then drop_underscores false s' else None
        | EmptyString => None
        end
      else
        match drop_underscores (is_digit c) s' with
        | Some r => Some (String c r)
        | None => None
        end
  end.

Definition has_slash (s : string) : bool :=
  existsb (fun c => Ascii.eqb c "/") (list_ascii_of_string s).

(** A decimal text is read as the nearest float, and as an infinity when
    it is beyond them. *)
Definition py_float (s : string) : result pyfloat :=
  let t := strip s in
  match non_finite t with
  | Some x => Ok x
  | None =>
      if has_slash t then Raise ValueError else
      match drop_underscores false t with
      | None => Raise ValueError
      | Some digits =>
          match Fraction digits with
          | Ok q => Ok (round_f64 q)
          | Raise _ => Raise ValueError
          end
      end
  end.

(** *** piexif *)

(** What [struct.pack] takes for a LONG. *)
Definition fits_long (n : Z) : bool := (0 <=? n) && (n <? 2 ^ 32).

Definition fits_rational (r : rational) : bool := fits_long (fst r) && fits_long (snd r).

Definition fits_triple (x : rational * rational * rational) : bool :=
  let '(d, m, s) := x in fits_rational d && fits_rational m && fits_rational s.

(** The bytes are stood for by a text of the references and the altitude;
    a rational with a negative or too large part is refused, as
    [struct.pack] refuses it. *)
Definition piexif_dump (block : gps_ifd) : result string :=
  if fits_rational (GPSAltitude block) && fits_triple (GPSLatitude block)
     && fits_triple (GPSLongitude block)
  then Ok ("GPS " ++ GPSLatitudeRef block ++ " " ++ GPSLongitudeRef block ++ " "
           ++ str_int (fst (GPSAltitude block)) ++ ";")%string
  else Raise StructError.

(** An image is a text that ends in [JPEG], after the metadata it
    holds; these are replaced, and what is no image is refused. *)
Definition is_image (data : string) : bool :=
  match rev (list_ascii_of_string data) with
  | "G"%char :: "E"%char :: "P"%char :: "J"%char :: _ => true
  | _ => false
  end.

Definition piexif_insert (exif_bytes data : string) : result string :=
  if is_image data then Ok (exif_bytes ++ "JPEG")%string else Raise ValueError.

(** *** The file system *)

(** The directories are the current one and [img]. *)
Definition dir_writable (p : string) : bool :=
  match split_on "/" p with
  | [name] => negb (String.eqb name "")
  | [dir; name] => String.eqb dir "img" && negb (String.eqb name "")
  | _ => false
  end.

Definition file_writable (p : string) : bool := negb (String.eqb p "locked.csv").

(** The run over the folder [img], with the columns of the table in the
    order name, latitude, longitude, altitude. *)
Definition run (gpscsv errorLogCSV : string) : M unit :=
  main path_join csv_reader py_float piexif_dump piexif_insert dir_writable file_writable
    "img" gpscsv errorLogCSV 0 1 2 3.

Definition loop (rows : list (list string)) (failedFiles : list string) : M (list string) :=
  process_rows path_join py_float piexif_dump piexif_insert "img" 0 1 2 3 rows failedFiles.

(** A folder with two of the three images that the table names. *)
Definition table : string :=
  ("name,lat,lon,alt" ++ newline ++
   "a.jpg,25.230095,-80.5,12.6" ++ newline ++
   "b.jpg,1.5,2.5,3" ++ newline ++
   "c.jpg,-33.9,18.4,26.4" ++ newline)%string.

(** A table whose second row has no number for the latitude of an image
    that is there, and one whose second row has none for an image that is
    not. *)
Definition bad_table : string :=
  ("name,lat,lon,alt" ++ newline ++
   "b.jpg,1.5,2.5,3" ++ newline ++
   "a.jpg,north,-80.5,12.6" ++ newline ++
   "c.jpg,-33.9,18.4,26.4" ++ newline)%string.

Definition odd_table : string :=
  ("name,lat,lon,alt" ++ newline ++
   "a.jpg,25.230095,-80.5,12.6" ++ newline ++
   "b.jpg,north" ++ newline ++
   "c.jpg,-33.9,18.4,26.4" ++ newline)%string.

Definition world0 : world :=
  World (list_to_map [("gps.csv", table); ("img/a.jpg", "JPEG"); ("img/c.jpg", "JPEG");
                      ("empty.csv", ""); ("bad.csv", bad_table); ("odd.csv", odd_table)]%string) [].

End Sample.

(** A table whose second row gives a latitude beyond the floats to an
    image that is there. *)
Module Overflow.

Definition table : string :=
  ("name,lat,lon,alt" ++ newline ++
   "c.jpg,-33.9,18.4,26.4" ++ newline ++
   "a.jpg,1e999,-80.5,12.6" ++ newline ++
   "b.jpg,1.5,2.5,3" ++ newline)%string.

Definition world0 : world :=
  World (<["far.csv"%string := table]> (files Sample.world0)) [].

End Overflow.

(** A table whose third row gives an altitude below sea level to an image
    that is there. *)
Module BelowSea.

Definition table : string :=
  ("name,lat,lon,alt" ++ newline ++
   "a.jpg,25.230095,-80.5,12.6" ++ newline ++
   "b.jpg,1.5,2.5,3" ++ newline ++
   "c.jpg,-33.9,18.4,-12.6" ++ newline ++
   "d.jpg,1,2,3" ++ newline)%string.

Definition world0 : world :=
  World (<["sea.csv"%string := table]> (files Sample.world0)) [].

End BelowSea.

(** * Properties *)

Local Open Scope Q_scope.

(** ** Rounding *)

Ltac hide_pow :=
  repeat match goal with
  | |- context [Qpower ?a ?e] =>
      let p := fresh "p" in set (p := Qpower a e) in *; clearbody p
  | H : context [Qpower ?a ?e] |- _ =>
      let p := fresh "p" in set (p := Qpower a e) in *; clearbody p
  end.
Ltac plra := hide_pow; lra.

Lemma pow2_pos (e : Z) : 0 < 2 ^ e.
Proof. apply Qpower_0_lt. reflexivity. Qed.

Lemma pow2_add (a b : Z) : 2 ^ (a + b) == 2 ^ a * 2 ^ b.
Proof. apply Qpower_plus. discriminate. Qed.

Lemma pow2_opp (a : Z) : 2 ^ (- a) == / 2 ^ a.
Proof. apply Qpower_opp. Qed.

Lemma pow2_cancel (a : Z) : 2 ^ a * 2 ^ (- a) == 1.
Proof. rewrite <- pow2_add. replace (a + - a)%Z with 0%Z by lia. reflexivity. Qed.

Lemma pow2_Z (a : Z) : (0 <= a)%Z -> 2 ^ a == inject_Z (2 ^ a).
Proof. intros H. rewrite Zpower_Qpower by assumption. reflexivity. Qed.

Lemma pow2_le (a b : Z) : (a <= b)%Z -> 2 ^ a <= 2 ^ b.
Proof. intros H. apply Qpower_le_compat_l; [assumption | discriminate]. Qed.

Lemma pow2_lt (a b : Z) : (a < b)%Z -> 2 ^ a < 2 ^ b.
Proof. intros H. apply Qpower_lt_compat_l; [assumption | reflexivity]. Qed.

Lemma pow2_lt_inv (a b : Z) : 2 ^ a < 2 ^ b -> (a < b)%Z.
Proof. intros H. apply (Qpower_lt_compat_l_inv 2); [assumption | reflexivity]. Qed.

Lemma pow2_succ (a : Z) : 2 ^ (a + 1) == 2 * 2 ^ a.
Proof. rewrite pow2_add. change (2 ^ 1) with 2. ring. Qed.

(* round_half_even *)
Lemma rhe_cases (x : Q) :
  round_half_even x = Qfloor x /\ x - inject_Z (Qfloor x) <= 1 # 2 \/
  round_half_even x = (Qfloor x + 1)%Z /\ 1 # 2 <= x - inject_Z (Qfloor x).
Proof.
  unfold round_half_even. set (f := Qfloor x).
  destruct (Qcompare_spec (x - inject_Z f) (1 # 2)) as [H|H|H].
  - destruct (Z.even f); [left | right]; split; try reflexivity; rewrite H; apply Qle_refl.
  - left. split; [reflexivity | apply Qlt_le_weak, H].
  - right. split; [reflexivity | apply Qlt_le_weak, H].
Qed.

Lemma rhe_error (x : Q) : Qabs (inject_Z (round_half_even x) - x) <= 1 # 2.
Proof.
  pose proof (Qfloor_le x) as Hl. pose proof (Qlt_floor x) as Hu.
  rewrite inject_Z_plus in Hu.
  apply Qabs_Qle_condition.
  destruct (rhe_cases x) as [[-> H]|[-> H]]; rewrite ?inject_Z_plus;
    generalize dependent (inject_Z (Qfloor x)); intros; change (inject_Z 1) with 1 in *; split; lra.
Qed.

Lemma rhe_le_Z (x : Q) (j : Z) : x <= inject_Z j -> (round_half_even x <= j)%Z.
Proof.
  intros H.
  pose proof (Qfloor_le x) as Hl. pose proof (Qlt_floor x) as Hu.
  rewrite inject_Z_plus in Hu. change (inject_Z 1) with 1 in Hu.
  destruct (rhe_cases x) as [[-> H1]|[-> H1]].
  - rewrite Zle_Qle. lra.
  - assert (Hlt : inject_Z (Qfloor x) < inject_Z j) by lra.
    rewrite <- Zlt_Qlt in Hlt. lia.
Qed.

Lemma rhe_ge_Z (x : Q) (j : Z) : inject_Z j <= x -> (j <= round_half_even x)%Z.
Proof.
  intros H.
  pose proof (Qfloor_le x) as Hl. pose proof (Qlt_floor x) as Hu.
  rewrite inject_Z_plus in Hu.
  assert (Hf : (j <= Qfloor x)%Z).
  { apply Qfloor_resp_le in H. rewrite Qfloor_Z in H. exact H. }
  destruct (rhe_cases x) as [[-> H1]|[-> H1]]; lia.
Qed.

Lemma rhe_Z (j : Z) : round_half_even (inject_Z j) = j.
Proof.
  apply Z.le_antisymm; [apply rhe_le_Z | apply rhe_ge_Z]; apply Qle_refl.
Qed.

Lemma rhe_comp (x y : Q) : x == y -> round_half_even x = round_half_even y.
Proof.
  intros H. unfold round_half_even.
  rewrite (Qfloor_comp x y H).
  assert (Hc : (x - inject_Z (Qfloor y) ?= 1 # 2) = (y - inject_Z (Qfloor y) ?= 1 # 2)).
  { apply Qcompare_comp; [rewrite H; reflexivity | reflexivity]. }
  rewrite Hc. reflexivity.
Qed.

(* ilog2 *)
Lemma Zlog2_Q (n : Z) : (0 < n)%Z ->
  2 ^ (Z.log2 n) <= inject_Z n /\ inject_Z n < 2 ^ (Z.log2 n + 1).
Proof.
  intros H. pose proof (Z.log2_spec n H) as [H1 H2].
  pose proof (Z.log2_nonneg n) as H0.
  rewrite !pow2_Z by lia. rewrite <- Zle_Qle, <- Zlt_Qlt.
  replace (Z.log2 n + 1)%Z with (Z.succ (Z.log2 n)) by lia. split; assumption.
Qed.

Lemma Qabs_num_den (x : Q) :
  Qabs x * inject_Z (Zpos (Qden x)) == inject_Z (Z.abs (Qnum x)).
Proof.
  destruct x as [n d]. unfold Qabs, Qeq, inject_Z, Qmult. simpl. lia.
Qed.

Lemma ilog2_spec (x : Q) : ~ x == 0 ->
  2 ^ ilog2 x <= Qabs x /\ Qabs x < 2 ^ (ilog2 x + 1).
Proof.
  intros Hx. unfold ilog2.
  destruct (Qeq_bool x 0) eqn:E0.
  { apply Qeq_bool_iff in E0. contradiction. }
  clear E0.
  set (a := Z.log2 (Z.abs (Qnum x))). set (b := Z.log2 (Zpos (Qden x))).
  assert (Hn : (0 < Z.abs (Qnum x))%Z).
  { destruct x as [n d]. unfold Qeq in Hx. simpl in *. lia. }
  destruct (Zlog2_Q _ Hn) as [Ha1 Ha2]. fold a in Ha1, Ha2.
  destruct (Zlog2_Q (Zpos (Qden x)) eq_refl) as [Hb1 Hb2]. fold b in Hb1, Hb2.
  pose proof (Qabs_num_den x) as Hq.
  set (N := inject_Z (Z.abs (Qnum x))) in *.
  set (D := inject_Z (Zpos (Qden x))) in *.
  pose proof (pow2_pos b) as Pb. pose proof (pow2_pos (a - b)) as Pl.
  assert (HD : 0 < D) by lra.
  assert (E1 : 2 ^ (a - b + 1) * 2 ^ b == 2 ^ (a + 1)).
  { rewrite <- pow2_add. replace (a - b + 1 + b)%Z with (a + 1)%Z by lia. reflexivity. }
  assert (E2 : 2 ^ (a - b - 1) * 2 ^ (b + 1) == 2 ^ a).
  { rewrite <- pow2_add. replace (a - b - 1 + (b + 1))%Z with a by lia. reflexivity. }
  pose proof (pow2_pos (a - b + 1)) as Pl1. pose proof (pow2_pos (a - b - 1)) as Pl2.
  pose proof (pow2_pos (b + 1)) as Pb1.
  set (pa := 2 ^ a) in *. set (pa1 := 2 ^ (a + 1)) in *.
  set (pb := 2 ^ b) in *. set (pb1 := 2 ^ (b + 1)) in *.
  set (pu := 2 ^ (a - b + 1)) in *. set (pl := 2 ^ (a - b - 1)) in *.
  assert (U : Qabs x < pu).
  { clearbody pa pa1 pb pb1 pu pl. apply (Qmult_lt_r _ _ D HD). rewrite Hq.
    apply Qlt_le_trans with (pu * pb); [lra|].
    apply Qmult_le_l; assumption. }
  assert (L : pl <= Qabs x).
  { clearbody pa pa1 pb pb1 pu pl. apply (Qmult_le_r _ _ D HD). rewrite Hq.
    apply Qle_trans with (pl * pb1); [|lra].
    apply Qmult_le_l; [assumption | lra]. }
  subst pu pl.
  destruct (Qle_bool (2 ^ (a - b)) (Qabs x)) eqn:E.
  - apply Qle_bool_iff in E. split; assumption.
  - assert (E' : Qabs x < 2 ^ (a - b)).
    { apply Qnot_le_lt. intros C. apply Qle_bool_iff in C. congruence. }
    replace (a - b - 1 + 1)%Z with (a - b)%Z by lia. split; assumption.
Qed.

Lemma ilog2_unique (x : Q) (e : Z) :
  2 ^ e <= Qabs x -> Qabs x < 2 ^ (e + 1) -> ilog2 x = e.
Proof.
  intros H1 H2.
  assert (Hx : ~ x == 0).
  { intros C. rewrite C in H1. pose proof (pow2_pos e). change (Qabs 0) with 0 in H1. plra. }
  destruct (ilog2_spec x Hx) as [L U].
  assert (A : (ilog2 x < e + 1)%Z) by (apply pow2_lt_inv; plra).
  assert (B : (e < ilog2 x + 1)%Z) by (apply pow2_lt_inv; plra).
  lia.
Qed.

Lemma ilog2_comp (x y : Q) : x == y -> ilog2 x = ilog2 y.
Proof.
  intros H. destruct (Qeq_dec y 0) as [Hy|Hy].
  - unfold ilog2. rewrite H, Hy. reflexivity.
  - destruct (ilog2_spec y Hy) as [L U]. apply ilog2_unique; rewrite H; assumption.
Qed.

Lemma ilog2_lt (x : Q) (k : Z) : ~ x == 0 -> Qabs x < 2 ^ k -> (ilog2 x < k)%Z.
Proof.
  intros Hx H. destruct (ilog2_spec x Hx) as [L _]. apply pow2_lt_inv. plra.
Qed.

Lemma ulp_exp_comp (x y : Q) : x == y -> ulp_exp x = ulp_exp y.
Proof. intros H. unfold ulp_exp. rewrite (ilog2_comp x y H), H. reflexivity. Qed.

Lemma ulp_exp_ge (x : Q) : (emin <= ulp_exp x)%Z.
Proof. unfold ulp_exp. destruct (Qeq_bool x 0); lia. Qed.

Lemma ulp_exp_le (x : Q) (k g : Z) :
  Qabs x < 2 ^ k -> (emin <= g)%Z -> (k - prec <= g)%Z -> (ulp_exp x <= g)%Z.
Proof.
  intros Hx Hg Hk. unfold ulp_exp. destruct (Qeq_bool x 0) eqn:E; [assumption|].
  apply Qeq_bool_neq in E. pose proof (ilog2_lt x k E Hx). unfold prec in *. lia.
Qed.

Lemma rnd_comp (x y : Q) : x == y -> rnd x = rnd y.
Proof.
  intros H. unfold rnd. apply Qred_complete.
  rewrite (ulp_exp_comp x y H).
  rewrite (rhe_comp (x * 2 ^ (- ulp_exp y)) (y * 2 ^ (- ulp_exp y))); [reflexivity|].
  rewrite H. reflexivity.
Qed.

(* unfolded rnd up to == *)
Lemma rnd_eq (x : Q) :
  rnd x == inject_Z (round_half_even (x * 2 ^ (- ulp_exp x))) * 2 ^ ulp_exp x.
Proof. unfold rnd. apply Qred_correct. Qed.

(* grid lemmas: a value on the grid of x (or a coarser one) bounds rnd x as it bounds x *)
Lemma on_grid_scaled (j g e : Z) : (e <= g)%Z ->
  inject_Z j * 2 ^ g * 2 ^ (- e) == inject_Z (j * 2 ^ (g - e)).
Proof.
  intros H. rewrite inject_Z_mult, <- pow2_Z by lia.
  rewrite <- Qmult_assoc, <- pow2_add. replace (g + - e)%Z with (g - e)%Z by lia. reflexivity.
Qed.

Lemma rnd_le_grid (x : Q) (j g : Z) :
  (ulp_exp x <= g)%Z -> x <= inject_Z j * 2 ^ g -> rnd x <= inject_Z j * 2 ^ g.
Proof.
  intros Hg Hx. rewrite rnd_eq. set (e := ulp_exp x) in *.
  pose proof (pow2_pos e) as Pe. pose proof (pow2_pos (- e)) as Pne.
  assert (Hs : x * 2 ^ (- e) <= inject_Z (j * 2 ^ (g - e))).
  { rewrite <- on_grid_scaled by assumption. apply Qmult_le_compat_r; lra. }
  apply rhe_le_Z in Hs. rewrite Zle_Qle in Hs.
  rewrite <- on_grid_scaled in Hs by assumption.
  apply (Qmult_le_compat_r _ _ (2 ^ e)) in Hs; [|lra].
  rewrite <- (Qmult_assoc _ (2 ^ (- e)) (2 ^ e)) in Hs.
  rewrite (Qmult_comm (2 ^ (- e))), pow2_cancel, Qmult_1_r in Hs. exact Hs.
Qed.

Lemma rnd_ge_grid (x : Q) (j g : Z) :
  (ulp_exp x <= g)%Z -> inject_Z j * 2 ^ g <= x -> inject_Z j * 2 ^ g <= rnd x.
Proof.
  intros Hg Hx. rewrite rnd_eq. set (e := ulp_exp x) in *.
  pose proof (pow2_pos e) as Pe. pose proof (pow2_pos (- e)) as Pne.
  assert (Hs : inject_Z (j * 2 ^ (g - e)) <= x * 2 ^ (- e)).
  { rewrite <- on_grid_scaled by assumption. apply Qmult_le_compat_r; lra. }
  apply rhe_ge_Z in Hs. rewrite Zle_Qle in Hs.
  rewrite <- on_grid_scaled in Hs by assumption.
  apply (Qmult_le_compat_r _ _ (2 ^ e)) in Hs; [|lra].
  rewrite <- (Qmult_assoc _ (2 ^ (- e)) (2 ^ e)) in Hs.
  rewrite (Qmult_comm (2 ^ (- e))), pow2_cancel, Qmult_1_r in Hs. exact Hs.
Qed.

Lemma rnd_on_grid (x : Q) (j g : Z) :
  (ulp_exp x <= g)%Z -> x == inject_Z j * 2 ^ g -> rnd x == x.
Proof.
  intros Hg Hx. apply Qle_antisym.
  - rewrite Hx at 2. apply rnd_le_grid; [assumption | rewrite Hx; apply Qle_refl].
  - rewrite Hx at 1. apply rnd_ge_grid; [assumption | rewrite Hx; apply Qle_refl].
Qed.

Lemma rnd_error (x : Q) : Qabs (rnd x - x) <= 2 ^ (ulp_exp x) * (1 # 2).
Proof.
  rewrite rnd_eq. set (e := ulp_exp x).
  pose proof (pow2_pos e) as Pe.
  pose proof (rhe_error (x * 2 ^ (- e))) as H.
  set (k := inject_Z (round_half_even (x * 2 ^ (- e)))) in *.
  assert (E : k * 2 ^ e - x == (k - x * 2 ^ (- e)) * 2 ^ e).
  { assert (C := pow2_cancel e). 
    transitivity (k * 2 ^ e - x * (2 ^ e * 2 ^ (- e))); [rewrite C; ring | ring]. }
  rewrite E, Qabs_Qmult, (Qabs_pos (2 ^ e)) by lra.
  rewrite (Qmult_comm (2 ^ e)). apply Qmult_le_compat_r; lra.
Qed.

(** ** Rounding is odd *)

Lemma Qfloor_unique (y : Q) (z : Z) : inject_Z z <= y -> y < inject_Z z + 1 -> Qfloor y = z.
Proof.
  intros H1 H2. apply Z.le_antisymm.
  - pose proof (Qfloor_le y) as F.
    assert (L : inject_Z (Qfloor y) < inject_Z (z + 1)).
    { rewrite inject_Z_plus. change (inject_Z 1) with 1.
      apply Qle_lt_trans with (1 := F). exact H2. }
    rewrite <- Zlt_Qlt in L. lia.
  - apply Qfloor_resp_le in H1. rewrite Qfloor_Z in H1. exact H1.
Qed.

Lemma rhe_opp (x : Q) : round_half_even (- x) = (- round_half_even x)%Z.
Proof.
  destruct (Qeq_dec x (inject_Z (Qfloor x))) as [E|E].
  - rewrite (rhe_comp x _ E).
    rewrite (rhe_comp (- x) (inject_Z (- Qfloor x))) by (rewrite inject_Z_opp, <- E; reflexivity).
    rewrite !rhe_Z. reflexivity.
  - pose proof (Qfloor_le x) as F1. pose proof (Qlt_floor x) as F2.
    rewrite inject_Z_plus in F2. change (inject_Z 1) with 1 in F2.
    set (f := Qfloor x) in *.
    assert (F1' : inject_Z f < x).
    { apply Qle_lteq in F1. destruct F1 as [F1|F1]; [exact F1|].
      exfalso. apply E. symmetry. exact F1. }
    assert (Fn : Qfloor (- x) = (- f - 1)%Z).
    { apply Qfloor_unique.
      - unfold Z.sub. rewrite inject_Z_plus, !inject_Z_opp. change (inject_Z 1) with 1.
        revert F2. generalize (inject_Z f). intros q F2. lra.
      - unfold Z.sub. rewrite inject_Z_plus, !inject_Z_opp. change (inject_Z 1) with 1.
        revert F1'. generalize (inject_Z f). intros q F1'. lra. }
    unfold round_half_even. rewrite Fn. fold f.
    assert (R : - x - inject_Z (- f - 1) == 1 - (x - inject_Z f)).
    { unfold Z.sub. rewrite inject_Z_plus, !inject_Z_opp. change (inject_Z 1) with 1. ring. }
    rewrite (Qcompare_comp _ _ R _ _ (Qeq_refl (1 # 2))).
    set (r := x - inject_Z f) in *.
    assert (Ev : Z.even (- f - 1) = negb (Z.even f)).
    { replace (- f - 1)%Z with (- (f + 1))%Z by lia.
      rewrite Z.even_opp, Z.even_add. destruct (Z.even f); reflexivity. }
    rewrite Ev.
    destruct (Qcompare_spec r (1 # 2)) as [C|C|C];
      destruct (Qcompare_spec (1 - r) (1 # 2)) as [C'|C'|C']; try (exfalso; lra).
    + destruct (Z.even f); cbn [negb]; lia.
    + lia.
    + lia.
Qed.

Lemma ilog2_opp (x : Q) : ilog2 (- x) = ilog2 x.
Proof.
  destruct (Qeq_dec x 0) as [E|E].
  - apply ilog2_comp. rewrite E. reflexivity.
  - destruct (ilog2_spec x E) as [L U]. apply ilog2_unique; rewrite Qabs_opp; assumption.
Qed.

Lemma ulp_exp_opp (x : Q) : ulp_exp (- x) = ulp_exp x.
Proof.
  unfold ulp_exp. rewrite ilog2_opp.
  assert (E : Qeq_bool (- x) 0 = Qeq_bool x 0).
  { destruct (Qeq_bool x 0) eqn:C.
    - apply Qeq_bool_iff in C. apply Qeq_bool_iff. rewrite C. reflexivity.
    - destruct (Qeq_bool (- x) 0) eqn:C'; [|reflexivity].
      apply Qeq_bool_iff in C'. apply Qeq_bool_neq in C. exfalso. apply C.
      rewrite <- (Qopp_involutive x), C'. reflexivity. }
  rewrite E. reflexivity.
Qed.

Lemma rnd_opp (x : Q) : rnd (- x) = - rnd x.
Proof.
  unfold rnd. rewrite ulp_exp_opp, <- Qred_opp. apply Qred_complete.
  rewrite (rhe_comp (- x * 2 ^ (- ulp_exp x)) (- (x * 2 ^ (- ulp_exp x)))) by ring.
  rewrite rhe_opp, inject_Z_opp. ring.
Qed.

Lemma Qabs_opp_pos (a : Q) : 0 < a -> Qabs (- a) = a.
Proof.
  destruct a as [n dn]. unfold Qlt, Qabs, Qopp. cbn. intros H. f_equal. lia.
Qed.


Lemma Qabs_scale (j : Z) (g : Z) : Qabs (inject_Z j * 2 ^ g) == inject_Z (Z.abs j) * 2 ^ g.
Proof.
  rewrite Qabs_Qmult, (Qabs_pos (2 ^ g)) by (apply Qlt_le_weak, pow2_pos).
  apply Qmult_comp; [|reflexivity]. unfold Qabs, inject_Z. reflexivity.
Qed.

Lemma rnd_0 (x : Q) : x == 0 -> rnd x == 0.
Proof. intros H. rewrite (rnd_comp x 0 H). reflexivity. Qed.

Lemma scaled_lt (j g : Z) (n : Z) :
  (Z.abs j < 2 ^ n)%Z -> (0 <= n)%Z -> Qabs (inject_Z j * 2 ^ g) < 2 ^ (g + n).
Proof.
  intros Hj Hn. rewrite Qabs_scale, pow2_add, (Qmult_comm (2 ^ g)).
  apply Qmult_lt_compat_r; [apply pow2_pos|].
  rewrite pow2_Z by assumption. rewrite <- Zlt_Qlt. assumption.
Qed.

(** A number with a 53-bit significand at an admissible exponent is
    left as it is. *)
Lemma rnd_exact (x : Q) (j g : Z) :
  x == inject_Z j * 2 ^ g -> (Z.abs j < 2 ^ prec)%Z -> (emin <= g)%Z -> rnd x == x.
Proof.
  intros Hx Hj Hg. apply (rnd_on_grid x j g); [|assumption].
  apply (ulp_exp_le x (g + prec)); [|assumption|lia].
  rewrite Hx. apply scaled_lt; [assumption | unfold prec; lia].
Qed.

Lemma scaled_abs_lt (x : Q) : ~ x == 0 ->
  Qabs (x * 2 ^ (- ulp_exp x)) < inject_Z (2 ^ prec).
Proof.
  intros Hx. destruct (ilog2_spec x Hx) as [_ U].
  rewrite Qabs_Qmult, (Qabs_pos (2 ^ _)) by (apply Qlt_le_weak, pow2_pos).
  rewrite <- pow2_Z by (unfold prec; lia).
  assert (E : 2 ^ prec == 2 ^ (ulp_exp x + prec) * 2 ^ (- ulp_exp x)).
  { rewrite <- pow2_add. replace (ulp_exp x + prec + - ulp_exp x)%Z with prec by lia. reflexivity. }
  rewrite E. apply Qmult_lt_compat_r; [apply pow2_pos|].
  apply Qlt_le_trans with (1 := U). apply pow2_le.
  unfold ulp_exp. destruct (Qeq_bool x 0) eqn:E0.
  - apply Qeq_bool_iff in E0. contradiction.
  - unfold prec. lia.
Qed.

(** Every rounded value has a 53-bit significand at an admissible
    exponent. *)
Lemma rnd_repr (x : Q) :
  exists j g : Z, rnd x == inject_Z j * 2 ^ g /\ (Z.abs j < 2 ^ prec)%Z /\ (emin <= g)%Z.
Proof.
  destruct (Qeq_dec x 0) as [Hx|Hx].
  { exists 0%Z, 0%Z. rewrite (rnd_0 x Hx). repeat split; try reflexivity. unfold emin. lia. }
  pose proof (scaled_abs_lt x Hx) as Hs. pose proof (ulp_exp_ge x) as He.
  set (e := ulp_exp x) in *. set (y := x * 2 ^ (- e)) in *.
  apply Qabs_Qlt_condition in Hs. destruct Hs as [Hs1 Hs2].
  assert (K1 : (round_half_even y <= 2 ^ prec)%Z) by (apply rhe_le_Z, Qlt_le_weak, Hs2).
  assert (K2 : (- 2 ^ prec <= round_half_even y)%Z).
  { apply rhe_ge_Z. rewrite inject_Z_opp. apply Qlt_le_weak, Hs1. }
  pose proof (rnd_eq x) as Hr. fold e in Hr. fold y in Hr.
  set (k := round_half_even y) in *.
  destruct (Z.eq_dec (Z.abs k) (2 ^ prec)%Z) as [Hk|Hk].
  - exists (k / 2)%Z, (e + 1)%Z. split; [|split].
    + rewrite Hr, pow2_succ, Qmult_assoc. apply Qmult_comp; [|reflexivity].
      change 2 with (inject_Z 2). rewrite <- inject_Z_mult. apply inject_Z_injective.
      change (2 ^ prec)%Z with 9007199254740992%Z in Hk.
      assert (k = 9007199254740992 \/ k = - 9007199254740992)%Z as [->| ->] by lia; reflexivity.
    + change (2 ^ prec)%Z with 9007199254740992%Z in *.
      assert (k = 9007199254740992 \/ k = - 9007199254740992)%Z as [->| ->] by lia; reflexivity.
    + lia.
  - exists k, e. split; [exact Hr | split; [lia | exact He]].
Qed.

Lemma round_f64_comp (x y : Q) : x == y -> round_f64 x = round_f64 y.
Proof.
  intros H. unfold round_f64. rewrite (rnd_comp x y H).
  rewrite (Qleb_comp 0 0 (Qeq_refl 0) x y H). reflexivity.
Qed.

Lemma round_f64_fin (x : Q) : Qabs (rnd x) < 2 ^ emax -> round_f64 x = Fin (rnd x).
Proof.
  intros H. unfold round_f64.
  destruct (Qle_bool (2 ^ emax) (Qabs (rnd x))) eqn:E; [|reflexivity].
  apply Qle_bool_iff in E. exfalso. apply (Qlt_not_le _ _ H E).
Qed.

Lemma is_f64_rnd (q : Q) : is_f64 q -> rnd q = q /\ Qabs q < 2 ^ emax.
Proof.
  unfold is_f64, round_f64. intros H.
  destruct (Qle_bool (2 ^ emax) (Qabs (rnd q))) eqn:E; [discriminate|].
  injection H as H. split; [exact H|]. rewrite H in E.
  apply Qnot_le_lt. intros C. apply Qle_bool_iff in C. congruence.
Qed.

Lemma is_f64_repr (q : Q) : is_f64 q ->
  exists j g : Z, q == inject_Z j * 2 ^ g /\ (Z.abs j < 2 ^ prec)%Z /\ (emin <= g)%Z.
Proof.
  intros H. destruct (is_f64_rnd q H) as [Hr _].
  destruct (rnd_repr q) as (j & g & E & Hj & Hg). rewrite Hr in E. eauto.
Qed.

(** The result of a rounding is a binary64 number unless it overflows. *)
Lemma rnd_idem (x : Q) : rnd (rnd x) = rnd x.
Proof.
  destruct (rnd_repr x) as (j & g & E & Hj & Hg).
  pose proof (rnd_exact (rnd x) j g E Hj Hg) as H.
  unfold rnd at 1. unfold rnd at 1 in H. 
  apply Qred_complete in H. rewrite Qcanon.Qred_involutive in H.
  rewrite H. unfold rnd. apply Qcanon.Qred_involutive.
Qed.

Lemma is_f64_intro (x : Q) : Qabs (rnd x) < 2 ^ emax -> is_f64 (rnd x).
Proof.
  intros H. unfold is_f64. rewrite <- (rnd_idem x) at 2.
  apply round_f64_fin. rewrite rnd_idem. exact H.
Qed.

Lemma rnd_canon (x y : Q) : rnd x == y -> rnd x = Qred y.
Proof.
  intros H. unfold rnd in *. rewrite <- (Qcanon.Qred_involutive (_ * _)).
  apply Qred_complete. exact H.
Qed.

Lemma truncate_nonneg (x : Q) : 0 <= x -> truncate x = Qfloor x.
Proof. intros H. unfold truncate. apply Qle_bool_iff in H. rewrite H. reflexivity. Qed.

Lemma truncate_comp (x y : Q) : x == y -> truncate x = truncate y.
Proof.
  intros H. unfold truncate, Qceiling.
  rewrite (Qleb_comp 0 0 (Qeq_refl 0) x y H), (Qfloor_comp x y H).
  rewrite (Qfloor_comp (- x) (- y)) by (rewrite H; reflexivity). reflexivity.
Qed.

Lemma Qfloor_nonneg (x : Q) : 0 <= x -> (0 <= Qfloor x)%Z.
Proof. intros H. apply Qfloor_resp_le in H. exact H. Qed.

(** Integer and fractional part of a non-negative number with a 53-bit
    significand: both again have one. *)
Lemma floor_frac_repr (x : Q) (j g : Z) :
  x == inject_Z j * 2 ^ g -> (0 <= j < 2 ^ prec)%Z -> (emin <= g)%Z ->
  (inject_Z (Qfloor x) == x \/ (Qfloor x < 2 ^ prec)%Z) /\
  exists j' : Z, x - inject_Z (Qfloor x) == inject_Z j' * 2 ^ (Z.min g 0) /\
                 (0 <= j' < 2 ^ prec)%Z /\ (j' < 2 ^ (- Z.min g 0))%Z.
Proof.
  intros Hx Hj Hg. destruct (Z_le_gt_dec 0 g) as [G|G].
  - assert (E : x == inject_Z (j * 2 ^ g)).
    { rewrite Hx, inject_Z_mult, pow2_Z by assumption. reflexivity. }
    rewrite (Qfloor_comp _ _ E), Qfloor_Z. split; [left; symmetry; exact E|].
    exists 0%Z. rewrite Z.min_r by lia. split; [rewrite E; ring|].
    simpl. unfold prec. lia.
  - set (n := (- g)%Z). assert (Hn : (0 < n)%Z) by (unfold n; lia).
    assert (Hgn : g = (- n)%Z) by (unfold n; lia). clearbody n. subst g.
    assert (P : (0 < 2 ^ n)%Z) by (apply Z.pow_pos_nonneg; lia).
    assert (E : x == inject_Z j / inject_Z (2 ^ n)).
    { rewrite Hx. rewrite pow2_opp, pow2_Z by lia. reflexivity. }
    assert (F : Qfloor x = (j / 2 ^ n)%Z).
    { rewrite (Qfloor_comp _ _ E). symmetry. apply Zdiv_Qdiv. }
    pose proof (Z.div_mod j (2 ^ n) ltac:(lia)) as DM.
    pose proof (Z.mod_pos_bound j (2 ^ n) P) as MB.
    pose proof (Z.mod_le j (2 ^ n) ltac:(lia) P) as ML.
    assert (DB : (j / 2 ^ n <= j)%Z).
    { apply Z.div_le_upper_bound; [lia|]. nia. }
    split; [right; rewrite F; lia|].
    exists (j mod 2 ^ n)%Z. rewrite Z.min_l by lia. split; [|split].
    + rewrite F, E. rewrite pow2_opp, pow2_Z by lia.
      assert (NZ : ~ inject_Z (2 ^ n) == 0).
      { intros C. change 0 with (inject_Z 0) in C. apply (proj1 (inject_Z_injective _ _)) in C. lia. }
      rewrite DM at 1. rewrite inject_Z_plus, inject_Z_mult. field. exact NZ.
    + lia.
    + replace (- - n)%Z with n by lia. lia.
Qed.

Lemma frac_le_pred1 (f : Q) (j g : Z) :
  f == inject_Z j * 2 ^ g -> (0 <= j < 2 ^ prec)%Z -> (j < 2 ^ (- g))%Z -> (g <= 0)%Z ->
  0 <= f /\ f <= 1 - 2 ^ (- prec).
Proof.
  intros Hf Hj Hj' Hg. pose proof (pow2_pos g) as Pg.
  split.
  - rewrite Hf. apply Qmult_le_0_compat; [|apply Qlt_le_weak, Pg].
    change 0 with (inject_Z 0). rewrite <- Zle_Qle. lia.
  - destruct (Z_le_gt_dec (- prec) g) as [G|G].
    + (* j <= 2^-g - 1, so f <= 1 - 2^g <= 1 - 2^-53 *)
      assert (J : inject_Z j <= 2 ^ (- g) - 1).
      { rewrite pow2_Z by lia. change 1 with (inject_Z 1).
        unfold Qminus. rewrite <- inject_Z_opp, <- inject_Z_plus, <- Zle_Qle. lia. }
      pose proof (pow2_le (- prec) g G) as L.
      pose proof (pow2_cancel g) as C. rewrite Qmult_comm in C.
      rewrite Hf. apply Qle_trans with ((2 ^ (- g) - 1) * 2 ^ g).
      * apply Qmult_le_compat_r; [assumption | apply Qlt_le_weak, Pg].
      * hide_pow. nra.
    + (* f < 2^53 * 2^g <= 1/2 *)
      assert (J : inject_Z j <= 2 ^ prec).
      { rewrite pow2_Z by (unfold prec; lia). rewrite <- Zle_Qle. lia. }
      assert (L : 2 ^ prec * 2 ^ g <= 2 ^ (-1)).
      { rewrite <- pow2_add. apply pow2_le. lia. }
      rewrite Hf. apply Qle_trans with (2 ^ prec * 2 ^ g).
      * apply Qmult_le_compat_r; [assumption | apply Qlt_le_weak, Pg].
      * apply Qle_trans with (1 := L). vm_compute. discriminate.
Qed.

Lemma pow2_emax_big (n : Z) : (Z.abs n <= 2 ^ prec)%Z -> Qabs (inject_Z n) < 2 ^ emax.
Proof.
  intros H. apply Qle_lt_trans with (inject_Z (2 ^ prec)).
  - change (Qabs (inject_Z n)) with (inject_Z (Z.abs n)). rewrite <- Zle_Qle. exact H.
  - rewrite <- pow2_Z by (unfold prec; lia). apply pow2_lt. reflexivity.
Qed.

Lemma float_of_int_exact (n : Z) :
  rnd (inject_Z n) == inject_Z n -> Qabs (inject_Z n) < 2 ^ emax ->
  float_of_int n = Ok (Fin (inject_Z n)).
Proof.
  intros H B. unfold float_of_int. rewrite round_f64_fin by (rewrite H; exact B).
  rewrite (rnd_canon _ _ H), inject_Z_Qred. reflexivity.
Qed.

Lemma float_of_int_small (n : Z) :
  (Z.abs n < 2 ^ prec)%Z -> float_of_int n = Ok (Fin (inject_Z n)).
Proof.
  intros H. apply float_of_int_exact.
  - apply (rnd_exact _ n 0); [change (2 ^ 0) with 1; ring | exact H | unfold emin; lia].
  - apply pow2_emax_big. lia.
Qed.

(** Rounding in the range of a minute or second count. *)
Lemma rnd_upto60 (x : Q) : 0 <= x -> x <= 60 ->
  0 <= rnd x /\ rnd x <= 60 /\ Qabs (rnd x - x) <= 2 ^ (-48).
Proof.
  intros H0 H60.
  assert (A : Qabs x < 2 ^ 6).
  { rewrite Qabs_pos by assumption. apply Qle_lt_trans with (1 := H60). reflexivity. }
  assert (U : (ulp_exp x <= -47)%Z) by (apply (ulp_exp_le x 6); [exact A| |]; unfold emin, prec; lia).
  split; [|split].
  - change 0 with (inject_Z 0 * 2 ^ 0). apply rnd_ge_grid; [lia | exact H0].
  - change 60 with (inject_Z 60 * 2 ^ 0). apply rnd_le_grid; [lia | exact H60].
  - apply Qle_trans with (1 := rnd_error x).
    apply Qle_trans with (2 ^ (-47) * (1 # 2)); [|apply Qle_refl].
    apply Qmult_le_compat_r; [apply pow2_le; exact U | discriminate].
Qed.

Lemma round_f64_upto60 (x : Q) : 0 <= x -> x <= 60 -> round_f64 x = Fin (rnd x).
Proof.
  intros H0 H60. destruct (rnd_upto60 x H0 H60) as (A & B & _).
  apply round_f64_fin. rewrite Qabs_pos by assumption.
  apply Qle_lt_trans with (1 := B). reflexivity.
Qed.

Lemma repr53_nonneg (x : Q) : repr53 x -> 0 <= x.
Proof.
  intros (j & g & E & Hj & _). rewrite E.
  apply Qmult_le_0_compat; [|apply Qlt_le_weak, pow2_pos].
  change 0 with (inject_Z 0). rewrite <- Zle_Qle. lia.
Qed.

Lemma repr53_abs (x : Q) (j g : Z) :
  x == inject_Z j * 2 ^ g -> (Z.abs j < 2 ^ prec)%Z -> (emin <= g)%Z -> repr53 (Qabs x).
Proof.
  intros E Hj Hg. exists (Z.abs j), g. rewrite E, Qabs_scale.
  split; [reflexivity | split; [lia | exact Hg]].
Qed.

Lemma repr53_rnd (x : Q) : 0 <= rnd x -> repr53 (rnd x).
Proof.
  intros H. destruct (rnd_repr x) as (j & g & E & Hj & Hg).
  destruct (repr53_abs _ j g E Hj Hg) as (j' & g' & E' & R). exists j', g'.
  rewrite Qabs_pos in E' by exact H. split; [exact E' | exact R].
Qed.

Lemma frac_part_facts (x : Q) : repr53 x -> Qabs x < 2 ^ emax ->
  float_of_int (truncate x) = Ok (Fin (inject_Z (truncate x))) /\
  (0 <= truncate x)%Z /\
  rnd (frac_part x) == frac_part x /\
  0 <= frac_part x /\ frac_part x <= 1 - 2 ^ (- prec).
Proof.
  intros R B. pose proof (repr53_nonneg x R) as H0.
  destruct R as (j & g & E & Hj & Hg).
  unfold frac_part. rewrite (truncate_nonneg x H0).
  destruct (floor_frac_repr x j g E Hj Hg) as (HF & j' & EF & Hj' & Hj'').
  assert (G : (emin <= Z.min g 0)%Z) by (unfold emin in *; lia).
  split; [|split; [|split]].
  - destruct HF as [HF|HF].
    + apply float_of_int_exact.
      * rewrite (rnd_comp _ x HF), HF. apply (rnd_exact x j g E); [lia | exact Hg].
      * rewrite HF. exact B.
    + apply float_of_int_small. pose proof (Qfloor_nonneg x H0). lia.
  - apply Qfloor_nonneg, H0.
  - apply (rnd_exact _ j' (Z.min g 0) EF); [lia | exact G].
  - apply (frac_le_pred1 _ j' (Z.min g 0) EF Hj' Hj''). lia.
Qed.

Lemma loc_value_pair (v : Q) (neg pos : string) :
  (if flt_int (Fin v) 0 then py_index [neg; pos] 0
   else if fgt_int (Fin v) 0 then py_index [neg; pos] 1
   else Ok ""%string) = Ok (ref_char v neg pos).
Proof.
  unfold flt_int, fgt_int, ref_char. change (inject_Z 0) with 0.
  destruct (Qcompare_spec v 0) as [H|H|H].
  - assert (A : Qle_bool 0 v = true) by (apply Qle_bool_iff; rewrite H; apply Qle_refl).
    assert (B : Qle_bool v 0 = true) by (apply Qle_bool_iff; rewrite H; apply Qle_refl).
    rewrite A, B. reflexivity.
  - assert (A : Qle_bool 0 v = false).
    { destruct (Qle_bool 0 v) eqn:E; [|reflexivity]. apply Qle_bool_iff in E. lra. }
    rewrite A. reflexivity.
  - assert (A : Qle_bool 0 v = true) by (apply Qle_bool_iff; lra).
    assert (B : Qle_bool v 0 = false).
    { destruct (Qle_bool v 0) eqn:E; [|reflexivity]. apply Qle_bool_iff in E. lra. }
    rewrite A, B. reflexivity.
Qed.


Lemma times60_range (f : Q) : 0 <= f -> f <= 1 - 2 ^ (- prec) ->
  0 <= times60 f /\ times60 f < 60 /\ Qabs (times60 f - f * 60) <= 2 ^ (-48).
Proof.
  intros H0 H1. unfold times60.
  assert (P : 2 ^ (- prec) == 1 # 9007199254740992) by reflexivity.
  assert (Q48 : 2 ^ (-48) == 1 # 281474976710656) by reflexivity.
  rewrite P in H1.
  destruct (rnd_upto60 (f * 60)) as (A & B & C); [lra | lra |].
  split; [exact A | split; [|exact C]].
  rewrite Q48 in C. apply Qabs_Qle_condition in C. lra.
Qed.

Lemma truncate_lt60 (m : Q) : 0 <= m -> m < 60 -> (0 <= truncate m <= 59)%Z.
Proof.
  intros H0 H1. rewrite (truncate_nonneg m H0). split; [apply Qfloor_nonneg, H0|].
  pose proof (Qfloor_le m) as L.
  assert (Hlt : inject_Z (Qfloor m) < inject_Z 60) by (change (inject_Z 60) with 60; lra).
  rewrite <- Zlt_Qlt in Hlt. lia.
Qed.

Lemma round5_range (s : Q) : 0 <= s -> s <= 60 ->
  0 <= inject_Z (round_half_even (s * 100000)) / 100000 <= 60 /\
  Qabs (inject_Z (round_half_even (s * 100000)) / 100000 - s) <= 1 # 200000.
Proof.
  intros H0 H1. set (k := round_half_even (s * 100000)).
  assert (K0 : (0 <= k)%Z) by (apply rhe_ge_Z; change (inject_Z 0) with 0; lra).
  assert (K1 : (k <= 6000000)%Z) by (apply rhe_le_Z; change (inject_Z 6000000) with 6000000; lra).
  pose proof (rhe_error (s * 100000)) as E. fold k in E.
  rewrite Zle_Qle in K0, K1. change (inject_Z 0) with 0 in K0.
  change (inject_Z 6000000) with 6000000 in K1.
  apply Qabs_Qle_condition in E. 
  generalize dependent (inject_Z k). intros q K0 K1 E.
  split; [split|].
  - apply Qle_shift_div_l; [reflexivity | lra].
  - apply Qle_shift_div_r; [reflexivity | lra].
  - apply Qabs_Qle_condition. split.
    + apply Qplus_le_l with (z := s). ring_simplify. apply Qle_shift_div_l; [reflexivity | lra].
    + apply Qplus_le_l with (z := s). ring_simplify. apply Qle_shift_div_r; [reflexivity | lra].
Qed.

Lemma dms_trace_exists (a : Q) : repr53 a -> Qabs a < 2 ^ emax ->
  dms_trace a (times60 (frac_part a)) (frac_part (times60 (frac_part a)))
    (times60 (frac_part (times60 (frac_part a))))
    (round5 (times60 (frac_part (times60 (frac_part a))))).
Proof.
  intros R B.
  destruct (frac_part_facts a R B) as (_ & D0 & _ & F0 & F1).
  destruct (times60_range _ F0 F1) as (M0 & M1 & ME).
  set (m := times60 (frac_part a)) in *.
  assert (RM : repr53 m) by (apply repr53_rnd; exact M0).
  assert (BM : Qabs m < 2 ^ emax).
  { rewrite Qabs_pos by exact M0. apply Qlt_trans with (1 := M1). reflexivity. }
  destruct (frac_part_facts m RM BM) as (_ & _ & _ & R0 & R1).
  destruct (times60_range _ R0 R1) as (S0 & S1 & SE).
  set (r := frac_part m) in *. set (s := times60 r) in *.
  destruct (round5_range s S0 (Qlt_le_weak _ _ S1)) as ((K0 & K1) & KE).
  destruct (rnd_upto60 _ K0 K1) as (C0 & C1 & CE).
  constructor; try assumption; try reflexivity.
  - apply truncate_lt60; assumption.
  - apply Qlt_le_weak, S1.
Qed.

Lemma is_f64_abs_repr (v : Q) : is_f64 v -> repr53 (Qabs v) /\ Qabs (Qabs v) < 2 ^ emax.
Proof.
  intros H. destruct (is_f64_repr v H) as (j & g & E & Hj & Hg).
  destruct (is_f64_rnd v H) as [_ B]. split.
  - apply (repr53_abs v j g E Hj Hg).
  - rewrite (Qabs_pos (Qabs v)) by apply Qabs_nonneg. exact B.
Qed.

(** [x - int(x)] for a non-negative float: no rounding takes place. *)
Lemma fsub_int_truncate (x : Q) : repr53 x -> Qabs x < 2 ^ emax ->
  fsub_int (Fin x) (truncate x) = Ok (Fin (Qred (frac_part x))).
Proof.
  intros R B. destruct (frac_part_facts x R B) as (F & _ & E & F0 & F1).
  unfold fsub_int. rewrite F. simpl.
  change (x - inject_Z (truncate x)) with (frac_part x).
  rewrite round_f64_fin.
  - rewrite (rnd_canon _ _ E). reflexivity.
  - rewrite E, Qabs_pos by exact F0.
    apply Qle_lt_trans with (1 := F1). reflexivity.
Qed.

(** [f * 60] for a float [f] in the range of a fractional part. *)
Lemma fmul_int_60 (f f' : Q) : f' == f -> 0 <= f -> f <= 1 - 2 ^ (- prec) ->
  fmul_int (Fin f') 60 = Ok (Fin (times60 f)).
Proof.
  intros E F0 F1. unfold fmul_int.
  rewrite (float_of_int_small 60) by reflexivity. simpl.
  rewrite (round_f64_comp (f' * inject_Z 60) (f * 60)) by (rewrite E; reflexivity).
  destruct (times60_range f F0 F1) as (A & B & _).
  unfold times60. f_equal. apply round_f64_upto60.
  - apply Qmult_le_0_compat; [exact F0 | discriminate].
  - assert (P : 2 ^ (- prec) == 1 # 9007199254740992) by reflexivity.
    rewrite P in F1. lra.
Qed.

Lemma py_round_5 (s : Q) : 0 <= s -> s <= 60 ->
  py_round_ndigits (Fin s) 5 = Ok (Fin (round5 s)).
Proof.
  intros S0 S1. unfold py_round_ndigits.
  change (ndigits_max <? 5)%Z with false. change (5 <? ndigits_min)%Z with false.
  cbv iota.
  assert (K : round_half_even (s * 10 ^ 5) = round_half_even (s * 100000)).
  { apply rhe_comp. reflexivity. }
  rewrite K.
  rewrite (round_f64_comp (inject_Z (round_half_even (s * 100000)) * 10 ^ (Z.opp 5))
             (inject_Z (round_half_even (s * 100000)) / 100000)) by reflexivity.
  destruct (round5_range s S0 S1) as ((K0 & K1) & _).
  rewrite (round_f64_upto60 _ K0 K1). reflexivity.
Qed.

Lemma times60_comp (x y : Q) : x == y -> times60 x = times60 y.
Proof. intros H. unfold times60. apply rnd_comp. rewrite H. reflexivity. Qed.

Lemma to_deg_abs (a : Q) (loc_value : string) : repr53 a -> Qabs a < 2 ^ emax ->
  (let? deg := py_int (Fin a) in
   let? d := fsub_int (Fin a) deg in
   let? t1 := fmul_int d 60 in
   let? min := py_int t1 in
   let? r := fsub_int t1 min in
   let? s := fmul_int r 60 in
   let? sec := py_round_ndigits s 5 in
   Ok (deg, min, sec, loc_value))%err =
  Ok (truncate a, truncate (times60 (frac_part a)),
      Fin (round5 (times60 (frac_part (times60 (frac_part a))))), loc_value).
Proof.
  intros R B. pose proof (dms_trace_exists a R B) as T.
  destruct T. 
  cbn [py_int rbind].
  rewrite (fsub_int_truncate a R B). cbn [rbind].
  rewrite (fmul_int_60 (frac_part a)); [|apply Qred_correct|assumption|assumption].
  cbn [py_int rbind].
  set (m := times60 (frac_part a)) in *.
  assert (M0 : 0 <= m).
  { unfold m, times60. destruct (rnd_upto60 (frac_part a * 60)) as (A & _).
    - apply Qmult_le_0_compat; [assumption | discriminate].
    - assert (P : 2 ^ (- prec) == 1 # 9007199254740992) by reflexivity.
      rewrite P in *. lra.
    - exact A. }
  assert (RM : repr53 m) by (apply repr53_rnd; exact M0).
  assert (BM : Qabs m < 2 ^ emax).
  { rewrite Qabs_pos by exact M0.
    destruct (times60_range (frac_part a)) as (_ & M1 & _); [assumption|assumption|].
    apply Qlt_trans with (1 := M1). reflexivity. }
  rewrite (fsub_int_truncate m RM BM). cbn [rbind].
  rewrite (fmul_int_60 (frac_part m)); [|apply Qred_correct| |].
  2:{ destruct (frac_part_facts m RM BM) as (_ & _ & _ & R0 & R1). exact R0. }
  2:{ destruct (frac_part_facts m RM BM) as (_ & _ & _ & R0 & R1). exact R1. }
  cbn [rbind].
  rewrite py_round_5.
  - reflexivity.
  - subst. assumption.
  - subst. assumption.
Qed.

(** On a finite float [to_deg] returns the tuple of the contract. *)
Lemma to_deg_finite (v : Q) (neg pos : string) : is_f64 v ->
  to_deg (Fin v) [neg; pos] = Ok (dms_contract v neg pos).
Proof.
  intros H. destruct (is_f64_abs_repr v H) as [R B].
  unfold to_deg. rewrite loc_value_pair. cbn [rbind fabs].
  rewrite (to_deg_abs (Qabs v) _ R B). reflexivity.
Qed.

(** C9: for every float [v] with [|v| <= 180], [to_deg] returns a tuple
    with [deg >= 0], [0 <= min <= 59] and [0 <= sec <= 60]; and [sec] does
    reach 60: the float nearest to -0.0166666666 is converted to
    [(0, 0, 60.0, "S")], so [sec < 60] is not guaranteed. *)
Theorem to_deg_ranges :
  (forall (v : Q) (negativeRef positiveRef : string),
      is_f64 v -> Qabs v <= 180 ->
      exists (deg min : Z) (sec : Q) (ref : string),
        to_deg (Fin v) [negativeRef; positiveRef] = Ok (deg, min, Fin sec, ref) /\
        (0 <= deg)%Z /\ (0 <= min <= 59)%Z /\ 0 <= sec /\ sec <= 60) /\
  (exists v : Q,
      is_f64 v /\ Qabs v <= 180 /\
      to_deg (Fin v) ["S"; "N"]%string = Ok (0%Z, 0%Z, Fin 60, "S"%string)).
Proof.
  split.
  - intros v neg pos H _. destruct (is_f64_abs_repr v H) as [R B].
    destruct (dms_trace_exists (Qabs v) R B).
    rewrite (to_deg_finite v neg pos H). unfold dms_contract.
    do 4 eexists. split; [reflexivity|]. repeat split; try assumption; lia.
  - exists (- (4803839583313171 # 288230376151711744)).
    split; [vm_compute; reflexivity | split; [vm_compute; discriminate | vm_compute; reflexivity]].
Qed.

Lemma to_deg_ranges_witness :
  exists (deg min : Z) (sec : Q) (ref : string),
    to_deg (Fin (3550820201266319 # 140737488355328)) ["S"; "N"]%string
    = Ok (deg, min, Fin sec, ref) /\
    (0 <= deg)%Z /\ (0 <= min <= 59)%Z /\ 0 <= sec /\ sec <= 60.
Proof.
  apply (proj1 to_deg_ranges (3550820201266319 # 140737488355328) "S"%string "N"%string).
  - vm_compute. reflexivity.
  - vm_compute. discriminate.
Defined.

Lemma frac_part_eq (x : Q) : x == inject_Z (truncate x) + frac_part x.
Proof. unfold frac_part. ring. Qed.

Lemma decode_error (a m r s kq sec : Q) (deg min : Z) :
  a == inject_Z deg + (a - inject_Z deg) ->
  m == inject_Z min + r ->
  Qabs (m - (a - inject_Z deg) * 60) <= 2 ^ (-48) ->
  Qabs (s - r * 60) <= 2 ^ (-48) ->
  Qabs (kq - s) <= 1 # 200000 ->
  Qabs (sec - kq) <= 2 ^ (-48) ->
  Qabs (inject_Z deg + inject_Z min / 60 + sec / 3600 - a) <= 1 # 100000.
Proof.
  intros _ Hm E1 E2 E3 E4.
  assert (Q48 : 2 ^ (-48) == 1 # 281474976710656) by reflexivity.
  rewrite Q48 in *.
  apply Qabs_Qle_condition in E1, E2, E3, E4. apply Qabs_Qle_condition.
  generalize dependent (inject_Z deg). generalize dependent (inject_Z min).
  intros qm Hm qd E1. 
  assert (X : qd + qm / 60 + sec / 3600 - a ==
              ((sec - kq) + (kq - s) + (s - r * 60)) / 3600 + (m - (a - qd) * 60) / 60).
  { rewrite Hm. field. }
  rewrite X. split.
  - apply Qle_trans with ((- (1 # 281474976710656) + - (1 # 200000) + - (1 # 281474976710656)) / 3600
                          + - (1 # 281474976710656) / 60); [vm_compute; discriminate|].
    apply Qplus_le_compat; (apply Qmult_le_compat_r; [lra | discriminate]).
  - apply Qle_trans with (((1 # 281474976710656) + (1 # 200000) + (1 # 281474976710656)) / 3600
                          + (1 # 281474976710656) / 60); [|vm_compute; discriminate].
    apply Qplus_le_compat; (apply Qmult_le_compat_r; [lra | discriminate]).
Qed.

(** C2: for every float [v] with [|v| <= 180], decoding the tuple of
    [to_deg v] as [deg + min/60 + sec/3600], negated when the reference
    character is the negative one, gives [v] to within 1e-5.  The two
    reference characters are different ones, as the sign is read off
    them. *)
Theorem to_deg_roundtrip (v : Q) (negativeRef positiveRef : string) :
  is_f64 v -> Qabs v <= 180 -> negativeRef <> positiveRef ->
  exists (t : Z * Z * pyfloat * string) (d : Q),
    to_deg (Fin v) [negativeRef; positiveRef] = Ok t /\
    dms_to_decimal t negativeRef = Some d /\
    Qabs (d - v) <= 1 # 100000.
Proof.
  intros H _ Hne. destruct (is_f64_abs_repr v H) as [R B].
  pose proof (dms_trace_exists (Qabs v) R B) as T.
  rewrite (to_deg_finite v negativeRef positiveRef H). unfold dms_contract.
  eexists. eexists. split; [reflexivity|]. cbn [dms_to_decimal]. split; [reflexivity|].
  set (a := Qabs v) in *. set (m := times60 (frac_part a)) in *.
  set (s := times60 (frac_part m)) in *. set (sec := round5 s) in *.
  assert (D : Qabs (inject_Z (truncate a) + inject_Z (truncate m) / 60 + sec / 3600 - a)
              <= 1 # 100000).
  { apply (decode_error a m (frac_part m) s
             (inject_Z (round_half_even (s * 100000)) / 100000) sec).
    - ring.
    - apply frac_part_eq.
    - exact (tr_m_err _ _ _ _ _ T).
    - exact (tr_s_err _ _ _ _ _ T).
    - exact (tr_k_err _ _ _ _ _ T).
    - exact (tr_sec_err _ _ _ _ _ T). }
  assert (M0 : 0 <= inject_Z (truncate a) + inject_Z (truncate m) / 60 + sec / 3600).
  { pose proof (tr_deg _ _ _ _ _ T). pose proof (tr_min _ _ _ _ _ T).
    pose proof (tr_sec_lo _ _ _ _ _ T).
    assert (A1 : 0 <= inject_Z (truncate a)) by (change 0 with (inject_Z 0); rewrite <- Zle_Qle; lia).
    assert (A2 : 0 <= inject_Z (truncate m)) by (change 0 with (inject_Z 0); rewrite <- Zle_Qle; lia).
    assert (A3 : 0 <= inject_Z (truncate m) / 60) by (apply Qle_shift_div_l; [reflexivity | lra]).
    assert (A4 : 0 <= sec / 3600) by (apply Qle_shift_div_l; [reflexivity | lra]).
    lra. }
  set (M := inject_Z (truncate a) + inject_Z (truncate m) / 60 + sec / 3600) in *.
  unfold ref_char. destruct (Qcompare_spec v 0) as [E|E|E].
  - (* v = 0 *)
    assert (Ea : a == 0) by (unfold a; rewrite E; reflexivity).
    rewrite Ea in D. rewrite E.
    destruct (String.eqb "" negativeRef).
    + apply Qabs_Qle_condition in D. apply Qabs_Qle_condition. lra.
    + exact D.
  - rewrite String.eqb_refl.
    assert (Ea : a == - v) by (unfold a; apply Qabs_neg; lra).
    rewrite Ea in D. apply Qabs_Qle_condition in D. apply Qabs_Qle_condition. lra.
  - assert (Hs : String.eqb positiveRef negativeRef = false).
    { apply String.eqb_neq. congruence. }
    rewrite Hs.
    assert (Ea : a == v) by (unfold a; apply Qabs_pos; lra).
    rewrite Ea in D. exact D.
Qed.

Lemma to_deg_roundtrip_witness :
  exists (t : Z * Z * pyfloat * string) (d : Q),
    to_deg (Fin (- (3550820201266319 # 140737488355328))) ["W"; "E"]%string = Ok t /\
    dms_to_decimal t "W" = Some d /\
    Qabs (d - - (3550820201266319 # 140737488355328)) <= 1 # 100000.
Proof.
  apply (to_deg_roundtrip (- (3550820201266319 # 140737488355328)) "W"%string "E"%string).
  - vm_compute. reflexivity.
  - vm_compute. discriminate.
  - discriminate.
Defined.

(** ** The model against the binary64 of the Standard Library *)

Example samples_valid :
  forallb (SpecFloat.valid_binary 53 1024) IEEE754.samples = true.
Proof. vm_compute. reflexivity. Qed.

Example fmul_agrees : IEEE754.agree_on_samples (SpecFloat.SFmul 53 1024) fmul = true.
Proof. vm_compute. reflexivity. Qed.

Example fsub_agrees : IEEE754.agree_on_samples (SpecFloat.SFsub 53 1024) fsub = true.
Proof. vm_compute. reflexivity. Qed.

(** ** Text of numbers *)

Local Open Scope Z_scope.

Lemma string_app_nil_r (s : string) : (s ++ "")%string = s.
Proof. induction s as [|c s IH]; [reflexivity|]. change (String c (s ++ "") = String c s). congruence. Qed.

Lemma string_app_assoc (s t u : string) : ((s ++ t) ++ u)%string = (s ++ (t ++ u))%string.
Proof.
  induction s as [|c s IH]; [reflexivity|].
  change (String c ((s ++ t) ++ u) = String c (s ++ (t ++ u))). congruence.
Qed.

Lemma string_app_cons (c : ascii) (s t : string) :
  (String c s ++ t)%string = String c (s ++ t).
Proof. reflexivity. Qed.

Lemma string_length_app (s t : string) :
  String.length (s ++ t) = (String.length s + String.length t)%nat.
Proof. induction s as [|c s IH]; [reflexivity|]. rewrite string_app_cons. cbn. congruence. Qed.

Lemma digit_char_is_digit (d : Z) : 0 <= d <= 9 -> is_digit (digit_char d) = true.
Proof.
  intros H. assert (d = 0 \/ d = 1 \/ d = 2 \/ d = 3 \/ d = 4 \/ d = 5 \/ d = 6 \/ d = 7
                    \/ d = 8 \/ d = 9) as C by lia.
  repeat (destruct C as [-> | C]; [reflexivity|]). subst. reflexivity.
Qed.

Lemma digit_val_char (d : Z) : 0 <= d <= 9 -> digit_val (digit_char d) = d.
Proof.
  intros H. assert (d = 0 \/ d = 1 \/ d = 2 \/ d = 3 \/ d = 4 \/ d = 5 \/ d = 6 \/ d = 7
                    \/ d = 8 \/ d = 9) as C by lia.
  repeat (destruct C as [-> | C]; [reflexivity|]). subst. reflexivity.
Qed.

Lemma digits_only_nil : digits_only "".
Proof. constructor. Qed.

Lemma digits_only_cons (c : ascii) (s : string) :
  digits_only (String c s) <-> is_digit c = true /\ digits_only s.
Proof.
  unfold digits_only. cbn. split.
  - intros H. inversion H; subst. split; assumption.
  - intros [H1 H2]. constructor; assumption.
Qed.

Lemma digits_only_app (s t : string) :
  digits_only (s ++ t) <-> digits_only s /\ digits_only t.
Proof.
  induction s as [|c s IH].
  - cbn. split; [intros H; split; [apply digits_only_nil | exact H] | intros [_ H]; exact H].
  - rewrite string_app_cons, !digits_only_cons, IH. tauto.
Qed.

Lemma int_of_digits_from_app (s t : string) (a : Z) :
  int_of_digits_from a (s ++ t) = int_of_digits_from (int_of_digits_from a s) t.
Proof.
  revert a. induction s as [|c s IH]; intros a; [reflexivity|].
  rewrite string_app_cons. cbn. apply IH.
Qed.

Lemma int_of_digits_from_shift (s : string) (a : Z) :
  int_of_digits_from a s = a * 10 ^ Z.of_nat (String.length s) + int_of_digits s.
Proof.
  unfold int_of_digits. revert a. induction s as [|c s IH]; intros a.
  - cbn. lia.
  - cbn [int_of_digits_from String.length]. rewrite IH, (IH (10 * 0 + digit_val c)).
    rewrite Nat2Z.inj_succ, Z.pow_succ_r by lia. ring.
Qed.

Lemma int_of_digits_app (s t : string) :
  int_of_digits (s ++ t) = int_of_digits s * 10 ^ Z.of_nat (String.length t) + int_of_digits t.
Proof.
  unfold int_of_digits at 1. rewrite int_of_digits_from_app, int_of_digits_from_shift.
  reflexivity.
Qed.


(** The digits of a natural number. *)
Lemma str_nat_aux_spec (fuel : nat) :
  forall n : Z, 0 <= n < 2 ^ Z.of_nat fuel -> (0 < fuel)%nat ->
    exists ds : string,
      (forall acc, str_nat_aux fuel n acc = (ds ++ acc)%string) /\
      digits_only ds /\ ds <> ""%string /\ int_of_digits ds = n.
Proof.
  induction fuel as [|fuel IH]; intros n Hn Hf; [lia|].
  cbn [str_nat_aux].
  assert (Hd : 0 <= n mod 10 <= 9) by (pose proof (Z.mod_pos_bound n 10); lia).
  destruct (n <? 10) eqn:E.
  - apply Z.ltb_lt in E. exists (String (digit_char (n mod 10)) "").
    split; [reflexivity|]. split; [|split; [discriminate|]].
    + apply digits_only_cons. split; [apply digit_char_is_digit, Hd | apply digits_only_nil].
    + unfold int_of_digits. cbn. rewrite digit_val_char by exact Hd.
      rewrite Z.mod_small by lia. lia.
  - apply Z.ltb_ge in E.
    assert (Hq : 0 <= n / 10 < 2 ^ Z.of_nat fuel).
    { rewrite Nat2Z.inj_succ, Z.pow_succ_r in Hn by lia.
      split; [apply Z.div_pos; lia|]. apply Z.div_lt_upper_bound; lia. }
    assert (Hf' : (0 < fuel)%nat).
    { destruct fuel; [|lia]. cbn in Hq. assert (n / 10 = 0) by lia.
      apply Z.div_small_iff in H; lia. }
    destruct (IH (n / 10) Hq Hf') as (ds & Hs & Hdo & Hne & Hv).
    exists (ds ++ String (digit_char (n mod 10)) "")%string.
    split; [|split; [|split]].
    + intros acc. rewrite Hs, string_app_assoc. reflexivity.
    + apply digits_only_app. split; [exact Hdo|].
      apply digits_only_cons. split; [apply digit_char_is_digit, Hd | apply digits_only_nil].
    + destruct ds; [contradiction | discriminate].
    + rewrite int_of_digits_app, Hv. unfold int_of_digits. cbn.
      rewrite digit_val_char by exact Hd. pose proof (Z.div_mod n 10). lia.
Qed.

Lemma str_nat_spec (n : Z) : 0 <= n ->
  digits_only (str_nat n) /\ str_nat n <> ""%string /\ int_of_digits (str_nat n) = n.
Proof.
  intros Hn. unfold str_nat.
  destruct (str_nat_aux_spec (S (Z.to_nat (Z.log2 n))) n) as (ds & Hs & R).
  - split; [exact Hn|]. rewrite Nat2Z.inj_succ, Z2Nat.id by apply Z.log2_nonneg.
    destruct (Z.eq_dec n 0) as [->|Hz]; [cbn; lia|].
    apply Z.log2_spec. lia.
  - lia.
  - rewrite Hs, string_app_nil_r. exact R.
Qed.

(** ** Reading a decimal text *)

Lemma span_digits_app (a b : string) :
  digits_only a -> no_digit_head b -> span_digits (a ++ b) = (a, b).
Proof.
  induction a as [|c a IH]; intros Ha Hb.
  - change (span_digits b = (""%string, b)).
    destruct b as [|c b]; [reflexivity|]. cbn in Hb. cbn [span_digits]. rewrite Hb. reflexivity.
  - apply digits_only_cons in Ha. destruct Ha as [Hc Ha].
    rewrite string_app_cons. cbn [span_digits]. rewrite Hc, (IH Ha Hb). reflexivity.
Qed.

Lemma span_digits_all (a : string) : digits_only a -> span_digits a = (a, ""%string).
Proof.
  intros H. rewrite <- (string_app_nil_r a) at 1. apply span_digits_app; [exact H | exact I].
Qed.

Lemma digit_not_space (c : ascii) : is_digit c = true -> is_space c = false.
Proof.
  unfold is_digit, is_space. intros H.
  apply andb_true_iff in H. destruct H as [H1 H2].
  apply Z.leb_le in H1. apply Z.leb_le in H2.
  assert (48 <= nat_of_ascii c <= 57)%nat as B by lia.
  destruct (9 <=? nat_of_ascii c)%nat eqn:E1, (nat_of_ascii c <=? 13)%nat eqn:E2,
           (nat_of_ascii c =? 32)%nat eqn:E3; try reflexivity; exfalso;
    try apply Nat.leb_le in E2; try apply Nat.eqb_eq in E3; lia.
Qed.

Lemma digit_cases (c : ascii) : is_digit c = true ->
  c <> "-"%char /\ c <> "+"%char /\ c <> "."%char /\ c <> "/"%char /\ c <> "e"%char
  /\ c <> "E"%char.
Proof.
  intros H. repeat split; intros ->; discriminate.
Qed.

Lemma take_sign_digit (c : ascii) (s : string) :
  is_digit c = true -> take_sign (String c s) = (false, String c s).
Proof.
  intros H. destruct (digit_cases c H) as (H1 & H2 & _).
  unfold take_sign.
  destruct c as [[|] [|] [|] [|] [|] [|] [|] [|]]; try reflexivity; congruence.
Qed.

Lemma take_exponent_text (x : option (bool * string)) :
  (forall eneg eds, x = Some (eneg, eds) -> digits_only eds /\ eds <> ""%string) ->
  take_exponent (exp_text x) =
  (match x with Some (eneg, eds) => Some (signed eneg (int_of_digits eds)) | None => None end,
   ""%string).
Proof.
  intros H. destruct x as [[eneg eds]|]; [|reflexivity].
  destruct (H eneg eds eq_refl) as [Hd Hne].
  unfold exp_text, take_exponent. cbn [Ascii.eqb Bool.eqb orb].
  change (Ascii.eqb "e" "e") with true. cbn [orb].
  assert (Hs : take_sign ((if eneg then "-" else "+") ++ eds) = (eneg, eds)).
  { destruct eneg; reflexivity. }
  rewrite Hs, (span_digits_all eds Hd).
  destruct eds; [contradiction|]. reflexivity.
Qed.

Lemma exp_text_head (x : option (bool * string)) : no_digit_head (exp_text x).
Proof. destruct x as [[eneg eds]|]; [reflexivity | exact I]. Qed.

Lemma exp_text_not_point (x : option (bool * string)) :
  take_point (exp_text x) = (""%string, exp_text x).
Proof. destruct x as [[eneg eds]|]; reflexivity. Qed.

Lemma decimal_tail_text (neg : bool) (numerator : Z) (p : option string)
      (x : option (bool * string)) :
  (forall fp, p = Some fp -> digits_only fp) ->
  (forall eneg eds, x = Some (eneg, eds) -> digits_only eds /\ eds <> ""%string) ->
  decimal_tail neg numerator (point_text p ++ exp_text x) =
  Ok (Qred (match x with
            | Some (eneg, eds) =>
                inject_Z (signed neg (numerator * 10 ^ Z.of_nat (String.length (default "" p))
                                      + int_of_digits (default "" p)))
                / inject_Z (10 ^ Z.of_nat (String.length (default "" p)))
                * 10 ^ signed eneg (int_of_digits eds)
            | None =>
                inject_Z (signed neg (numerator * 10 ^ Z.of_nat (String.length (default "" p))
                                      + int_of_digits (default "" p)))
                / inject_Z (10 ^ Z.of_nat (String.length (default "" p)))
            end)%Q).
Proof.
  intros Hp Hx. unfold decimal_tail.
  assert (T : take_point (point_text p ++ exp_text x) = (default ""%string p, exp_text x)).
  { destruct p as [fp|].
    - cbn [point_text default]. rewrite string_app_cons. unfold take_point.
      apply span_digits_app; [apply Hp; reflexivity | apply exp_text_head].
    - cbn [point_text default]. apply exp_text_not_point. }
  rewrite T, (take_exponent_text x Hx). cbn [at_end skip_spaces negb].
  destruct x as [[eneg eds]|]; reflexivity.
Qed.

Lemma tail_head (p : option string) (x : option (bool * string)) :
  no_digit_head (point_text p ++ exp_text x).
Proof.
  destruct p as [fp|]; [reflexivity|]. cbn [point_text]. apply exp_text_head.
Qed.

Lemma Fraction_text (neg : bool) (ip : string) (p : option string)
      (x : option (bool * string)) :
  digits_only ip -> ip <> ""%string ->
  (forall fp, p = Some fp -> digits_only fp) ->
  (forall eneg eds, x = Some (eneg, eds) -> digits_only eds /\ eds <> ""%string) ->
  Fraction (sign_text neg ++ ip ++ point_text p ++ exp_text x) =
  Ok (Qred (decimal_value neg ip p x)).
Proof.
  intros Hi Hne Hp Hx.
  destruct ip as [|c ip]; [contradiction|].
  pose proof Hi as Hi'. apply digits_only_cons in Hi'. destruct Hi' as [Hc Hip].
  unfold Fraction.
  assert (S1 : take_sign (skip_spaces (sign_text neg ++ String c ip ++ point_text p ++ exp_text x))
               = (neg, (String c ip ++ point_text p ++ exp_text x)%string)).
  { destruct neg; cbn [sign_text].
    - reflexivity.
    - change ("" ++ ?s)%string with s. rewrite string_app_cons. cbn [skip_spaces].
      rewrite (digit_not_space c Hc). apply take_sign_digit, Hc. }
  rewrite S1.
  assert (S2 : starts_number (String c ip ++ point_text p ++ exp_text x) = true).
  { rewrite string_app_cons. cbn [starts_number]. rewrite Hc. reflexivity. }
  rewrite S2. cbn [negb].
  rewrite (span_digits_app _ _ Hi (tail_head p x)).
  assert (S3 : forall (A : Type) (f : string -> A) (g : A),
             match (point_text p ++ exp_text x)%string with
             | String "/" s3 => f s3
             | _ => g
             end = g).
  { intros A f g. destruct p as [fp|]; [reflexivity|].
    destruct x as [[eneg eds]|]; reflexivity. }
  rewrite S3. rewrite (decimal_tail_text neg _ p x Hp Hx).
  f_equal. apply Qred_complete. unfold decimal_value.
  destruct x as [[eneg eds]|]; [reflexivity|].
  change (10 ^ 0)%Q with 1%Q. ring.
Qed.

Lemma pow10_pos (e : Z) : (0 < 10 ^ e)%Q.
Proof. apply Qpower_0_lt. reflexivity. Qed.

Lemma pow10_add (a b : Z) : (10 ^ (a + b) == 10 ^ a * 10 ^ b)%Q.
Proof. apply Qpower_plus. discriminate. Qed.

Lemma pow10_Z (a : Z) : 0 <= a -> (10 ^ a == inject_Z (10 ^ a))%Q.
Proof. intros H. rewrite Zpower_Qpower by assumption. reflexivity. Qed.

Lemma pow10_opp (a : Z) : (10 ^ (- a) == / 10 ^ a)%Q.
Proof. apply Qpower_opp. Qed.

Lemma pow10_nonzero (a : Z) : ~ (10 ^ a == 0)%Q.
Proof. pose proof (pow10_pos a) as H. intros C. rewrite C in H. discriminate. Qed.

Lemma inject_signed (neg : bool) (n : Z) :
  inject_Z (signed neg n) = ((if neg then - 1 else 1) * inject_Z n)%Q.
Proof.
  destruct neg; cbn [signed]; unfold inject_Z, Qmult; cbn; f_equal; destruct n; reflexivity.
Qed.



(** ** Runs of zeros and pieces of a text *)

Lemma zeros_succ (k : nat) : zeros (Z.of_nat (S k)) = String "0" (zeros (Z.of_nat k)).
Proof. unfold zeros. rewrite !Nat2Z.id. reflexivity. Qed.

Lemma zeros_spec (k : nat) :
  digits_only (zeros (Z.of_nat k)) /\ String.length (zeros (Z.of_nat k)) = k /\
  forall s, int_of_digits (zeros (Z.of_nat k) ++ s) = int_of_digits s.
Proof.
  induction k as [|k (IH1 & IH2 & IH3)].
  - split; [apply digits_only_nil|]. split; reflexivity.
  - rewrite zeros_succ. split; [|split].
    + apply digits_only_cons. split; [reflexivity | exact IH1].
    + cbn. congruence.
    + intros s. rewrite string_app_cons. unfold int_of_digits. cbn [int_of_digits_from].
      change (10 * 0 + digit_val "0") with 0. apply IH3.
Qed.

Lemma substring_split (s : string) (k : nat) : (k <= String.length s)%nat ->
  s = (substring 0 k s ++ substring k (String.length s - k) s)%string /\
  String.length (substring 0 k s) = k /\
  String.length (substring k (String.length s - k) s) = (String.length s - k)%nat.
Proof.
  revert k. induction s as [|c s IH]; intros k Hk.
  - cbn in Hk. assert (k = 0)%nat as -> by lia. repeat split.
  - destruct k as [|k].
    + cbn [substring String.length Nat.sub]. 
      assert (F : forall t : string, substring 0 (String.length t) t = t).
      { induction t as [|a t IHt]; cbn; congruence. }
      change (substring 0 (S (String.length s)) (String c s))
        with (String c (substring 0 (String.length s) s)).
      rewrite F. repeat split.
    + cbn in Hk. destruct (IH k ltac:(lia)) as (E & L1 & L2).
      cbn [substring String.length Nat.sub]. rewrite string_app_cons.
      split; [congruence|]. split; [cbn; congruence | exact L2].
Qed.

Lemma digits_only_split (s a b : string) :
  s = (a ++ b)%string -> digits_only s -> digits_only a /\ digits_only b.
Proof. intros ->. apply digits_only_app. Qed.

Lemma value_shift (X : Q) (m e E : Z) : 0 <= m -> - m + e = E ->
  (X / inject_Z (10 ^ m) * 10 ^ e == X * 10 ^ E)%Q.
Proof.
  intros Hm HE. rewrite <- pow10_Z by exact Hm. unfold Qdiv.
  rewrite <- pow10_opp, <- Qmult_assoc, <- pow10_add, HE. reflexivity.
Qed.

Lemma signed_scale (neg : bool) (D a : Z) : 0 <= a ->
  (inject_Z (signed neg (D * 10 ^ a)) == inject_Z (signed neg D) * 10 ^ a)%Q.
Proof.
  intros Ha. rewrite !inject_signed, inject_Z_mult, pow10_Z by exact Ha. ring.
Qed.

Lemma length_pos_nonempty (s : string) : s <> ""%string -> (0 < String.length s)%nat.
Proof. destruct s; [contradiction | cbn; lia]. Qed.

(** The exponent as [repr] writes it: a sign and at least two digits. *)
Lemma exponent_digits (ex : Z) :
  let exs := if Z.abs ex <? 10 then String "0" (str_nat (Z.abs ex)) else str_nat (Z.abs ex) in
  digits_only exs /\ exs <> ""%string /\ signed (ex <? 0) (int_of_digits exs) = ex.
Proof.
  destruct (str_nat_spec (Z.abs ex) (Z.abs_nonneg ex)) as (Hd & Hne & Hv).
  cbn zeta. assert (S : signed (ex <? 0) (Z.abs ex) = ex).
  { unfold signed. destruct (ex <? 0) eqn:L; [apply Z.ltb_lt in L | apply Z.ltb_ge in L]; lia. }
  destruct (Z.abs ex <? 10).
  - split; [|split; [discriminate|]].
    + apply digits_only_cons. split; [reflexivity | exact Hd].
    + change (String "0" (str_nat (Z.abs ex))) with (zeros (Z.of_nat 1) ++ str_nat (Z.abs ex))%string.
      destruct (zeros_spec 1) as (_ & _ & Z3). rewrite Z3, Hv. exact S.
  - split; [exact Hd | split; [exact Hne | rewrite Hv; exact S]].
Qed.

Lemma decimal_value_eq (neg : bool) (ip : string) (p : option string)
      (x : option (bool * string)) (D a e E : Z) :
  int_of_digits ip * 10 ^ Z.of_nat (String.length (default ""%string p))
    + int_of_digits (default ""%string p) = D * 10 ^ a ->
  0 <= a ->
  match x with Some (eneg, eds) => signed eneg (int_of_digits eds) | None => 0 end = e ->
  a - Z.of_nat (String.length (default ""%string p)) + e = E ->
  (decimal_value neg ip p x == inject_Z (signed neg D) * 10 ^ E)%Q.
Proof.
  intros HN Ha He HE. unfold decimal_value. rewrite HN, He.
  rewrite (value_shift _ _ e (E - a)) by lia.
  rewrite signed_scale by exact Ha. rewrite <- Qmult_assoc, <- pow10_add.
  replace (a + (E - a)) with E by lia. reflexivity.
Qed.

(** The text that [repr] lays out for digits [D] and exponent [E] writes
    [D * 10 ^ E]. *)
Lemma layout_text (D E : Z) : 0 < D ->
  exists (ip : string) (p : option string) (x : option (bool * string)),
    digits_only ip /\ ip <> ""%string /\
    (forall fp, p = Some fp -> digits_only fp) /\
    (forall eneg eds, x = Some (eneg, eds) -> digits_only eds /\ eds <> ""%string) /\
    layout (str_nat D) (Z.of_nat (String.length (str_nat D)) + E) =
      (ip ++ point_text p ++ exp_text x)%string /\
    forall neg, (decimal_value neg ip p x == inject_Z (signed neg D) * 10 ^ E)%Q.
Proof.
  intros HD. destruct (str_nat_spec D ltac:(lia)) as (Hd & Hne & Hv).
  set (ds := str_nat D) in *. pose proof (length_pos_nonempty ds Hne) as Hlen.
  set (n := Z.of_nat (String.length ds)). set (decpt := n + E).
  assert (Hn : n = Z.of_nat (String.length ds)) by reflexivity.
  assert (Hdp : decpt = n + E) by reflexivity.
  clearbody n decpt.
  unfold layout. rewrite <- Hn.
  destruct ((decpt <=? -4) || (16 <? decpt)) eqn:Eexp.
  - (* exponent notation *)
    clear Eexp. pose proof (exponent_digits (decpt - 1)) as X. cbn zeta in X.
    set (exs := if Z.abs (decpt - 1) <? 10 then String "0" (str_nat (Z.abs (decpt - 1)))
                else str_nat (Z.abs (decpt - 1))) in *.
    destruct X as (Xd & Xne & Xv). clearbody exs.
    destruct ds as [|c rest]; [contradiction|].
    destruct rest as [|c' rest'].
    + exists (String c ""), None, (Some (decpt - 1 <? 0, exs)).
      split; [exact Hd|]. split; [discriminate|]. split; [discriminate|].
      split; [intros ? ? [= <- <-]; split; assumption|]. split; [reflexivity|].
      intros neg. apply (decimal_value_eq _ _ _ _ D 0 (decpt - 1)).
      * cbn [default from_option id String.length]. change (int_of_digits "") with 0. rewrite Hv.
        change (Z.of_nat 0) with 0. lia.
      * lia.
      * exact Xv.
      * cbn [default from_option id String.length]. cbn in Hn. lia.
    + set (rest := String c' rest') in *.
      exists (String c ""), (Some rest), (Some (decpt - 1 <? 0, exs)).
      change (String c rest) with (String c "" ++ rest)%string in Hd, Hv.
      apply digits_only_app in Hd. destruct Hd as [Hd1 Hd2].
      split; [exact Hd1|]. split; [discriminate|].
      split; [intros ? [= <-]; exact Hd2|].
      split; [intros ? ? [= <- <-]; split; assumption|]. split; [reflexivity|].
      intros neg. apply (decimal_value_eq _ _ _ _ D 0 (decpt - 1)).
      * cbn [default from_option id]. rewrite <- int_of_digits_app. rewrite Hv. lia.
      * lia.
      * exact Xv.
      * cbn [default from_option id]. cbn [String.length] in Hn. lia.
  - apply orb_false_iff in Eexp. destruct Eexp as [E1 E2].
    apply Z.leb_gt in E1. apply Z.ltb_ge in E2.
    destruct (decpt <=? 0) eqn:E3.
    + (* 0.000ddd *)
      apply Z.leb_le in E3.
      destruct (zeros_spec (Z.to_nat (- decpt))) as (Z1 & Z2 & Z3).
      rewrite Z2Nat.id in Z1, Z2, Z3 by lia.
      exists "0"%string, (Some (zeros (- decpt) ++ ds)%string), None.
      split; [apply digits_only_cons; split; [reflexivity | apply digits_only_nil]|].
      split; [discriminate|].
      split; [intros ? [= <-]; apply digits_only_app; split; assumption|].
      split; [discriminate|]. split.
      * cbn [point_text exp_text]. rewrite string_app_nil_r. reflexivity.
      * intros neg. apply (decimal_value_eq _ _ _ _ D 0 0).
        -- cbn [default from_option id]. rewrite Z3, Hv. change (int_of_digits "0") with 0. lia.
        -- lia.
        -- reflexivity.
        -- cbn [default from_option id]. rewrite string_length_app, Z2, Nat2Z.inj_add, Z2Nat.id by lia. lia.
    + apply Z.leb_gt in E3. destruct (n <=? decpt) eqn:E4.
      * (* ddd000.0 *)
        apply Z.leb_le in E4.
        destruct (zeros_spec (Z.to_nat (decpt - n))) as (Z1 & Z2 & Z3).
        rewrite Z2Nat.id in Z1, Z2, Z3 by lia.
        exists (ds ++ zeros (decpt - n))%string, (Some "0"%string), None.
        split; [apply digits_only_app; split; assumption|].
        split; [destruct ds; [contradiction | discriminate]|].
        split; [intros ? [= <-]; apply digits_only_cons; split;
                [reflexivity | apply digits_only_nil]|].
        split; [discriminate|]. split.
        -- cbn [point_text exp_text]. rewrite string_app_assoc. reflexivity.
        -- intros neg. apply (decimal_value_eq _ _ _ _ D (decpt - n + 1) 0).
           ++ cbn [default from_option id String.length]. change (int_of_digits "0") with 0.
              rewrite int_of_digits_app, Hv, Z2.
              specialize (Z3 ""%string). rewrite string_app_nil_r in Z3. rewrite Z3.
              change (int_of_digits "") with 0.
              rewrite Z2Nat.id by lia. change (Z.of_nat 1) with 1.
              rewrite Z.pow_add_r by lia. lia.
           ++ lia.
           ++ reflexivity.
           ++ cbn [default from_option id String.length]. lia.
      * (* dd.ddd *)
        apply Z.leb_gt in E4.
        destruct (substring_split ds (Z.to_nat decpt)) as (Es & L1 & L2); [lia|].
        replace (Z.to_nat (n - decpt)) with (String.length ds - Z.to_nat decpt)%nat by lia.
        set (ip := substring 0 (Z.to_nat decpt) ds) in *.
        set (fp := substring (Z.to_nat decpt) (String.length ds - Z.to_nat decpt) ds) in *.
        clearbody ip fp.
        destruct (digits_only_split ds ip fp Es Hd) as [Hi Hf].
        exists ip, (Some fp), None.
        split; [exact Hi|]. split; [intros ->; cbn in L1; lia|].
        split; [intros ? [= <-]; exact Hf|]. split; [discriminate|]. split.
        -- cbn [point_text exp_text]. rewrite string_app_nil_r. reflexivity.
        -- intros neg. apply (decimal_value_eq _ _ _ _ D 0 0).
           ++ cbn [default from_option id]. rewrite <- int_of_digits_app, <- Es, Hv. lia.
           ++ lia.
           ++ reflexivity.
           ++ cbn [default from_option id]. rewrite L2. lia.
Qed.

Lemma Fraction_decimal_text (s : string) (v : Q) :
  decimal_text s v -> Fraction s = Ok (Qred v).
Proof.
  intros (neg & ip & p & x & -> & Hi & Hne & Hp & Hx & V).
  rewrite Fraction_text by assumption. f_equal. apply Qred_complete, V.
Qed.

Lemma str_int_text (n : Z) : decimal_text (str_int n) (inject_Z n).
Proof.
  destruct (str_nat_spec (Z.abs n) (Z.abs_nonneg n)) as (Hd & Hne & Hv).
  exists (n <? 0), (str_nat (Z.abs n)), None, None.
  split; [|split; [exact Hd | split; [exact Hne | split; [discriminate | split; [discriminate|]]]]].
  - unfold str_int. cbn [point_text exp_text].
    change ("" ++ "")%string with ""%string. rewrite string_app_nil_r.
    destruct (n <? 0) eqn:L; cbn [sign_text].
    + apply Z.ltb_lt in L. rewrite Z.abs_neq by lia. reflexivity.
    + apply Z.ltb_ge in L. rewrite Z.abs_eq by lia. reflexivity.
  - rewrite (decimal_value_eq _ _ _ _ (Z.abs n) 0 0 0).
    + change (10 ^ 0)%Q with 1%Q. rewrite Qmult_1_r.
      replace (signed (n <? 0) (Z.abs n)) with n; [reflexivity|].
      unfold signed. destruct (n <? 0) eqn:L; [apply Z.ltb_lt in L | apply Z.ltb_ge in L]; lia.
    + cbn [default from_option id String.length]. change (int_of_digits "") with 0.
      rewrite Hv. change (Z.of_nat 0) with 0. lia.
    + lia.
    + reflexivity.
    + reflexivity.
Qed.

(** [Fraction(str(n))] is [n]. *)
Lemma Fraction_str_int (n : Z) : Fraction (str_int n) = Ok (inject_Z n).
Proof.
  rewrite (Fraction_decimal_text _ _ (str_int_text n)), inject_Z_Qred. reflexivity.
Qed.

Lemma change_to_rational_int (n : Z) : change_to_rational (PInt n) = Ok (n, 1).
Proof.
  unfold change_to_rational. cbn [str]. rewrite Fraction_str_int. reflexivity.
Qed.

(** ** The digits of [repr] *)

Lemma pow10_le (a b : Z) : a <= b -> (10 ^ a <= 10 ^ b)%Q.
Proof. intros H. apply Qpower_le_compat_l; [assumption | discriminate]. Qed.

Lemma pow10_lt (a b : Z) : a < b -> (10 ^ a < 10 ^ b)%Q.
Proof. intros H. apply Qpower_lt_compat_l; [assumption | reflexivity]. Qed.

Lemma in_decade_spec (a : Q) (e : Z) :
  in_decade a e = true <-> (10 ^ e <= a /\ a < 10 ^ (e + 1))%Q.
Proof.
  unfold in_decade. rewrite andb_true_iff, negb_true_iff, Qle_bool_iff. split.
  - intros [H1 H2]. split; [exact H1|]. apply Qnot_le_lt. intros C.
    apply Qle_bool_iff in C. congruence.
  - intros [H1 H2]. split; [exact H1|].
    destruct (Qle_bool (10 ^ (e + 1)) a) eqn:C; [|reflexivity].
    apply Qle_bool_iff in C. exfalso. apply (Qlt_not_le _ _ H2 C).
Qed.

Lemma ilog10_from_spec (fuel : nat) :
  forall (e : Z) (a : Q),
    (10 ^ e <= a)%Q -> (a < 10 ^ (e + Z.of_nat fuel))%Q ->
    in_decade a (ilog10_from fuel e a) = true.
Proof.
  induction fuel as [|fuel IH]; intros e a H1 H2.
  - exfalso. replace (e + Z.of_nat 0) with e in H2 by lia. apply (Qlt_not_le _ _ H2 H1).
  - cbn [ilog10_from]. destruct (Qle_bool (10 ^ (e + 1)) a) eqn:C.
    + apply Qle_bool_iff in C. apply IH; [exact C|].
      replace (e + 1 + Z.of_nat fuel) with (e + Z.of_nat (S fuel)) by lia. exact H2.
    + unfold in_decade. rewrite C. apply Qle_bool_iff in H1. rewrite H1. reflexivity.
Qed.

(** The decimal exponent of a number in the range of the floats. *)
Lemma ilog10_spec (a : Q) : (10 ^ (-324) <= a)%Q -> (a < 10 ^ 316)%Q ->
  (10 ^ ilog10 a <= a /\ a < 10 ^ (ilog10 a + 1))%Q.
Proof.
  intros H1 H2. apply in_decade_spec. unfold ilog10.
  destruct (in_decade a (ilog2 a * 1233 / 4096)) eqn:E1; [exact E1|].
  destruct (in_decade a (ilog2 a * 1233 / 4096 + 1)) eqn:E2; [exact E2|].
  destruct (in_decade a (ilog2 a * 1233 / 4096 - 1)) eqn:E3; [exact E3|].
  apply ilog10_from_spec; assumption.
Qed.

Lemma strip_zeros_spec (fuel : nat) :
  forall d e : Z, 0 < d ->
    let (d', e') := strip_zeros fuel d e in
    0 < d' /\ (inject_Z d' * 10 ^ e' == inject_Z d * 10 ^ e)%Q.
Proof.
  induction fuel as [|fuel IH]; intros d e Hd; cbn [strip_zeros].
  - split; [exact Hd | reflexivity].
  - destruct ((d mod 10 =? 0) && negb (d =? 0)) eqn:C.
    + apply andb_true_iff in C. destruct C as [C _]. apply Z.eqb_eq in C.
      pose proof (Z.div_mod d 10 ltac:(lia)) as DM.
      assert (Hq : 0 < d / 10) by lia.
      specialize (IH (d / 10) (e + 1) Hq).
      destruct (strip_zeros fuel (d / 10) (e + 1)) as [d' e'].
      destruct IH as [P V]. split; [exact P|]. rewrite V.
      rewrite pow10_add. change (10 ^ 1)%Q with (inject_Z 10).
      rewrite DM at 2. rewrite C, Z.add_0_r, inject_Z_mult. ring.
    + split; [exact Hd | reflexivity].
Qed.

Lemma scaled_ge_1 (a : Q) (e10 n : Z) : 1 <= n -> (10 ^ e10 <= a)%Q ->
  (1 <= a * 10 ^ (- (e10 - n + 1)))%Q.
Proof.
  intros Hn Ha. pose proof (pow10_pos (- (e10 - n + 1))) as P.
  apply Qle_trans with (10 ^ e10 * 10 ^ (- (e10 - n + 1)))%Q.
  - rewrite <- pow10_add. change 1%Q with (10 ^ 0)%Q. apply pow10_le. lia.
  - apply Qmult_le_compat_r; [exact Ha | apply Qlt_le_weak, P].
Qed.

Lemma Qfloor_ge_1 (y : Q) : (1 <= y)%Q -> 1 <= Qfloor y.
Proof. intros H. apply Qfloor_resp_le in H. exact H. Qed.

Lemma shortest_from_pos (fuel : nat) :
  forall (n e10 : Z) (a : Q), 1 <= n -> (10 ^ e10 <= a)%Q ->
    0 < fst (shortest_from fuel n e10 a).
Proof.
  induction fuel as [|fuel IH]; intros n e10 a Hn Ha;
    pose proof (scaled_ge_1 a e10 n Hn Ha) as Hy;
    pose proof (Qfloor_ge_1 _ Hy) as Hlo;
    assert (Hr : 1 <= round_half_even (a * 10 ^ (- (e10 - n + 1)))) by
      (apply rhe_ge_Z; exact Hy);
    cbn [shortest_from].
  - cbn. lia.
  - destruct (reads_as a _), (reads_as a _); cbn [fst]; try lia.
    apply IH; [lia | exact Ha].
Qed.

Lemma repr_digits_pos (a : Q) : (10 ^ (-324) <= a)%Q -> (a < 10 ^ 316)%Q ->
  0 < fst (repr_digits a).
Proof.
  intros H1 H2. destruct (ilog10_spec a H1 H2) as [L _].
  unfold repr_digits.
  pose proof (shortest_from_pos 16 1 (ilog10 a) a ltac:(lia) L) as P.
  destruct (shortest_from 16 1 (ilog10 a) a) as [d e]. cbn [fst] in P.
  pose proof (strip_zeros_spec 17 d e P) as S.
  destruct (strip_zeros 17 d e) as [d' e']. cbn [fst]. apply S.
Qed.

Lemma f64_magnitude (q : Q) : is_f64 q -> ~ (q == 0)%Q ->
  (10 ^ (-324) <= Qabs q /\ Qabs q < 10 ^ 316)%Q.
Proof.
  intros H Hq. destruct (is_f64_rnd q H) as [Hr B]. split.
  - pose proof (rnd_eq q) as E. rewrite Hr in E.
    set (k := round_half_even (q * 2 ^ (- ulp_exp q))%Q) in *.
    assert (Hk : k <> 0).
    { intros C. rewrite C in E. apply Hq. rewrite E. ring. }
    rewrite E, Qabs_scale.
    apply Qle_trans with (2 ^ emin)%Q; [vm_compute; discriminate|].
    apply Qle_trans with (2 ^ ulp_exp q)%Q; [apply pow2_le, ulp_exp_ge|].
    rewrite <- (Qmult_1_l (2 ^ ulp_exp q)) at 1.
    apply Qmult_le_compat_r; [|apply Qlt_le_weak, pow2_pos].
    change 1%Q with (inject_Z 1). rewrite <- Zle_Qle. lia.
  - apply Qlt_trans with (1 := B). reflexivity.
Qed.

Lemma str_float_text (q : Q) : is_f64 q -> decimal_text (str_float (Fin q)) (repr_value q).
Proof.
  intros H. unfold str_float, repr_value.
  destruct (Qcompare_spec q 0) as [E|E|E].
  - exists false, "0"%string, (Some "0"%string), None.
    split; [reflexivity|]. split; [apply digits_only_cons; split; [reflexivity|apply digits_only_nil]|].
    split; [discriminate|].
    split; [intros ? [= <-]; apply digits_only_cons; split; [reflexivity|apply digits_only_nil]|].
    split; [discriminate | reflexivity].
  - assert (Hq : ~ (q == 0)%Q) by (intros C; rewrite C in E; discriminate).
    destruct (f64_magnitude q H Hq) as [M1 M2].
    pose proof (repr_digits_pos (Qabs q) M1 M2) as P.
    destruct (repr_digits (Qabs q)) as [D Ex]. cbn [fst] in P.
    destruct (layout_text D Ex P) as (ip & p & x & Hi & Hne & Hp & Hx & L & V).
    exists true, ip, p, x. rewrite L.
    split; [reflexivity|]. repeat (split; [assumption|]).
    rewrite V, inject_signed. ring.
  - assert (Hq : ~ (q == 0)%Q) by (intros C; rewrite C in E; discriminate).
    destruct (f64_magnitude q H Hq) as [M1 M2].
    pose proof (repr_digits_pos (Qabs q) M1 M2) as P.
    destruct (repr_digits (Qabs q)) as [D Ex]. cbn [fst] in P.
    destruct (layout_text D Ex P) as (ip & p & x & Hi & Hne & Hp & Hx & L & V).
    exists false, ip, p, x. rewrite L.
    split; [reflexivity|]. repeat (split; [assumption|]).
    rewrite V, inject_signed. ring.
Qed.

(** [Fraction(str(x))] is the number that the text of [x] writes. *)
Lemma Fraction_str_float (q : Q) : is_f64 q ->
  Fraction (str_float (Fin q)) = Ok (Qred (repr_value q)).
Proof. intros H. apply Fraction_decimal_text, str_float_text, H. Qed.

Local Open Scope Q_scope.

(** ** Decimals with five fractional digits read back as themselves *)

(** Rounding error of a number below 2^36. *)
Lemma rnd_error_36 (x : Q) : Qabs x < 2 ^ 36 -> Qabs (rnd x - x) <= 2 ^ (-18).
Proof.
  intros H.
  assert (U : (ulp_exp x <= -17)%Z) by (apply (ulp_exp_le x 36); [exact H| |]; unfold emin, prec; lia).
  apply Qle_trans with (1 := rnd_error x).
  apply Qle_trans with (2 ^ (-17) * (1 # 2)); [|apply Qle_refl].
  apply Qmult_le_compat_r; [apply pow2_le; exact U | discriminate].
Qed.

Lemma reads_as_rnd (a c : Q) : reads_as a c = true -> rnd c == a.
Proof.
  unfold reads_as, round_f64.
  destruct (Qle_bool (2 ^ emax) (Qabs (rnd c))); [discriminate|].
  apply Qeq_bool_iff.
Qed.

Lemma rnd_reads_as (a c : Q) : Qabs (rnd c) < 2 ^ emax -> rnd c == a -> reads_as a c = true.
Proof.
  intros B H. unfold reads_as. rewrite (round_f64_fin c B). apply Qeq_bool_iff, H.
Qed.

Lemma int_within_one (x k : Z) :
  inject_Z x - inject_Z k < 1 -> - (1) < inject_Z x - inject_Z k -> x = k.
Proof.
  intros L1 L2.
  assert (A1 : inject_Z x < inject_Z (k + 1)).
  { rewrite inject_Z_plus. change (inject_Z 1) with 1.
    generalize dependent (inject_Z x). generalize (inject_Z k). intros. lra. }
  assert (A2 : inject_Z (k - 1) < inject_Z x).
  { unfold Z.sub. rewrite inject_Z_plus, inject_Z_opp. change (inject_Z 1) with 1.
    clear A1. generalize dependent (inject_Z x). generalize (inject_Z k). intros. lra. }
  rewrite <- Zlt_Qlt in A1, A2. lia.
Qed.

(** Two multiples of 10^-5 less than 10^-5 apart are equal. *)
Lemma grid5_unique (C e K : Z) : (-5 <= e)%Z ->
  Qabs (inject_Z C * 10 ^ e - inject_Z K / 100000) < 1 / 100000 ->
  inject_Z C * 10 ^ e == inject_Z K / 100000.
Proof.
  intros He H.
  assert (E : inject_Z C * 10 ^ e == inject_Z (C * 10 ^ (e + 5)) / 100000).
  { rewrite inject_Z_mult, <- pow10_Z by lia. rewrite pow10_add.
    change (10 ^ 5) with 100000. field. }
  rewrite E in *.
  assert (D : inject_Z (C * 10 ^ (e + 5)) / 100000 - inject_Z K / 100000
              == (inject_Z (C * 10 ^ (e + 5)) - inject_Z K) / 100000) by field.
  rewrite D in H. clear D.
  apply Qabs_Qlt_condition in H. destruct H as [H1 H2].
  set (X := (C * 10 ^ (e + 5))%Z) in *. clearbody X.
  assert (L1 : inject_Z X - inject_Z K < 1).
  { apply Qmult_lt_r with (z := / 100000); [reflexivity|].
    apply Qlt_le_trans with (1 := H2). apply Qle_refl. }
  assert (L2 : - (1) < inject_Z X - inject_Z K).
  { apply Qmult_lt_r with (z := / 100000); [reflexivity|].
    apply Qle_lt_trans with (2 := H1). apply Qle_refl. }
  rewrite (int_within_one X K L1 L2). reflexivity.
Qed.

Section FiveDigits.

Variable K : Z.
Hypothesis K_pos : (1 <= K)%Z.
Hypothesis K_hi : inject_Z K / 100000 < 2 ^ 36.

Let d : Q := inject_Z K / 100000.
Let a : Q := rnd d.

Lemma five_d_pos : 1 # 100000 <= d.
Proof.
  apply Qle_trans with (inject_Z 1 / 100000); [apply Qle_refl|].
  unfold d. apply Qmult_le_compat_r; [|discriminate].
  rewrite <- Zle_Qle. exact K_pos.
Qed.

Lemma five_a_err : Qabs (a - d) <= 2 ^ (-18).
Proof.
  apply rnd_error_36. pose proof five_d_pos as P.
  rewrite Qabs_pos by (apply Qle_trans with (2 := P); discriminate).
  exact K_hi.
Qed.

(** The last decimal of five fractional digits below 2^36. *)
Lemma five_d_hi : d <= 6871947673599999 # 100000.
Proof.
  assert (H : inject_Z K < inject_Z 6871947673600000).
  { apply Qmult_lt_r with (z := / 100000); [reflexivity|].
    apply Qlt_le_trans with (1 := K_hi). vm_compute. discriminate. }
  rewrite <- Zlt_Qlt in H.
  apply Qle_trans with (inject_Z 6871947673599999 / 100000); [|apply Qle_refl].
  unfold d. apply Qmult_le_compat_r; [|discriminate].
  rewrite <- Zle_Qle. lia.
Qed.

Lemma five_a_hi : a < 2 ^ 36.
Proof.
  pose proof five_a_err as Er. pose proof five_d_hi as Dh.
  apply Qabs_Qle_condition in Er. destruct Er as [_ Er].
  assert (P18 : 2 ^ (-18) == 1 # 262144) by reflexivity. rewrite P18 in Er.
  assert (P36 : 2 ^ 36 == 68719476736) by reflexivity. rewrite P36.
  revert Dh Er. generalize a d. intros a' d' Dh Er. lra.
Qed.

Lemma five_a_lo : 1 # 100000 <= a.
Proof.
  destruct (Z.eq_dec K 1%Z) as [E|E].
  - unfold a, d. rewrite E. vm_compute. discriminate.
  - assert (H2 : 2 # 100000 <= d).
    { apply Qle_trans with (inject_Z 2 / 100000); [apply Qle_refl|].
      unfold d. apply Qmult_le_compat_r; [|discriminate].
      rewrite <- Zle_Qle. lia. }
    pose proof five_a_err as Er. apply Qabs_Qle_condition in Er.
    destruct Er as [Er _].
    assert (P18 : 2 ^ (-18) == 1 # 262144) by reflexivity. rewrite P18 in Er.
    revert H2 Er. generalize a d. intros a' d' H2 Er. lra.
Qed.

Lemma five_a_f64 : Qabs a < 2 ^ emax.
Proof.
  pose proof five_a_lo as L. pose proof five_a_hi as H.
  rewrite Qabs_pos by (apply Qle_trans with (2 := L); discriminate).
  apply Qlt_trans with (1 := H). reflexivity.
Qed.

Let e10 : Z := ilog10 a.

Lemma five_e10 : 10 ^ e10 <= a /\ a < 10 ^ (e10 + 1) /\ (-5 <= e10 <= 10)%Z.
Proof.
  pose proof five_a_lo as L. pose proof five_a_hi as H.
  destruct (ilog10_spec a) as [S1 S2].
  - apply Qle_trans with (2 := L). vm_compute. discriminate.
  - apply Qlt_trans with (1 := H). reflexivity.
  - fold e10 in S1, S2. split; [exact S1|]. split; [exact S2|]. split.
    + assert (T : 10 ^ (-5) < 10 ^ (e10 + 1)).
      { apply Qle_lt_trans with (2 := S2). exact L. }
      apply (Qpower_lt_compat_l_inv 10) in T; [lia | reflexivity].
    + assert (T : 10 ^ e10 < 10 ^ 11).
      { apply Qle_lt_trans with (1 := S1). apply Qlt_trans with (1 := H). reflexivity. }
      apply (Qpower_lt_compat_l_inv 10) in T; [lia | reflexivity].
Qed.

(** A decimal on a grid of 10^-5 or coarser, next to [a], that reads
    back as [a] is [d]. *)
Lemma five_candidate (C e : Z) :
  (-5 <= e <= e10)%Z -> 0 <= inject_Z C * 10 ^ e -> inject_Z C * 10 ^ e <= a + 10 ^ e ->
  reads_as a (inject_Z C * 10 ^ e) = true -> inject_Z C * 10 ^ e == d.
Proof.
  intros He C0 C1 R. apply reads_as_rnd in R.
  destruct five_e10 as (S1 & _ & _). pose proof five_a_hi as H.
  pose proof (pow10_le e e10 ltac:(lia)) as Pe.
  set (c := inject_Z C * 10 ^ e) in *.
  assert (B : Qabs c < 2 ^ 36).
  { rewrite Qabs_pos by exact C0.
    destruct (Qlt_le_dec c (2 ^ 36)) as [Lt|Ge]; [exact Lt|]. exfalso.
    assert (B38 : Qabs c < 2 ^ 38).
    { rewrite Qabs_pos by exact C0.
      apply Qle_lt_trans with (1 := C1).
      apply Qlt_trans with (2 ^ 36 + 2 ^ 36); [|reflexivity].
      apply Qplus_lt_le_compat; [exact H|].
      apply Qle_trans with (1 := Pe). apply Qle_trans with (1 := S1).
      apply Qlt_le_weak, H. }
    assert (U : (ulp_exp c <= 0)%Z)
      by (apply (ulp_exp_le c 38); [exact B38 | unfold emin; lia | unfold prec; lia]).
    pose proof (rnd_ge_grid c 68719476736 0 U) as G.
    assert (P36 : inject_Z 68719476736 * 2 ^ 0 == 2 ^ 36) by reflexivity.
    rewrite P36 in G. specialize (G Ge). rewrite R in G.
    apply (Qlt_irrefl a). apply Qlt_le_trans with (1 := H). exact G. }
  pose proof (rnd_error_36 c B) as Ec. rewrite R in Ec.
  pose proof five_a_err as Ea.
  apply grid5_unique; [lia|]. fold c. fold d.
  assert (P18 : 2 ^ (-18) == 1 # 262144) by reflexivity. rewrite P18 in Ec, Ea.
  apply Qabs_Qle_condition in Ec, Ea. apply Qabs_Qlt_condition.
  assert (P5 : 1 / 100000 == 1 # 100000) by reflexivity. rewrite P5.
  revert Ec Ea. generalize a d c. intros a' d' c' Ec Ea. lra.
Qed.

Lemma five_level (e : Z) :
  let lo := Qfloor (a * 10 ^ (- e)) in
  0 <= inject_Z lo * 10 ^ e /\ inject_Z lo * 10 ^ e <= a + 10 ^ e /\
  0 <= inject_Z (lo + 1) * 10 ^ e /\ inject_Z (lo + 1) * 10 ^ e <= a + 10 ^ e /\
  ~ inject_Z lo * 10 ^ e == inject_Z (lo + 1) * 10 ^ e.
Proof.
  intros lo. pose proof (pow10_pos e) as Pe. pose proof (pow10_pos (- e)) as Pne.
  pose proof five_a_lo as L.
  assert (A0 : 0 <= a) by (apply Qle_trans with (2 := L); discriminate).
  assert (Y0 : 0 <= a * 10 ^ (- e)) by (apply Qmult_le_0_compat; [exact A0 | apply Qlt_le_weak, Pne]).
  assert (L0 : 0 <= inject_Z lo).
  { change 0 with (inject_Z 0). rewrite <- Zle_Qle. apply Qfloor_nonneg, Y0. }
  assert (L1 : inject_Z lo * 10 ^ e <= a).
  { pose proof (Qfloor_le (a * 10 ^ (- e))) as F. fold lo in F.
    apply (Qmult_le_compat_r _ _ (10 ^ e)) in F; [|apply Qlt_le_weak, Pe].
    rewrite <- Qmult_assoc, <- pow10_add in F.
    replace (- e + e)%Z with 0%Z in F by lia. change (10 ^ 0) with 1 in F.
    rewrite Qmult_1_r in F. exact F. }
  assert (M0 : 0 <= inject_Z lo * 10 ^ e).
  { apply Qmult_le_0_compat; [exact L0 | apply Qlt_le_weak, Pe]. }
  assert (D : inject_Z (lo + 1) * 10 ^ e == inject_Z lo * 10 ^ e + 10 ^ e).
  { rewrite inject_Z_plus. change (inject_Z 1) with 1. ring. }
  rewrite D. revert L1 M0 Pe. generalize (inject_Z lo * 10 ^ e) as c.
  generalize (10 ^ e) as p. generalize a as a'. intros a' p c L1 M0 Pe.
  repeat split; try lra.
Qed.

Lemma five_K_reads : reads_as a (inject_Z K * 10 ^ (-5)) = true.
Proof.
  apply rnd_reads_as.
  - rewrite (rnd_comp _ d) by reflexivity. exact five_a_f64.
  - rewrite (rnd_comp _ d) by reflexivity. reflexivity.
Qed.

Lemma five_at_5 :
  let lo := Qfloor (a * 10 ^ (- (-5))) in
  reads_as a (inject_Z lo * 10 ^ (-5)) = true \/
  reads_as a (inject_Z (lo + 1) * 10 ^ (-5)) = true.
Proof.
  intros lo. pose proof five_a_err as Ea.
  assert (P18 : 2 ^ (-18) == 1 # 262144) by reflexivity. rewrite P18 in Ea.
  apply Qabs_Qle_condition in Ea.
  assert (Y : a * 10 ^ (- (-5)) == a * 100000) by reflexivity.
  assert (Dk : d * 100000 == inject_Z K) by (unfold d; field).
  assert (B1 : inject_Z (K - 1) <= a * 10 ^ (- (-5))).
  { rewrite Y. unfold Z.sub. rewrite inject_Z_plus, inject_Z_opp, <- Dk.
    change (inject_Z 1) with 1. revert Ea. generalize a d. intros a' d' Ea. lra. }
  assert (B2 : a * 10 ^ (- (-5)) < inject_Z (K + 1)).
  { rewrite Y. rewrite inject_Z_plus, <- Dk.
    change (inject_Z 1) with 1. revert Ea. generalize a d. intros a' d' Ea. lra. }
  apply Qfloor_resp_le in B1. rewrite Qfloor_Z in B1. fold lo in B1.
  pose proof (Qfloor_le (a * 10 ^ (- (-5)))) as F. fold lo in F.
  assert (B3 : inject_Z lo < inject_Z (K + 1)) by (apply Qle_lt_trans with (1 := F); exact B2).
  rewrite <- Zlt_Qlt in B3.
  assert (lo = K \/ (lo + 1)%Z = K) as [-> | ->] by lia; [left | right]; exact five_K_reads.
Qed.

Lemma five_search (fuel : nat) :
  forall n : Z, (1 <= n)%Z -> (-5 <= e10 - n + 1)%Z -> (e10 - n + 1 + 6 <= Z.of_nat fuel)%Z ->
    inject_Z (fst (shortest_from fuel n e10 a)) * 10 ^ snd (shortest_from fuel n e10 a) == d.
Proof.
  induction fuel as [|fuel IH]; intros n Hn He Hf; [lia|].
  destruct five_e10 as (_ & _ & E10).
  cbn [shortest_from].
  destruct (five_level (e10 - n + 1)) as (A1 & A2 & A3 & A4 & A5).
  set (e := (e10 - n + 1)%Z) in *. set (lo := Qfloor (a * 10 ^ (- e))) in *.
  destruct (reads_as a (inject_Z lo * 10 ^ e)) eqn:R1;
    destruct (reads_as a (inject_Z (lo + 1) * 10 ^ e)) eqn:R2.
  - exfalso. apply A5.
    rewrite (five_candidate lo e) by (try assumption; lia).
    rewrite (five_candidate (lo + 1) e) by (try assumption; lia). reflexivity.
  - cbn [fst snd]. apply five_candidate; try assumption; lia.
  - cbn [fst snd]. apply five_candidate; try assumption; lia.
  - destruct (Z.eq_dec e (-5)%Z) as [E5|E5].
    + exfalso. pose proof five_at_5 as T. cbn zeta in T. rewrite E5 in R1, R2.
      unfold lo in R1, R2. rewrite E5 in R1, R2. destruct T as [T|T]; congruence.
    + apply IH; [lia | unfold e in *; lia | unfold e in *; lia].
Qed.

Lemma five_repr_digits :
  inject_Z (fst (repr_digits a)) * 10 ^ snd (repr_digits a) == d.
Proof.
  destruct five_e10 as (S1 & _ & E10).
  pose proof (five_search 16 1 ltac:(lia) ltac:(lia) ltac:(lia)) as V.
  pose proof (shortest_from_pos 16 1 e10 a ltac:(lia) S1) as P.
  unfold repr_digits. fold e10.
  destruct (shortest_from 16 1 e10 a) as [D E]. cbn [fst snd] in V, P.
  pose proof (strip_zeros_spec 17 D E P) as S.
  destruct (strip_zeros 17 D E) as [D' E']. cbn [fst snd].
  destruct S as [_ S]. rewrite S. exact V.
Qed.

Lemma five_repr_value : repr_value a == d.
Proof.
  pose proof five_a_lo as L. unfold repr_value.
  assert (A0 : 0 < a) by (apply Qlt_le_trans with (2 := L); reflexivity).
  assert (Ab : Qabs a = a).
  { revert A0. generalize a. intros [n dn] A0. unfold Qabs. f_equal.
    unfold Qlt in A0. cbn in A0. lia. }
  rewrite Ab. destruct (Qcompare_spec a 0) as [C|C|C].
  - rewrite C in A0. discriminate.
  - exfalso. apply (Qlt_irrefl 0). apply Qlt_trans with (1 := A0). exact C.
  - pose proof five_repr_digits as V. destruct (repr_digits a) as [D E]. exact V.
Qed.

End FiveDigits.

Lemma change_to_rational_float (q : Q) : is_f64 q ->
  change_to_rational (PFloat (Fin q)) =
  Ok (Qnum (Qred (repr_value q)), Zpos (Qden (Qred (repr_value q)))).
Proof.
  intros H. unfold change_to_rational. cbn [str]. rewrite (Fraction_str_float q H). reflexivity.
Qed.


Lemma str_text (number : pynum) : finite_number number ->
  exists v : Q, decimal_text (str number) v.
Proof.
  destruct number as [n|[q| |]]; cbn [finite_number str]; intros H; try contradiction.
  - exists (inject_Z n). apply str_int_text.
  - exists (repr_value q). apply str_float_text, H.
Qed.

(** The pair of a fraction in lowest terms. *)
Lemma lowest_terms (r : Q) :
  (0 < Zpos (Qden (Qred r)))%Z /\
  Z.gcd (Qnum (Qred r)) (Zpos (Qden (Qred r))) = 1%Z /\
  (inject_Z (Qnum (Qred r)) / inject_Z (Zpos (Qden (Qred r))) == r)%Q.
Proof.
  split; [reflexivity|]. split; [apply Qcanon.Qred_identity2, Qcanon.Qred_involutive|].
  rewrite <- Qmake_Qdiv. destruct (Qred r) as [n dn] eqn:E. cbn [Qnum Qden].
  rewrite <- E. apply Qred_correct.
Qed.

Lemma change_to_rational_text (number : pynum) (v : Q) :
  decimal_text (str number) v ->
  change_to_rational number = Ok (Qnum (Qred v), Zpos (Qden (Qred v))).
Proof.
  intros T. unfold change_to_rational. rewrite (Fraction_decimal_text _ _ T). reflexivity.
Qed.

(** The float nearest to a decimal of five fractional digits is written
    as that decimal. *)
Lemma five_digits_text (K : Z) : Qabs (inject_Z K / 100000) < 2 ^ 36 ->
  exists q : Q,
    round_f64 (inject_Z K / 100000) = Fin q /\ is_f64 q /\
    decimal_text (str_float (Fin q)) (inject_Z K / 100000).
Proof.
  intros Kh.
  assert (T : forall k : Z, (1 <= k)%Z -> inject_Z k / 100000 < 2 ^ 36 ->
              is_f64 (rnd (inject_Z k / 100000)) /\
              Qabs (rnd (inject_Z k / 100000)) < 2 ^ emax /\
              0 < rnd (inject_Z k / 100000) /\
              repr_value (rnd (inject_Z k / 100000)) == inject_Z k / 100000 /\
              repr_value (- rnd (inject_Z k / 100000)) == - (inject_Z k / 100000)).
  { intros k k1 kh.
    pose proof (five_a_f64 k k1 kh) as B. cbv zeta in B.
    pose proof (five_repr_value k k1 kh) as V. cbv zeta in V.
    pose proof (five_a_lo k k1 kh) as L. cbv zeta in L.
    pose proof (five_repr_digits k k1 kh) as G. cbv zeta in G.
    assert (A0 : 0 < rnd (inject_Z k / 100000)) by (apply Qlt_le_trans with (2 := L); reflexivity).
    split; [apply is_f64_intro, B|]. split; [exact B|]. split; [exact A0|]. split; [exact V|].
    unfold repr_value. rewrite (Qabs_opp_pos _ A0).
    destruct (Qcompare_spec (- rnd (inject_Z k / 100000)) 0) as [C|C|C].
    - exfalso. rewrite <- (Qopp_involutive (rnd _)), C in A0. discriminate.
    - destruct (repr_digits (rnd (inject_Z k / 100000))) as [D E]. cbn [fst snd] in G.
      rewrite G. reflexivity.
    - exfalso. apply (Qlt_irrefl 0). apply Qlt_trans with (1 := C).
      apply Qopp_lt_compat in A0. exact A0. }
  destruct (Z.lt_trichotomy K 0) as [N|[->|P]].
  - assert (E : inject_Z K / 100000 == - (inject_Z (- K) / 100000)).
    { rewrite inject_Z_opp. field. }
    assert (Kh' : inject_Z (- K) / 100000 < 2 ^ 36).
    { rewrite E, Qabs_opp in Kh. rewrite Qabs_pos in Kh; [exact Kh|].
      apply Qle_shift_div_l; [reflexivity|]. rewrite Qmult_0_l.
      change 0 with (inject_Z 0). rewrite <- Zle_Qle. lia. }
    destruct (T (- K)%Z ltac:(lia) Kh') as (F & B & A0 & _ & V).
    exists (- rnd (inject_Z (- K) / 100000)).
    rewrite (round_f64_comp _ _ E).
    assert (R : rnd (- (inject_Z (- K) / 100000)) = - rnd (inject_Z (- K) / 100000))
      by apply rnd_opp.
    assert (F' : is_f64 (- rnd (inject_Z (- K) / 100000))).
    { rewrite <- R. apply is_f64_intro. rewrite R, Qabs_opp. exact B. }
    split; [|split; [exact F'|]].
    + rewrite round_f64_fin by (rewrite R, Qabs_opp; exact B). rewrite R. reflexivity.
    + destruct (str_float_text _ F') as (neg & ip & p & x & S & R1 & R2 & R3 & R4 & R5).
      exists neg, ip, p, x. repeat (split; [assumption|]). rewrite R5, V, E. reflexivity.
  - exists 0. split; [reflexivity|]. split; [reflexivity|].
    destruct (str_float_text 0 eq_refl) as (neg & ip & p & x & S & R1 & R2 & R3 & R4 & R5).
    exists neg, ip, p, x. repeat (split; [assumption|]). rewrite R5. reflexivity.
  - assert (Kh' : inject_Z K / 100000 < 2 ^ 36).
    { rewrite Qabs_pos in Kh; [exact Kh|].
      apply Qle_shift_div_l; [reflexivity|]. rewrite Qmult_0_l.
      change 0 with (inject_Z 0). rewrite <- Zle_Qle. lia. }
    destruct (T K ltac:(lia) Kh') as (F & B & A0 & V & _).
    exists (rnd (inject_Z K / 100000)).
    split; [apply round_f64_fin, B|]. split; [exact F|].
    destruct (str_float_text _ F) as (neg & ip & p & x & S & R1 & R2 & R3 & R4 & R5).
    exists neg, ip, p, x. repeat (split; [assumption|]). rewrite R5, V. reflexivity.
Qed.

(** ** The GPS block *)

Lemma is_f64_round5 (s : Q) : 0 <= s -> s <= 60 -> is_f64 (round5 s).
Proof.
  intros S0 S1. unfold round5. apply is_f64_intro.
  destruct (round5_range s S0 S1) as ((K0 & K1) & _).
  destruct (rnd_upto60 _ K0 K1) as (A & B & _).
  rewrite Qabs_pos by exact A. apply Qle_lt_trans with (1 := B). reflexivity.
Qed.

Lemma exiv_finite (v : Q) (neg pos : string) : is_f64 v ->
  exists (deg min : Z) (sec : Q) (ref : string) (r : rational),
    to_deg (Fin v) [neg; pos] = Ok (deg, min, Fin sec, ref) /\
    exiv deg min (Fin sec) = Ok ((deg, 1%Z), (min, 1%Z), r).
Proof.
  intros H. rewrite (to_deg_finite v neg pos H). unfold dms_contract.
  destruct (is_f64_abs_repr v H) as [R B].
  pose proof (dms_trace_exists (Qabs v) R B) as T.
  do 5 eexists. split; [reflexivity|].
  unfold exiv. rewrite !change_to_rational_int. cbn [rbind].
  rewrite change_to_rational_float.
  - cbn [rbind]. reflexivity.
  - apply is_f64_round5; [exact (tr_s_lo _ _ _ _ _ T) | exact (tr_s_hi _ _ _ _ _ T)].
Qed.

(** C4, as amended: for all finite floats [set_gps_location] builds a
    block whose altitude reference is 1 whatever the sign of the
    altitude, and whose altitude is the rational [(round(altitude), 1)],
    [round] being to the nearest integer with ties to even and the sign
    kept; this block is what it hands to [piexif.dump] and has inserted
    into the file. *)
Theorem gps_altitude_block (lat lng altitude : Q) :
  is_f64 lat -> is_f64 lng -> is_f64 altitude ->
  exists block : gps_ifd,
    gps_ifd_of (Fin lat) (Fin lng) (Fin altitude) = Ok block /\
    GPSVersionID block = (2, 0, 0, 0)%Z /\
    GPSAltitudeRef block = 1%Z /\
    GPSAltitude block = (round_half_even altitude, 1%Z) /\
    forall (piexif_dump : gps_ifd -> result string)
           (piexif_insert : string -> string -> result string)
           (file_name : string) (w : world),
      set_gps_location piexif_dump piexif_insert file_name
        (Fin lat) (Fin lng) (Fin altitude) w =
      (let* exif_bytes := lift (piexif_dump block) in
       insert_exif piexif_insert exif_bytes file_name)%cmd w.
Proof.
  intros Hlat Hlng Halt.
  destruct (exiv_finite lat "S" "N" Hlat) as (d1 & m1 & s1 & r1 & x1 & T1 & X1).
  destruct (exiv_finite lng "W" "E" Hlng) as (d2 & m2 & s2 & r2 & x2 & T2 & X2).
  assert (B : exists block : gps_ifd,
             gps_ifd_of (Fin lat) (Fin lng) (Fin altitude) = Ok block /\
             GPSVersionID block = (2, 0, 0, 0)%Z /\
             GPSAltitudeRef block = 1%Z /\
             GPSAltitude block = (round_half_even altitude, 1%Z)).
  { unfold gps_ifd_of. rewrite T1, T2. cbn [rbind]. rewrite X1, X2. cbn [rbind py_round].
    rewrite change_to_rational_int. cbn [rbind].
    eexists. split; [reflexivity|]. repeat split. }
  destruct B as (block & Hb & B1 & B2 & B3). exists block.
  repeat (split; [assumption|]).
  intros piexif_dump piexif_insert file_name w.
  unfold set_gps_location, bind, lift. rewrite Hb. reflexivity.
Qed.

Local Open Scope Z_scope.

(** ** The batch *)

Local Open Scope cmd_scope.

Section BatchProps.

Variable path_join : string -> string -> string.
Variable csv_reader : string -> list (list string).
Variable py_float : string -> result pyfloat.
Variable piexif_dump : gps_ifd -> result string.
Variable piexif_insert : string -> string -> result string.
Variable dir_writable : string -> bool.
Variable file_writable : string -> bool.
Variables sourceImageFolder gpscsv errorLogCSV : string.
Variables img_Name_Column Lat_Y_Column Long_X_Column Alt_Z_Column : Z.

Local Abbreviation process_row_ :=
  (process_row path_join py_float piexif_dump piexif_insert sourceImageFolder
     img_Name_Column Lat_Y_Column Long_X_Column Alt_Z_Column).
Local Abbreviation process_rows_ :=
  (process_rows path_join py_float piexif_dump piexif_insert sourceImageFolder
     img_Name_Column Lat_Y_Column Long_X_Column Alt_Z_Column).
Local Abbreviation main_ :=
  (main path_join csv_reader py_float piexif_dump piexif_insert dir_writable file_writable
     sourceImageFolder gpscsv errorLogCSV img_Name_Column Lat_Y_Column Long_X_Column
     Alt_Z_Column).
Local Abbreviation missing_ := (missing_names path_join sourceImageFolder img_Name_Column).
Local Abbreviation line_ := (row_line path_join sourceImageFolder img_Name_Column).
Local Abbreviation paths_ := (image_paths path_join sourceImageFolder img_Name_Column).
Local Abbreviation set_gps_ := (set_gps_location piexif_dump piexif_insert).
Local Abbreviation write_list_ := (write_list_to_file dir_writable file_writable).
Local Abbreviation report_ := (report dir_writable file_writable).

Ltac done_raise :=
  split; [intros ?; reflexivity | split; [intros ? ?; reflexivity | intros ? ?; discriminate]].

(** *** Files *)

Lemma insert_exif_files (exif_bytes file_name : string) (w w' : world) (r : result unit) :
  insert_exif piexif_insert exif_bytes file_name w = (r, w') ->
  stdout w' = stdout w /\
  (forall p, p <> file_name -> files w' !! p = files w !! p) /\
  (forall p, is_Some (files w' !! p) <-> is_Some (files w !! p)).
Proof.
  unfold insert_exif. intros H.
  destruct (files w !! file_name) as [data|] eqn:E.
  - destruct (piexif_insert exif_bytes data) as [data'|e]; inversion H; subst; clear H.
    + cbn. split; [reflexivity|]. split.
      * intros p Hp. rewrite lookup_insert_ne by congruence. reflexivity.
      * intros p. destruct (decide (p = file_name)) as [->|Hp].
        -- rewrite lookup_insert_eq, E. split; eauto.
        -- rewrite lookup_insert_ne by congruence. reflexivity.
    + repeat split; auto.
  - inversion H; subst. repeat split; auto.
Qed.

Lemma set_gps_location_files (file_name : string) (lat lng alt : pyfloat)
      (w w' : world) (r : result unit) :
  set_gps_ file_name lat lng alt w = (r, w') ->
  stdout w' = stdout w /\
  (forall p, p <> file_name -> files w' !! p = files w !! p) /\
  (forall p, is_Some (files w' !! p) <-> is_Some (files w !! p)).
Proof.
  unfold set_gps_location, bind, lift. intros H.
  destruct (gps_ifd_of lat lng alt) as [b|e].
  - destruct (piexif_dump b) as [x|e].
    + apply insert_exif_files in H. exact H.
    + inversion H; subst. repeat split; auto.
  - inversion H; subst. repeat split; auto.
Qed.

(** *** One row *)

(** A row whose image is missing: its name is recorded, a line is
    printed, nothing raises, whatever its other columns hold. *)
Lemma process_row_missing (row : list string) (failed : list string) (w : world) (name : string) :
  py_index row img_Name_Column = Ok name ->
  files w !! path_join sourceImageFolder name = None ->
  process_row_ row failed w =
  (Ok (failed ++ [name]), World (files w) (stdout w ++ [skipped_line name])).
Proof.
  intros Hn Hf. unfold process_row, bind, lift, path_exists, print, ret.
  rewrite Hn. cbn. rewrite Hf.
  rewrite bool_decide_eq_false_2 by (intros [x Hx]; discriminate). reflexivity.
Qed.

Lemma process_row_inv (row : list string) (failed : list string) (w w' : world)
      (r : result (list string)) :
  process_row_ row failed w = (r, w') ->
  (forall p, is_Some (files w' !! p) <-> is_Some (files w !! p)) /\
  (forall p, (p ∉ paths_ [row]) -> files w' !! p = files w !! p) /\
  (forall failed', r = Ok failed' ->
     failed' = failed ++ missing_ (files w) [row] /\
     stdout w' = stdout w ++ [line_ (files w) row]).
Proof.
  unfold process_row, image_paths, missing_names, row_line. cbn [omap list_omap].
  unfold bind at 1. unfold lift at 1.
  destruct (py_index row img_Name_Column) as [name|e] eqn:Hn.
  2:{ intros H; inversion H; subst. done_raise. }
  unfold bind at 1. unfold path_exists at 1. cbn [files].
  destruct (files w !! path_join sourceImageFolder name) as [data|] eqn:Hf.
  - rewrite bool_decide_eq_true_2 by eauto. cbn [negb].
    unfold bind at 1. unfold print at 1.
    set (w0 := World (files w) (stdout w ++ [path_join sourceImageFolder name])).
    unfold bind at 1. unfold lift at 1.
    destruct (float_at py_float row Lat_Y_Column) as [lat|e].
    2:{ intros H; inversion H; subst. cbn. done_raise. }
    unfold bind at 1. unfold lift at 1.
    destruct (float_at py_float row Long_X_Column) as [lng|e].
    2:{ intros H; inversion H; subst. cbn. done_raise. }
    unfold bind at 1. unfold lift at 1.
    destruct (float_at py_float row Alt_Z_Column) as [alt|e].
    2:{ intros H; inversion H; subst. cbn. done_raise. }
    unfold bind at 1.
    destruct (set_gps_ (path_join sourceImageFolder name) lat lng alt w0) as [r0 w1] eqn:Hs.
    apply set_gps_location_files in Hs. destruct Hs as (Hout & Hframe & Hdom).
    cbn in Hout, Hframe, Hdom.
    destruct r0 as [[]|e]; intros H; inversion H; subst; clear H.
    + split; [exact Hdom|]. split.
      * intros p Hp. apply Hframe. intros ->. apply Hp. cbn. left.
      * intros failed' [= <-]. cbn. rewrite app_nil_r. split; [reflexivity | exact Hout].
    + split; [exact Hdom|]. split.
      * intros p Hp. apply Hframe. intros ->. apply Hp. cbn. left.
      * intros ? [=].
  - rewrite bool_decide_eq_false_2 by (intros [x Hx]; discriminate). cbn [negb].
    unfold bind, print, ret. cbn. intros H; inversion H; subst; clear H. cbn.
    split; [intros; reflexivity|]. split; [intros; reflexivity|].
    intros failed' [= <-]. split; reflexivity.
Qed.

(** *** The loop *)

Lemma missing_names_dom (fs fs' : gmap string string) (rows : list (list string)) :
  (forall p, is_Some (fs' !! p) <-> is_Some (fs !! p)) ->
  missing_ fs' rows = missing_ fs rows.
Proof.
  intros H. unfold missing_names. induction rows as [|row rows IH]; [reflexivity|].
  cbn. rewrite IH. destruct (py_index row img_Name_Column) as [name|e]; [|reflexivity].
  specialize (H (path_join sourceImageFolder name)).
  destruct (fs' !! path_join sourceImageFolder name), (fs !! path_join sourceImageFolder name);
    try reflexivity; exfalso; destruct H as [H1 H2].
  - destruct H1 as [x Hx]; [eauto | discriminate].
  - destruct H2 as [x Hx]; [eauto | discriminate].
Qed.

Lemma row_line_dom (fs fs' : gmap string string) (row : list string) :
  (forall p, is_Some (fs' !! p) <-> is_Some (fs !! p)) ->
  line_ fs' row = line_ fs row.
Proof.
  intros H. unfold row_line. destruct (py_index row img_Name_Column) as [name|e]; [|reflexivity].
  specialize (H (path_join sourceImageFolder name)).
  destruct (fs' !! path_join sourceImageFolder name), (fs !! path_join sourceImageFolder name);
    try reflexivity; exfalso; destruct H as [H1 H2].
  - destruct H1 as [x Hx]; [eauto | discriminate].
  - destruct H2 as [x Hx]; [eauto | discriminate].
Qed.

Lemma image_paths_cons (row : list string) (rows : list (list string)) (p : string) :
  (p ∉ paths_ (row :: rows)) -> (p ∉ paths_ [row]) /\ (p ∉ paths_ rows).
Proof.
  unfold image_paths. cbn. destruct (py_index row img_Name_Column) as [name|e].
  - intros H. split; intros C; apply H.
    + apply list_elem_of_singleton in C. subst. left.
    + right. exact C.
  - intros H. split; [apply not_elem_of_nil | exact H].
Qed.

Lemma process_rows_inv (rows : list (list string)) :
  forall (failed : list string) (w w' : world) (r : result (list string)),
    process_rows_ rows failed w = (r, w') ->
    (forall p, is_Some (files w' !! p) <-> is_Some (files w !! p)) /\
    (forall p, (p ∉ paths_ rows) -> files w' !! p = files w !! p) /\
    (forall failed', r = Ok failed' ->
       failed' = failed ++ missing_ (files w) rows /\
       stdout w' = stdout w ++ map (line_ (files w)) rows).
Proof.
  induction rows as [|row rows IH]; intros failed w w' r H.
  - cbn in H. inversion H; subst. split; [intros; reflexivity|]. split; [intros; reflexivity|].
    intros failed' [= <-]. cbn. rewrite !app_nil_r. split; reflexivity.
  - cbn [process_rows] in H. unfold bind at 1 in H.
    destruct (process_row_ row failed w) as [r0 w0] eqn:H0.
    apply process_row_inv in H0. destruct H0 as (D0 & F0 & R0).
    destruct r0 as [failed0|e].
    + apply IH in H. destruct H as (D1 & F1 & R1).
      destruct (R0 failed0 eq_refl) as [E0 S0].
      split; [intros p; rewrite D1; apply D0|]. split.
      * intros p Hp. apply image_paths_cons in Hp. destruct Hp as [Hp1 Hp2].
        rewrite F1 by exact Hp2. apply F0. exact Hp1.
      * intros failed' Hr. destruct (R1 failed' Hr) as [E1 S1].
        rewrite (missing_names_dom (files w) (files w0) rows D0) in E1.
        rewrite (map_ext_in _ (line_ (files w))) in S1
          by (intros; apply row_line_dom, D0).
        split.
        -- rewrite E1, E0. change (row :: rows) with ([row] ++ rows).
           unfold missing_names. rewrite omap_app, app_assoc. reflexivity.
        -- rewrite S1, S0. cbn [map]. rewrite <- app_assoc. reflexivity.
    + inversion H; subst. split; [exact D0|]. split.
      * intros p Hp. apply image_paths_cons in Hp. apply F0, Hp.
      * intros ? [=].
Qed.

(** The rows are processed one after the other. *)
Lemma process_rows_app (rows1 rows2 : list (list string)) (failed : list string) (w : world) :
  process_rows_ (rows1 ++ rows2) failed w =
  (let* failed' := process_rows_ rows1 failed in process_rows_ rows2 failed') w.
Proof.
  revert failed w. induction rows1 as [|row rows1 IH]; intros failed w; [reflexivity|].
  cbn [process_rows app]. unfold bind.
  destruct (process_row_ row failed w) as [[failed0|e] w0]; [|reflexivity].
  rewrite IH. reflexivity.
Qed.

(** *** The report *)

Lemma write_entries_spec (csvFile : string) (inList : list string) :
  forall (w : world) (s : string),
    files w !! csvFile = Some s ->
    write_entries csvFile inList w =
    (Ok tt, World (<[csvFile := (s ++ report_lines inList)%string]> (files w)) (stdout w)).
Proof.
  induction inList as [|entries rest IH]; intros w s Hs.
  - cbn. unfold ret. destruct w as [fs out]. cbn in *.
    f_equal. f_equal. symmetry. apply insert_id.
    rewrite Hs. f_equal. symmetry. apply string_app_nil_r.
  - cbn [write_entries]. unfold bind at 1. unfold file_write at 1. rewrite Hs. cbn [default].
    unfold bind at 1. unfold file_write at 1. cbn [files stdout].
    rewrite lookup_insert_eq. cbn [default].
    rewrite (IH _ ((s ++ entries) ++ newline)%string) by (cbn; apply lookup_insert_eq).
    cbn [files stdout]. rewrite !insert_insert_eq.
    f_equal. f_equal. f_equal. cbn [report_lines fold_right].
    rewrite !string_app_assoc. reflexivity.
Qed.

(** The report is written where entries can be created and deleted,
    whether a file is there or not and whether it can be written or not;
    elsewhere nothing is done and [OSError] is raised, by [remove] when a
    file is there and by [open] when none is. *)
Lemma write_list_to_file_spec (inList : list string) (csvFile : string) (w : world) :
  write_list_ inList csvFile w =
  if dir_writable csvFile
  then (Ok tt, World (<[csvFile := report_lines inList]> (files w)) (stdout w))
  else (Raise OSError, w).
Proof.
  unfold write_list_to_file. unfold bind at 1. unfold path_exists at 1.
  destruct (files w !! csvFile) as [old|] eqn:E.
  - rewrite bool_decide_eq_true_2 by eauto.
    unfold bind at 1. unfold remove at 1. rewrite E.
    destruct (dir_writable csvFile) eqn:D; [|reflexivity].
    unfold bind at 1. unfold open_write at 1. cbn [files stdout].
    rewrite lookup_delete_eq, D.
    rewrite (write_entries_spec _ _ _ ""%string) by (cbn; apply lookup_insert_eq).
    cbn [files stdout]. rewrite insert_insert_eq, insert_delete_eq. reflexivity.
  - rewrite bool_decide_eq_false_2 by (intros [x Hx]; discriminate).
    unfold bind at 1. unfold ret at 1.
    unfold bind at 1. unfold open_write at 1. rewrite E.
    destruct (dir_writable csvFile) eqn:D; [|reflexivity].
    rewrite (write_entries_spec _ _ _ ""%string) by (cbn; apply lookup_insert_eq).
    cbn [files stdout]. rewrite insert_insert_eq. reflexivity.
Qed.

(** *** The whole run *)

Lemma main_unfold (w : world) (data : string) :
  files w !! gpscsv = Some data ->
  main_ w =
  (let* failedFiles := process_rows_ (tl (csv_reader data)) [] in
   report_ errorLogCSV failedFiles) w.
Proof.
  intros H. unfold main. unfold bind at 1. unfold open_read. rewrite H. reflexivity.
Qed.

Lemma report_spec (failed : list string) (w : world) :
  report_ errorLogCSV failed w =
  match failed with
  | [] => (Ok tt, w)
  | _ =>
      if dir_writable errorLogCSV
      then (Ok tt, World (<[errorLogCSV := report_lines failed]> (files w))
                         (stdout w ++ report_announced errorLogCSV failed ++ [report_closed errorLogCSV]))
      else (Raise OSError, World (files w) (stdout w ++ report_announced errorLogCSV failed))
  end.
Proof.
  destruct failed as [|name failed]; [reflexivity|].
  unfold report, report_announced, report_closed. set (l := name :: failed).
  unfold bind at 1. unfold print at 1.
  unfold bind at 1. unfold print at 1. cbn [files stdout].
  unfold bind at 1. rewrite write_list_to_file_spec. cbn [files stdout].
  destruct (dir_writable errorLogCSV).
  - unfold print. cbn [files stdout]. rewrite <- !app_assoc. reflexivity.
  - rewrite <- !app_assoc. reflexivity.
Qed.

(** A report that returns. *)
Lemma report_ok (failed : list string) (w w' : world) :
  report_ errorLogCSV failed w = (Ok tt, w') ->
  (failed <> [] -> dir_writable errorLogCSV = true) /\
  w' = match failed with
       | [] => w
       | _ => World (<[errorLogCSV := report_lines failed]> (files w))
                    (stdout w ++ report_announced errorLogCSV failed ++ [report_closed errorLogCSV])
       end.
Proof.
  rewrite report_spec. destruct failed as [|name failed].
  - intros [= <-]. split; [intros C; contradiction | reflexivity].
  - destruct (dir_writable errorLogCSV); [|discriminate].
    intros [= <-]. split; [reflexivity | reflexivity].
Qed.

Lemma main_ok (w w' : world) (data : string) :
  files w !! gpscsv = Some data -> main_ w = (Ok tt, w') ->
  exists (failed : list string) (w1 : world),
    process_rows_ (tl (csv_reader data)) [] w = (Ok failed, w1) /\
    report_ errorLogCSV failed w1 = (Ok tt, w').
Proof.
  intros H Hm. rewrite (main_unfold w data H) in Hm. unfold bind in Hm.
  destruct (process_rows_ (tl (csv_reader data)) [] w) as [[failed|e] w1]; [|discriminate].
  eauto.
Qed.

Lemma missing_line (fs : gmap string string) (rows : list (list string)) (name : string) :
  name ∈ missing_ fs rows -> skipped_line name ∈ map (line_ fs) rows.
Proof.
  unfold missing_names. intros H. apply list_elem_of_omap in H. destruct H as (row & Hr & Hn).
  apply list_elem_of_In, in_map_iff. exists row. split; [|apply list_elem_of_In, Hr].
  unfold row_line. destruct (py_index row img_Name_Column) as [n|e]; [|discriminate].
  destruct (fs !! path_join sourceImageFolder n); [discriminate|]. congruence.
Qed.

(** C5: a row whose image is missing has its identifier appended to the
    list of failures and a line printed, and the loop goes on with the
    next row; and when the run completes, the list of failures is exactly
    the identifiers of the rows whose image is missing, in the order of
    the table, each with its line in the output, and it is what the
    report holds. *)
Theorem missing_files_recorded :
  (forall (row : list string) (rest : list (list string)) (failed : list string)
          (w : world) (name : string),
      py_index row img_Name_Column = Ok name ->
      files w !! path_join sourceImageFolder name = None ->
      process_rows_ (row :: rest) failed w =
      process_rows_ rest (failed ++ [name])
        (World (files w) (stdout w ++ [skipped_line name]))) /\
  (forall (w w' : world) (data : string),
      files w !! gpscsv = Some data ->
      main_ w = (Ok tt, w') ->
      let rows := tl (csv_reader data) in
      let failed := missing_ (files w) rows in
      exists w1 : world,
        process_rows_ rows [] w = (Ok failed, w1) /\
        Forall (fun name => skipped_line name ∈ stdout w') failed /\
        (failed <> [] -> files w' !! errorLogCSV = Some (report_lines failed))).
Proof.
  split.
  - intros row rest failed w name Hn Hf. cbn [process_rows]. unfold bind at 1.
    rewrite (process_row_missing row failed w name Hn Hf). reflexivity.
  - intros w w' data H Hm rows failed.
    destruct (main_ok w w' data H Hm) as (failed' & w1 & Hp & Hr).
    destruct (process_rows_inv _ _ _ _ _ Hp) as (_ & _ & R).
    destruct (R failed' eq_refl) as [E S]. cbn in E. fold rows in E. fold failed in E. subst failed'.
    exists w1. split; [exact Hp|].
    destruct (report_ok failed w1 w' Hr) as [_ Hw]. rewrite Hw. clear Hr Hw.
    split.
    + apply Forall_forall. intros name Hin. apply missing_line in Hin.
      assert (Hin' : skipped_line name ∈ stdout w1).
      { rewrite S. apply elem_of_app. right. exact Hin. }
      destruct failed; [exact Hin'|]. cbn [stdout]. apply elem_of_app. left. exact Hin'.
    + intros Hne. destruct failed; [contradiction|]. cbn [files]. apply lookup_insert_eq.
Qed.

(** C6, as amended: where entries can be created and deleted,
    [write_list_to_file] deletes the file that is there and creates the
    report anew, with exactly the entries, each followed by a newline,
    whether the old file could be written or not; elsewhere it raises
    [OSError] and nothing is changed, a report that is there staying as
    it is.  After a run that completes, either there are failures and
    the report holds them, or there are none and the run has written
    nothing after the loop: a report that was there is as it was (unless
    the table names it as an image).  When there are failures and the
    report cannot be written the run raises [OSError] after the two lines
    that announce the report. *)
Theorem error_report_file :
  (forall (inList : list string) (csvFile : string) (w : world),
      write_list_ inList csvFile w =
      if dir_writable csvFile
      then (Ok tt, World (<[csvFile := report_lines inList]> (files w)) (stdout w))
      else (Raise OSError, w)) /\
  (forall (inList : list string) (csvFile old : string) (w : world),
      files w !! csvFile = Some old ->
      write_list_ inList csvFile w =
      (remove dir_writable csvFile ;;
       open_write dir_writable file_writable csvFile ;;
       write_entries csvFile inList) w /\
      remove dir_writable csvFile w =
      if dir_writable csvFile
      then (Ok tt, World (delete csvFile (files w)) (stdout w))
      else (Raise OSError, w)) /\
  (forall (w w' : world) (data : string),
      files w !! gpscsv = Some data ->
      main_ w = (Ok tt, w') ->
      let rows := tl (csv_reader data) in
      exists (failed : list string) (w1 : world),
        process_rows_ rows [] w = (Ok failed, w1) /\
        (failed <> [] ->
           dir_writable errorLogCSV = true /\
           files w' = <[errorLogCSV := report_lines failed]> (files w1)) /\
        (failed = [] ->
           w' = w1 /\
           ((errorLogCSV ∉ paths_ rows) ->
            files w' !! errorLogCSV = files w !! errorLogCSV))) /\
  (forall (w w1 : world) (data : string) (failed : list string),
      files w !! gpscsv = Some data ->
      process_rows_ (tl (csv_reader data)) [] w = (Ok failed, w1) ->
      failed <> [] ->
      dir_writable errorLogCSV = false ->
      main_ w =
      (Raise OSError,
       World (files w1) (stdout w1 ++ report_announced errorLogCSV failed))).
Proof.
  split; [apply write_list_to_file_spec|]. split; [|split].
  - intros inList csvFile old w E. split.
    + unfold write_list_to_file. unfold bind at 1. unfold path_exists at 1.
      rewrite bool_decide_eq_true_2 by eauto. reflexivity.
    + unfold remove. rewrite E. reflexivity.
  - intros w w' data H Hm rows.
    destruct (main_ok w w' data H Hm) as (failed & w1 & Hp & Hr).
    exists failed, w1. split; [exact Hp|].
    destruct (process_rows_inv _ _ _ _ _ Hp) as (_ & F & _).
    destruct (report_ok failed w1 w' Hr) as [Dw Hw].
    split.
    + intros Hne. split; [apply Dw, Hne|]. rewrite Hw.
      destruct failed; [contradiction|]. reflexivity.
    + intros ->. split; [exact Hw|]. intros Hp'. rewrite Hw. apply F. exact Hp'.
  - intros w w1 data failed H Hp Hne D.
    rewrite (main_unfold w data H). unfold bind. rewrite Hp, report_spec, D.
    destruct failed; [contradiction | reflexivity].
Qed.

(** C8: the run drops the first row of the table and processes the rows
    after it; the rows are processed one after the other, and the lines
    printed for them come in the order of the table. *)
Theorem rows_in_table_order (w : world) (data : string)
        (header : list string) (rows : list (list string)) :
  files w !! gpscsv = Some data ->
  csv_reader data = header :: rows ->
  main_ w = (let* failedFiles := process_rows_ rows [] in report_ errorLogCSV failedFiles) w /\
  (forall (rows1 rows2 : list (list string)) (failed : list string) (w0 : world),
      process_rows_ (rows1 ++ rows2) failed w0 =
      (let* failed' := process_rows_ rows1 failed in process_rows_ rows2 failed') w0) /\
  (forall (failed : list string) (w1 : world),
      process_rows_ rows [] w = (Ok failed, w1) ->
      stdout w1 = stdout w ++ map (line_ (files w)) rows).
Proof.
  intros H Hc. split; [|split].
  - rewrite (main_unfold w data H), Hc. reflexivity.
  - apply process_rows_app.
  - intros failed w1 Hp. destruct (process_rows_inv _ _ _ _ _ Hp) as (_ & _ & R).
    destruct (R failed eq_refl) as [_ S]. exact S.
Qed.

(** C10: on a table that is empty or has its header only the run
    completes and leaves the files and the output as they were. *)
Theorem empty_table_is_noop (w : world) (data : string) :
  files w !! gpscsv = Some data ->
  (csv_reader data = [] \/ exists header, csv_reader data = [header]) ->
  main_ w = (Ok tt, w).
Proof.
  intros H Hc. rewrite (main_unfold w data H).
  destruct Hc as [-> | [header ->]]; reflexivity.
Qed.

Lemma process_row_raises (row : list string) (failed : list string) (w : world) (e : exn) :
  row_raises path_join sourceImageFolder img_Name_Column py_float
    Lat_Y_Column Long_X_Column Alt_Z_Column (files w) row e ->
  exists w' : world,
    process_row_ row failed w = (Raise e, w') /\ files w' = files w /\
    (stdout w' = stdout w \/
     exists name, py_index row img_Name_Column = Ok name /\
                  stdout w' = stdout w ++ [path_join sourceImageFolder name]).
Proof.
  intros [Hn | (name & Hn & Hf & Hc)]; unfold process_row.
  - exists w. unfold bind, lift. rewrite Hn. auto.
  - exists (World (files w) (stdout w ++ [path_join sourceImageFolder name])).
    split; [|split; [reflexivity | right; exists name; split; [exact Hn | reflexivity]]].
    unfold bind at 1. unfold lift at 1. rewrite Hn.
    unfold bind at 1. unfold path_exists at 1. rewrite bool_decide_eq_true_2 by exact Hf.
    cbn [negb]. unfold bind at 1. unfold print at 1.
    unfold bind, lift.
    destruct (float_at py_float row Lat_Y_Column) as [lat|e1]; [|cbn in Hc; congruence].
    destruct (float_at py_float row Long_X_Column) as [lng|e2]; [|cbn in Hc; congruence].
    destruct (float_at py_float row Alt_Z_Column) as [alt|e3]; [|cbn in Hc; congruence].
    discriminate.
Qed.

(** C7, as amended: when the rows before it have been processed, a row
    without the name column, or a row of an existing image with a
    coordinate that is missing or is not a number, makes the run raise:
    the files are as the rows before left them, no report is written and
    the rows after are not processed.  A row with a name whose image is
    missing is only recorded, whatever its other columns hold or lack:
    its name is added to the failures, its line is printed and the loop
    goes on with the rows after it. *)
Theorem malformed_row_aborts :
  (forall (w : world) (data : string) (header : list string)
          (pre : list (list string)) (row : list string) (post : list (list string))
          (failed : list string) (w1 : world) (e : exn),
      files w !! gpscsv = Some data ->
      csv_reader data = header :: pre ++ row :: post ->
      process_rows_ pre [] w = (Ok failed, w1) ->
      row_raises path_join sourceImageFolder img_Name_Column py_float
        Lat_Y_Column Long_X_Column Alt_Z_Column (files w1) row e ->
      exists w2 : world,
        main_ w = (Raise e, w2) /\ files w2 = files w1 /\
        (stdout w2 = stdout w1 \/
         exists name, py_index row img_Name_Column = Ok name /\
                      stdout w2 = stdout w1 ++ [path_join sourceImageFolder name])) /\
  (forall (row : list string) (rest : list (list string)) (failed : list string)
          (w : world) (name : string),
      py_index row img_Name_Column = Ok name ->
      files w !! path_join sourceImageFolder name = None ->
      process_row_ row failed w =
      (Ok (failed ++ [name]), World (files w) (stdout w ++ [skipped_line name])) /\
      process_rows_ (row :: rest) failed w =
      process_rows_ rest (failed ++ [name])
        (World (files w) (stdout w ++ [skipped_line name]))).
Proof.
  split.
  - intros w data header pre row post failed w1 e H Hc Hp Hr.
    destruct (process_row_raises row failed w1 e Hr) as (w2 & H2 & Hf & Hs).
    exists w2. split; [|split; assumption].
    rewrite (main_unfold w data H), Hc. cbn [tl].
    unfold bind at 1. rewrite process_rows_app. unfold bind at 1. rewrite Hp.
    cbn [process_rows]. unfold bind at 1. rewrite H2. reflexivity.
  - intros row rest failed w name Hn Hf.
    pose proof (process_row_missing row failed w name Hn Hf) as M.
    split; [exact M|]. cbn [process_rows]. unfold bind at 1. rewrite M. reflexivity.
Qed.

End BatchProps.

(** * The claims on concrete inputs *)

(** ** The encoder on every float *)

(** C1, as amended: for every finite float and every pair of reference
    characters [to_deg] returns the tuple of the contract: [deg] the
    integer part of [|value|], [min] the integer part of the fractional
    part times 60, [sec] the remainder times 60 rounded to 5 decimal
    places, the products being float products and the two subtractions
    exact, and the reference character by the sign of the value, empty at
    zero.  On NaN and on the infinities it raises instead. *)
Theorem to_deg_contract :
  (forall (v : Q) (negativeRef positiveRef : string),
      is_f64 v ->
      to_deg (Fin v) [negativeRef; positiveRef] = Ok (dms_contract v negativeRef positiveRef)) /\
  (forall loc : list string, to_deg NaN loc = Raise ValueError) /\
  (forall (neg : bool) (negativeRef positiveRef : string),
      to_deg (Inf neg) [negativeRef; positiveRef] = Raise OverflowError).
Proof.
  split; [exact to_deg_finite|]. split.
  - intros loc. reflexivity.
  - intros [|] n p; reflexivity.
Qed.

Lemma to_deg_contract_witness :
  to_deg (Fin (3550820201266319 # 140737488355328)) ["S"; "N"]%string
  = Ok (dms_contract (3550820201266319 # 140737488355328) "S" "N").
Proof.
  apply (proj1 to_deg_contract (3550820201266319 # 140737488355328) "S"%string "N"%string).
  vm_compute. reflexivity.
Defined.

(** C1 as it is stated fails on the float NaN: nothing is returned. *)
Lemma to_deg_nan_raises :
  to_deg NaN ["S"; "N"]%string = Raise ValueError /\
  forall t : Z * Z * pyfloat * string, to_deg NaN ["S"; "N"]%string <> Ok t.
Proof. split; [reflexivity | intros t; discriminate]. Qed.

Lemma gps_altitude_block_witness :
  exists block : gps_ifd,
    gps_ifd_of (Fin (3550820201266319 # 140737488355328)) (Fin (- (161 # 2)))
               (Fin (- (7093169413108531 # 562949953421312))) = Ok block /\
    GPSVersionID block = (2, 0, 0, 0) /\
    GPSAltitudeRef block = 1 /\
    GPSAltitude block = (round_half_even (- (7093169413108531 # 562949953421312)), 1) /\
    forall (piexif_dump : gps_ifd -> result string)
           (piexif_insert : string -> string -> result string)
           (file_name : string) (w : world),
      set_gps_location piexif_dump piexif_insert file_name
        (Fin (3550820201266319 # 140737488355328)) (Fin (- (161 # 2)))
        (Fin (- (7093169413108531 # 562949953421312))) w =
      (let* exif_bytes := lift (piexif_dump block) in
       insert_exif piexif_insert exif_bytes file_name) w.
Proof.
  apply (gps_altitude_block (3550820201266319 # 140737488355328) (- (161 # 2))
           (- (7093169413108531 # 562949953421312))); vm_compute; reflexivity.
Defined.

(** C4 as it is stated fails at the altitude -12.6: the rational that is
    stored is (-13, 1), not the magnitude (13, 1). *)
Lemma altitude_sign_kept :
  match gps_ifd_of (Fin (3550820201266319 # 140737488355328)) (Fin (- (161 # 2)))
                   (Fin (- (7093169413108531 # 562949953421312))) with
  | Ok block =>
      GPSAltitudeRef block = 1 /\
      GPSAltitude block = (-13, 1) /\
      GPSAltitude block <> (Z.abs (-13), 1)
  | Raise _ => False
  end.
Proof. vm_compute. repeat split. discriminate. Qed.

(** ** The batch at the sample folder *)

Lemma missing_files_recorded_witness :
  (Sample.loop (["b.jpg"; "1.5"; "2.5"; "3"] :: [["c.jpg"; "-33.9"; "18.4"; "26.4"]])%string
     [] Sample.world0 =
   Sample.loop [["c.jpg"; "-33.9"; "18.4"; "26.4"]]%string ([] ++ ["b.jpg"%string])
     (World (files Sample.world0) (stdout Sample.world0 ++ [skipped_line "b.jpg"]))) /\
  (let rows := tl (Sample.csv_reader Sample.table) in
   let failed := missing_names Sample.path_join "img" 0 (files Sample.world0) rows in
   exists w1 : world,
     Sample.loop rows [] Sample.world0 = (Ok failed, w1) /\
     Forall (fun name => skipped_line name ∈
                         stdout (snd (Sample.run "gps.csv" "errors.csv" Sample.world0))) failed /\
     (failed <> [] ->
      files (snd (Sample.run "gps.csv" "errors.csv" Sample.world0)) !! "errors.csv"%string
      = Some (report_lines failed))).
Proof.
  split.
  - apply (proj1 (missing_files_recorded Sample.path_join Sample.csv_reader Sample.py_float
                    Sample.piexif_dump Sample.piexif_insert Sample.dir_writable
                    Sample.file_writable "img" "gps.csv" "errors.csv" 0 1 2 3)
             ["b.jpg"; "1.5"; "2.5"; "3"]%string [["c.jpg"; "-33.9"; "18.4"; "26.4"]]%string
             [] Sample.world0 "b.jpg"%string).
    + reflexivity.
    + vm_compute. reflexivity.
  - apply (proj2 (missing_files_recorded Sample.path_join Sample.csv_reader Sample.py_float
                    Sample.piexif_dump Sample.piexif_insert Sample.dir_writable
                    Sample.file_writable "img" "gps.csv" "errors.csv" 0 1 2 3)
             Sample.world0 (snd (Sample.run "gps.csv" "errors.csv" Sample.world0)) Sample.table).
    + vm_compute. reflexivity.
    + vm_compute. reflexivity.
Defined.

Lemma error_report_file_witness :
  (write_list_to_file Sample.dir_writable Sample.file_writable ["b.jpg"%string] "empty.csv"
     Sample.world0 =
   (remove Sample.dir_writable "empty.csv" ;;
    open_write Sample.dir_writable Sample.file_writable "empty.csv" ;;
    write_entries "empty.csv" ["b.jpg"%string]) Sample.world0 /\
   remove Sample.dir_writable "empty.csv" Sample.world0 =
   if Sample.dir_writable "empty.csv"
   then (Ok tt, World (delete "empty.csv"%string (files Sample.world0)) (stdout Sample.world0))
   else (Raise OSError, Sample.world0)) /\
  (let rows := tl (Sample.csv_reader Sample.table) in
   exists (failed : list string) (w1 : world),
     Sample.loop rows [] Sample.world0 = (Ok failed, w1) /\
     (failed <> [] ->
      Sample.dir_writable "errors.csv" = true /\
      files (snd (Sample.run "gps.csv" "errors.csv" Sample.world0))
      = <["errors.csv"%string := report_lines failed]> (files w1)) /\
     (failed = [] ->
      snd (Sample.run "gps.csv" "errors.csv" Sample.world0) = w1 /\
      (("errors.csv"%string ∉ image_paths Sample.path_join "img" 0 rows) ->
       files (snd (Sample.run "gps.csv" "errors.csv" Sample.world0)) !! "errors.csv"%string
       = files Sample.world0 !! "errors.csv"%string))) /\
  Sample.run "gps.csv" "logs/errors.csv" Sample.world0 =
  (Raise OSError,
   World (files (snd (Sample.loop (tl (Sample.csv_reader Sample.table)) [] Sample.world0)))
         (stdout (snd (Sample.loop (tl (Sample.csv_reader Sample.table)) [] Sample.world0))
          ++ report_announced "logs/errors.csv" ["b.jpg"%string])).
Proof.
  pose proof (error_report_file Sample.path_join Sample.csv_reader Sample.py_float
                Sample.piexif_dump Sample.piexif_insert Sample.dir_writable
                Sample.file_writable "img" "gps.csv") as T.
  split; [|split].
  - apply (proj1 (proj2 (T "errors.csv"%string 0 1 2 3))
             ["b.jpg"%string] "empty.csv"%string ""%string Sample.world0).
    vm_compute. reflexivity.
  - apply (proj1 (proj2 (proj2 (T "errors.csv"%string 0 1 2 3)))
             Sample.world0 (snd (Sample.run "gps.csv" "errors.csv" Sample.world0)) Sample.table).
    + vm_compute. reflexivity.
    + vm_compute. reflexivity.
  - apply (proj2 (proj2 (proj2 (T "logs/errors.csv"%string 0 1 2 3)))
             Sample.world0 _ Sample.table ["b.jpg"%string]).
    + vm_compute. reflexivity.
    + vm_compute. reflexivity.
    + discriminate.
    + vm_compute. reflexivity.
Defined.

(** C6 as it is stated fails where the report cannot be created: the
    folder [logs] is not there, the image of the second row is missing,
    and the run raises [OSError] at [open]; no report is written. *)
Lemma report_not_written :
  fst (Sample.loop (tl (Sample.csv_reader Sample.table)) [] Sample.world0)
  = Ok ["b.jpg"%string] /\
  fst (Sample.run "gps.csv" "logs/errors.csv" Sample.world0) = Raise OSError /\
  files (snd (Sample.run "gps.csv" "logs/errors.csv" Sample.world0)) !! "logs/errors.csv"%string
  = None /\
  fst (write_list_to_file Sample.dir_writable Sample.file_writable ["b.jpg"%string]
         "logs/errors.csv" Sample.world0) = Raise OSError.
Proof. repeat split; vm_compute; reflexivity. Qed.

Lemma rows_in_table_order_witness :
  Sample.run "gps.csv" "errors.csv" Sample.world0 =
  (let* failedFiles := Sample.loop (tl (Sample.csv_reader Sample.table)) [] in
   report Sample.dir_writable Sample.file_writable "errors.csv" failedFiles) Sample.world0 /\
  stdout (snd (Sample.loop (tl (Sample.csv_reader Sample.table)) [] Sample.world0)) =
  stdout Sample.world0 ++
  map (row_line Sample.path_join "img" 0 (files Sample.world0))
      (tl (Sample.csv_reader Sample.table)).
Proof.
  assert (H1 : files Sample.world0 !! "gps.csv"%string = Some Sample.table)
    by (vm_compute; reflexivity).
  assert (H2 : Sample.csv_reader Sample.table =
               ["name"; "lat"; "lon"; "alt"]%string :: tl (Sample.csv_reader Sample.table))
    by (vm_compute; reflexivity).
  destruct (rows_in_table_order Sample.path_join Sample.csv_reader Sample.py_float
              Sample.piexif_dump Sample.piexif_insert Sample.dir_writable
              Sample.file_writable "img" "gps.csv" "errors.csv" 0 1 2 3
              Sample.world0 Sample.table ["name"; "lat"; "lon"; "alt"]%string
              (tl (Sample.csv_reader Sample.table)) H1 H2) as (A & _ & C).
  split; [exact A|].
  apply (C ["b.jpg"%string]). vm_compute. reflexivity.
Defined.

Lemma empty_table_is_noop_witness :
  Sample.run "empty.csv" "errors.csv" Sample.world0 = (Ok tt, Sample.world0).
Proof.
  apply (empty_table_is_noop Sample.path_join Sample.csv_reader Sample.py_float
           Sample.piexif_dump Sample.piexif_insert Sample.dir_writable
           Sample.file_writable "img" "empty.csv" "errors.csv" 0 1 2 3
           Sample.world0 ""%string).
  - vm_compute. reflexivity.
  - left. reflexivity.
Defined.

Lemma malformed_row_aborts_witness :
  (exists w2 : world,
     Sample.run "bad.csv" "errors.csv" Sample.world0 = (Raise ValueError, w2) /\
     files w2 = files (snd (Sample.loop [["b.jpg"; "1.5"; "2.5"; "3"]]%string [] Sample.world0)) /\
     (stdout w2 = stdout (snd (Sample.loop [["b.jpg"; "1.5"; "2.5"; "3"]]%string [] Sample.world0)) \/
      exists name,
        py_index ["a.jpg"; "north"; "-80.5"; "12.6"]%string 0 = Ok name /\
        stdout w2 =
        stdout (snd (Sample.loop [["b.jpg"; "1.5"; "2.5"; "3"]]%string [] Sample.world0))
        ++ [Sample.path_join "img" name])) /\
  (Sample.loop [["b.jpg"; "north"]]%string [] Sample.world0 =
   (Ok ([] ++ ["b.jpg"%string]),
    World (files Sample.world0) (stdout Sample.world0 ++ [skipped_line "b.jpg"])) /\
   Sample.loop (["b.jpg"; "north"] :: [["c.jpg"; "-33.9"; "18.4"; "26.4"]])%string
     [] Sample.world0 =
   Sample.loop [["c.jpg"; "-33.9"; "18.4"; "26.4"]]%string ([] ++ ["b.jpg"%string])
     (World (files Sample.world0) (stdout Sample.world0 ++ [skipped_line "b.jpg"]))).
Proof.
  pose proof (malformed_row_aborts Sample.path_join Sample.csv_reader Sample.py_float
                Sample.piexif_dump Sample.piexif_insert Sample.dir_writable
                Sample.file_writable "img" "bad.csv" "errors.csv" 0 1 2 3) as [A B].
  split.
  - apply (A Sample.world0 Sample.bad_table ["name"; "lat"; "lon"; "alt"]%string
             [["b.jpg"; "1.5"; "2.5"; "3"]]%string
             ["a.jpg"; "north"; "-80.5"; "12.6"]%string
             [["c.jpg"; "-33.9"; "18.4"; "26.4"]]%string
             ["b.jpg"]%string
             (snd (Sample.loop [["b.jpg"; "1.5"; "2.5"; "3"]]%string [] Sample.world0))
             ValueError).
    + vm_compute. reflexivity.
    + vm_compute. reflexivity.
    + vm_compute. reflexivity.
    + right. exists "a.jpg"%string. split; [reflexivity|]. split.
      * vm_compute. eexists. reflexivity.
      * vm_compute. reflexivity.
  - destruct (B ["b.jpg"; "north"]%string [["c.jpg"; "-33.9"; "18.4"; "26.4"]]%string
                [] Sample.world0 "b.jpg"%string) as [B1 B2].
    + reflexivity.
    + vm_compute. reflexivity.
    + split; [exact B1 | exact B2].
Defined.

(** C7 as it is stated fails at the table [odd_table]: its second row has
    too few columns and no number for the latitude, yet its image is
    missing, so the row is only recorded; the run completes, the row
    after it is tagged and the report is written. *)
Lemma malformed_row_skipped :
  In ["b.jpg"; "north"]%string (tl (Sample.csv_reader Sample.odd_table)) /\
  float_at Sample.py_float ["b.jpg"; "north"]%string 1 = Raise ValueError /\
  py_index ["b.jpg"; "north"]%string 2 = Raise IndexError /\
  fst (Sample.run "odd.csv" "errors.csv" Sample.world0) = Ok tt /\
  files (snd (Sample.run "odd.csv" "errors.csv" Sample.world0)) !! "img/c.jpg"%string
  = Some "GPS S E 26;JPEG"%string /\
  files (snd (Sample.run "odd.csv" "errors.csv" Sample.world0)) !! "errors.csv"%string
  = Some ("b.jpg" ++ newline)%string.
Proof.
  split; [vm_compute; tauto|]. repeat split; vm_compute; reflexivity.
Qed.

(** * Further properties of the code *)

Local Open Scope Q_scope.

(** ** The encoder *)

Lemma Qabs_opp_eq (v : Q) : Qabs (- v) = Qabs v.
Proof. destruct v as [n d]. unfold Qabs, Qopp. cbn. rewrite Z.abs_opp. reflexivity. Qed.

Lemma is_f64_opp (v : Q) : is_f64 v -> is_f64 (- v).
Proof.
  intros H. destruct (is_f64_rnd v H) as [R B].
  unfold is_f64. rewrite round_f64_fin; rewrite rnd_opp, R; [reflexivity|].
  rewrite Qabs_opp_eq. exact B.
Qed.

Lemma ref_char_pos (v : Q) (n p : string) : 0 < v -> ref_char v n p = p.
Proof.
  intros H. unfold ref_char. destruct (Qcompare_spec v 0) as [E|E|E]; [| |reflexivity]; lra.
Qed.

Lemma ref_char_neg (v : Q) (n p : string) : v < 0 -> ref_char v n p = n.
Proof.
  intros H. unfold ref_char. destruct (Qcompare_spec v 0) as [E|E|E]; [|reflexivity|]; lra.
Qed.

(** X1: a value and its opposite give the same degrees, minutes and
    seconds; only the reference character differs. *)
Theorem to_deg_mirror (v : Q) (negativeRef positiveRef : string) :
  is_f64 v -> 0 < v ->
  exists (deg min : Z) (sec : pyfloat),
    to_deg (Fin v) [negativeRef; positiveRef] = Ok (deg, min, sec, positiveRef) /\
    to_deg (Fin (- v)) [negativeRef; positiveRef] = Ok (deg, min, sec, negativeRef).
Proof.
  intros H P.
  rewrite (to_deg_finite v _ _ H), (to_deg_finite (- v) _ _ (is_f64_opp v H)).
  unfold dms_contract. rewrite Qabs_opp_eq.
  rewrite (ref_char_pos v _ _ P), (ref_char_neg (- v)) by lra.
  do 3 eexists. split; reflexivity.
Qed.

Lemma to_deg_mirror_witness :
  exists (deg min : Z) (sec : pyfloat),
    to_deg (Fin (3550820201266319 # 140737488355328)) ["S"; "N"]%string
      = Ok (deg, min, sec, "N"%string) /\
    to_deg (Fin (- (3550820201266319 # 140737488355328))) ["S"; "N"]%string
      = Ok (deg, min, sec, "S"%string).
Proof.
  apply (to_deg_mirror (3550820201266319 # 140737488355328) "S"%string "N"%string).
  - vm_compute. reflexivity.
  - reflexivity.
Defined.

Lemma truncate_Z (k : Z) : truncate (inject_Z k) = k.
Proof.
  unfold truncate. destruct (Qle_bool 0 (inject_Z k)).
  - apply Qfloor_Z.
  - apply Qceiling_Z.
Qed.

(** X2: a float that is a whole number of degrees, of any size, is
    converted without error: [deg] is its magnitude, [min] is 0 and [sec]
    is 0.0. *)
Theorem to_deg_whole_degrees (n : Z) (negativeRef positiveRef : string) :
  is_f64 (inject_Z n) ->
  to_deg (Fin (inject_Z n)) [negativeRef; positiveRef] =
  Ok (Z.abs n, 0%Z, Fin 0,
      if (n <? 0)%Z then negativeRef else if (0 <? n)%Z then positiveRef else ""%string).
Proof.
  intros H. rewrite (to_deg_finite _ _ _ H). unfold dms_contract.
  change (Qabs (inject_Z n)) with (inject_Z (Z.abs n)).
  rewrite truncate_Z.
  assert (F : frac_part (inject_Z (Z.abs n)) == 0).
  { unfold frac_part. rewrite truncate_Z. ring. }
  rewrite (times60_comp _ _ F).
  f_equal. f_equal.
  unfold ref_char, Qcompare. cbn [Qnum Qden inject_Z]. rewrite Z.mul_1_r.
  change (0 * 1)%Z with 0%Z.
  destruct (Z.compare_spec n 0) as [E|E|E].
  - subst n. reflexivity.
  - apply Z.ltb_lt in E. rewrite E. reflexivity.
  - assert (A : (n <? 0)%Z = false) by (apply Z.ltb_ge; lia).
    apply Z.ltb_lt in E. rewrite A, E. reflexivity.
Qed.

Lemma to_deg_whole_degrees_witness :
  to_deg (Fin (inject_Z (-81))) ["W"; "E"]%string =
  Ok (Z.abs (-81), 0%Z, Fin 0,
      if (-81 <? 0)%Z then "W"%string else if (0 <? -81)%Z then "E"%string else ""%string).
Proof.
  apply (to_deg_whole_degrees (-81) "W"%string "E"%string). vm_compute. reflexivity.
Defined.

(** X3: how [to_deg] looks the reference up.  A negative value takes
    [loc[0]] and a positive one [loc[1]], before anything else is
    computed: on a list that is too short the call raises [IndexError],
    also for an infinity.  Zero never looks into the list, and a negative
    value looks at its first element only. *)
Theorem to_deg_reference_lookup :
  (forall value : pyfloat, flt_int value 0 = true -> to_deg value [] = Raise IndexError) /\
  (forall (value : pyfloat) (loc : list string),
      fgt_int value 0 = true -> (length loc < 2)%nat -> to_deg value loc = Raise IndexError) /\
  (forall loc : list string, to_deg (Fin 0) loc = Ok (0%Z, 0%Z, Fin 0, ""%string)) /\
  (forall (value : pyfloat) (negativeRef : string) (rest : list string),
      flt_int value 0 = true ->
      to_deg value (negativeRef :: rest) = to_deg value [negativeRef]).
Proof.
  split; [|split; [|split]].
  - intros value H. unfold to_deg. rewrite H. reflexivity.
  - intros value loc H L. unfold to_deg.
    assert (N : flt_int value 0 = false).
    { destruct value as [q|[|]|]; cbn in *; try discriminate; try reflexivity.
      apply negb_true_iff in H. apply negb_false_iff. apply Qle_bool_iff.
      destruct (Qlt_le_dec q (inject_Z 0)) as [A|A]; [|exact A].
      exfalso. apply Qlt_le_weak in A. apply Qle_bool_iff in A. congruence. }
    rewrite N, H.
    destruct loc as [|a [|b loc]]; [reflexivity | reflexivity | cbn in L; lia].
  - intros loc. reflexivity.
  - intros value n rest H. unfold to_deg. rewrite H. reflexivity.
Qed.

Lemma to_deg_reference_lookup_witness :
  to_deg (Inf true) [] = Raise IndexError /\
  to_deg (Fin (3 # 2)) ["S"%string] = Raise IndexError /\
  to_deg (Fin (- (3 # 2))) ["S"; "N"; "X"]%string = to_deg (Fin (- (3 # 2))) ["S"%string].
Proof.
  destruct to_deg_reference_lookup as (A & B & _ & D).
  split; [apply A; reflexivity|].
  split; [apply B; [reflexivity | cbn; lia]|].
  apply D. reflexivity.
Defined.

Lemma five_decimal_count (s : Q) : 0 <= s -> s <= 60 ->
  (0 <= round_half_even (s * 100000) <= 6000000)%Z.
Proof.
  intros H0 H1. split.
  - apply rhe_ge_Z. change (inject_Z 0) with 0. lra.
  - apply rhe_le_Z. change (inject_Z 6000000) with 6000000. lra.
Qed.

(** X4: for every finite float, of any magnitude, [deg] is the integer
    just below or at [|value|], [min] is among 0..59, and [sec] is the
    float nearest to a multiple [K / 10^5] of 10^-5 with
    [0 <= K <= 6_000_000]. *)
Theorem to_deg_five_decimals (v : Q) (negativeRef positiveRef : string) :
  is_f64 v ->
  exists (deg min K : Z) (ref : string),
    to_deg (Fin v) [negativeRef; positiveRef]
    = Ok (deg, min, round_f64 (inject_Z K / 100000), ref) /\
    inject_Z deg <= Qabs v /\ Qabs v < inject_Z deg + 1 /\
    (0 <= deg)%Z /\ (0 <= min <= 59)%Z /\ (0 <= K <= 6000000)%Z.
Proof.
  intros H. destruct (is_f64_abs_repr v H) as [R B].
  pose proof (dms_trace_exists (Qabs v) R B) as T.
  rewrite (to_deg_finite v _ _ H). unfold dms_contract.
  set (a := Qabs v) in *. set (m := times60 (frac_part a)) in *.
  set (s := times60 (frac_part m)) in *.
  pose proof (tr_s_lo _ _ _ _ _ T) as S0. pose proof (tr_s_hi _ _ _ _ _ T) as S1.
  destruct (round5_range s S0 S1) as ((K0 & K1) & _).
  exists (truncate a), (truncate m), (round_half_even (s * 100000)), (ref_char v negativeRef positiveRef).
  split; [|split; [|split; [|split; [|split]]]].
  - rewrite (round_f64_upto60 _ K0 K1). reflexivity.
  - rewrite truncate_nonneg by (apply Qabs_nonneg). apply Qfloor_le.
  - rewrite truncate_nonneg by (apply Qabs_nonneg).
    pose proof (Qlt_floor a) as L. rewrite inject_Z_plus in L. exact L.
  - exact (tr_deg _ _ _ _ _ T).
  - exact (tr_min _ _ _ _ _ T).
  - apply five_decimal_count; assumption.
Qed.

Lemma to_deg_five_decimals_witness :
  exists (deg min K : Z) (ref : string),
    to_deg (Fin (- (4803839583313171 # 288230376151711744))) ["S"; "N"]%string
    = Ok (deg, min, round_f64 (inject_Z K / 100000), ref) /\
    inject_Z deg <= Qabs (- (4803839583313171 # 288230376151711744)) /\
    Qabs (- (4803839583313171 # 288230376151711744)) < inject_Z deg + 1 /\
    (0 <= deg)%Z /\ (0 <= min <= 59)%Z /\ (0 <= K <= 6000000)%Z.
Proof.
  apply (to_deg_five_decimals (- (4803839583313171 # 288230376151711744)) "S"%string "N"%string).
  vm_compute. reflexivity.
Defined.

Lemma decode_error_sharp (a m r s kq sec : Q) (deg min : Z) :
  m == inject_Z min + r ->
  Qabs (m - (a - inject_Z deg) * 60) <= 2 ^ (-48) ->
  Qabs (s - r * 60) <= 2 ^ (-48) ->
  Qabs (kq - s) <= 1 # 200000 ->
  Qabs (sec - kq) <= 2 ^ (-48) ->
  Qabs (inject_Z deg + inject_Z min / 60 + kq / 3600 - a) <= 139 # 100000000000 /\
  Qabs (inject_Z deg + inject_Z min / 60 + sec / 3600 - a) <= 139 # 100000000000.
Proof.
  intros Hm E1 E2 E3 E4.
  assert (Q48 : 2 ^ (-48) == 1 # 281474976710656) by reflexivity.
  rewrite Q48 in *.
  apply Qabs_Qle_condition in E1, E2, E3, E4.
  generalize dependent (inject_Z deg). generalize dependent (inject_Z min).
  intros qm Hm qd E1.
  assert (X : qd + qm / 60 + sec / 3600 - a ==
              ((sec - kq) + (kq - s) + (s - r * 60)) / 3600 + (m - (a - qd) * 60) / 60).
  { rewrite Hm. field. }
  assert (Y : qd + qm / 60 + kq / 3600 - a ==
              ((kq - s) + (s - r * 60)) / 3600 + (m - (a - qd) * 60) / 60).
  { rewrite Hm. field. }
  split; apply Qabs_Qle_condition.
  - rewrite Y. split.
    + apply Qle_trans with ((- (1 # 200000) + - (1 # 281474976710656)) / 3600
                            + - (1 # 281474976710656) / 60); [vm_compute; discriminate|].
      apply Qplus_le_compat; (apply Qmult_le_compat_r; [lra | discriminate]).
    + apply Qle_trans with (((1 # 200000) + (1 # 281474976710656)) / 3600
                            + (1 # 281474976710656) / 60); [|vm_compute; discriminate].
      apply Qplus_le_compat; (apply Qmult_le_compat_r; [lra | discriminate]).
  - rewrite X. split.
    + apply Qle_trans with ((- (1 # 281474976710656) + - (1 # 200000) + - (1 # 281474976710656)) / 3600
                            + - (1 # 281474976710656) / 60); [vm_compute; discriminate|].
      apply Qplus_le_compat; (apply Qmult_le_compat_r; [lra | discriminate]).
    + apply Qle_trans with (((1 # 281474976710656) + (1 # 200000) + (1 # 281474976710656)) / 3600
                            + (1 # 281474976710656) / 60); [|vm_compute; discriminate].
      apply Qplus_le_compat; (apply Qmult_le_compat_r; [lra | discriminate]).
Qed.

(** The sign read off the reference character. *)
Lemma signed_decode (v M eps : Q) (negativeRef positiveRef : string) :
  negativeRef <> positiveRef -> 0 <= M -> Qabs (M - Qabs v) <= eps ->
  Qabs ((if String.eqb (ref_char v negativeRef positiveRef) negativeRef then - M else M) - v)
  <= eps.
Proof.
  intros Hne M0 D.
  unfold ref_char. destruct (Qcompare_spec v 0) as [E|E|E].
  - assert (Ea : Qabs v == 0) by (rewrite E; reflexivity).
    rewrite Ea in D. rewrite E.
    destruct (String.eqb "" negativeRef).
    + apply Qabs_Qle_condition in D. apply Qabs_Qle_condition. lra.
    + exact D.
  - rewrite String.eqb_refl.
    assert (Ea : Qabs v == - v) by (apply Qabs_neg; lra).
    rewrite Ea in D. apply Qabs_Qle_condition in D. apply Qabs_Qle_condition. lra.
  - assert (Hs : String.eqb positiveRef negativeRef = false).
    { apply String.eqb_neq. congruence. }
    rewrite Hs.
    assert (Ea : Qabs v == v) by (apply Qabs_pos; lra).
    rewrite Ea in D. exact D.
Qed.

Lemma dms_nonneg (d m : Z) (s : Q) : (0 <= d)%Z -> (0 <= m)%Z -> 0 <= s ->
  0 <= inject_Z d + inject_Z m / 60 + s / 3600.
Proof.
  intros D M S.
  assert (A1 : 0 <= inject_Z d) by (change 0 with (inject_Z 0); rewrite <- Zle_Qle; lia).
  assert (A2 : 0 <= inject_Z m) by (change 0 with (inject_Z 0); rewrite <- Zle_Qle; lia).
  assert (A3 : 0 <= inject_Z m / 60) by (apply Qle_shift_div_l; [reflexivity | lra]).
  assert (A4 : 0 <= s / 3600) by (apply Qle_shift_div_l; [reflexivity | lra]).
  lra.
Qed.

(** X5: decoding the tuple of [to_deg] gives the value back to within
    1.39e-9 of a degree, for every finite float: half of 10^-5 second of
    arc and the rounding of the two products. *)
Theorem to_deg_precision (v : Q) (negativeRef positiveRef : string) :
  is_f64 v -> negativeRef <> positiveRef ->
  exists (t : Z * Z * pyfloat * string) (d : Q),
    to_deg (Fin v) [negativeRef; positiveRef] = Ok t /\
    dms_to_decimal t negativeRef = Some d /\
    Qabs (d - v) <= 139 # 100000000000.
Proof.
  intros H Hne. destruct (is_f64_abs_repr v H) as [R B].
  pose proof (dms_trace_exists (Qabs v) R B) as T.
  rewrite (to_deg_finite v negativeRef positiveRef H). unfold dms_contract.
  eexists. eexists. split; [reflexivity|]. cbn [dms_to_decimal]. split; [reflexivity|].
  set (a := Qabs v) in *. set (m := times60 (frac_part a)) in *.
  set (s := times60 (frac_part m)) in *. set (sec := round5 s) in *.
  apply signed_decode; [exact Hne | |].
  - apply dms_nonneg; [exact (tr_deg _ _ _ _ _ T) | apply (tr_min _ _ _ _ _ T)
                       | exact (tr_sec_lo _ _ _ _ _ T)].
  - apply (decode_error_sharp a m (frac_part m) s
             (inject_Z (round_half_even (s * 100000)) / 100000) sec).
    + apply frac_part_eq.
    + exact (tr_m_err _ _ _ _ _ T).
    + exact (tr_s_err _ _ _ _ _ T).
    + exact (tr_k_err _ _ _ _ _ T).
    + exact (tr_sec_err _ _ _ _ _ T).
Qed.

Lemma to_deg_precision_witness :
  exists (t : Z * Z * pyfloat * string) (d : Q),
    to_deg (Fin (- (7093169413108531 # 562949953421312))) ["W"; "E"]%string = Ok t /\
    dms_to_decimal t "W" = Some d /\
    Qabs (d - - (7093169413108531 # 562949953421312)) <= 139 # 100000000000.
Proof.
  apply (to_deg_precision (- (7093169413108531 # 562949953421312)) "W"%string "E"%string).
  - vm_compute. reflexivity.
  - discriminate.
Defined.

(** ** Fractions of the numbers of a coordinate *)

(** A fraction in lowest terms of a multiple of [1 / B] has a denominator
    that divides [B]. *)
Lemma lowest_terms_divides (num den K B : Z) :
  (0 < den)%Z -> (0 < B)%Z -> Z.gcd num den = 1%Z ->
  inject_Z num / inject_Z den == inject_Z K / inject_Z B ->
  (num * B = K * den)%Z /\ (den | B)%Z.
Proof.
  intros Hd HB G E.
  assert (X : (num * B = K * den)%Z).
  { apply (proj1 (inject_Z_injective _ _)). rewrite !inject_Z_mult.
    assert (D0 : ~ inject_Z den == 0).
    { change 0 with (inject_Z 0). rewrite inject_Z_injective. lia. }
    assert (B0 : ~ inject_Z B == 0).
    { change 0 with (inject_Z 0). rewrite inject_Z_injective. lia. }
    apply (Qmult_inj_r _ _ (/ inject_Z den * / inject_Z B)).
    - intros Z0. apply Qmult_integral in Z0. destruct Z0 as [Z0|Z0].
      + apply D0. rewrite <- (Qinv_involutive (inject_Z den)), Z0. reflexivity.
      + apply B0. rewrite <- (Qinv_involutive (inject_Z B)), Z0. reflexivity.
    - transitivity (inject_Z num / inject_Z den); [field; split; assumption|].
      rewrite E. field; split; assumption. }
  split; [exact X|].
  apply (Z.gauss den num B).
  - exists K. lia.
  - rewrite Z.gcd_comm. exact G.
Qed.

Lemma five_decimals_rational (K : Z) : (0 <= K <= 6000000)%Z ->
  exists num den : Z,
    change_to_rational (PFloat (round_f64 (inject_Z K / 100000))) = Ok (num, den) /\
    inject_Z num / inject_Z den == inject_Z K / 100000 /\
    (den | 100000)%Z /\ (0 < den)%Z /\ (0 <= num <= 6000000)%Z.
Proof.
  intros HK.
  assert (Kh : Qabs (inject_Z K / 100000) < 2 ^ 36).
  { rewrite Qabs_pos.
    - apply Qlt_shift_div_r; [reflexivity|].
      apply Qle_lt_trans with (inject_Z 6000000); [rewrite <- Zle_Qle; lia | reflexivity].
    - apply Qle_shift_div_l; [reflexivity|]. rewrite Qmult_0_l.
      change 0 with (inject_Z 0). rewrite <- Zle_Qle. lia. }
  destruct (five_digits_text K Kh) as (q & R & F & T).
  rewrite R.
  rewrite (change_to_rational_text (PFloat (Fin q)) _ T).
  destruct (lowest_terms (inject_Z K / 100000)) as (D & G & V).
  set (num := Qnum (Qred (inject_Z K / 100000))) in *.
  set (den := Zpos (Qden (Qred (inject_Z K / 100000)))) in *.
  exists num, den. split; [reflexivity|]. split; [exact V|].
  destruct (lowest_terms_divides num den K 100000 D ltac:(lia) G V) as [X Dv].
  split; [exact Dv|]. split; [exact D|].
  destruct Dv as [c Hc].
  assert (C0 : (0 < c)%Z) by nia.
  assert (NK : (num * c = K)%Z).
  { apply (Z.mul_cancel_r _ _ den); [lia|]. rewrite <- X, Hc. ring. }
  nia.
Qed.

(** A decimal text writes a multiple of a negative power of ten. *)
Lemma decimal_value_scaled (neg : bool) (ip : string) (p : option string)
      (x : option (bool * string)) :
  exists K k : Z, (0 <= k)%Z /\
    decimal_value neg ip p x == inject_Z K / inject_Z (10 ^ k).
Proof.
  unfold decimal_value.
  set (fp := default ""%string p).
  set (N := signed neg (int_of_digits ip * 10 ^ Z.of_nat (String.length fp)
                        + int_of_digits fp)%Z).
  set (e := match x with
            | Some (eneg, eds) => signed eneg (int_of_digits eds)
            | None => 0%Z
            end).
  set (a := Z.of_nat (String.length fp)).
  assert (Ha : (0 <= a)%Z) by (unfold a; lia).
  assert (P : forall k : Z, (0 <= k)%Z -> ~ inject_Z (10 ^ k) == 0).
  { intros k Hk. change 0 with (inject_Z 0). rewrite inject_Z_injective.
    pose proof (Z.pow_pos_nonneg 10 k ltac:(lia) Hk). lia. }
  destruct (Z_le_gt_dec 0 e) as [He|He].
  - exists (N * 10 ^ e)%Z, a. split; [exact Ha|].
    rewrite (pow10_Z e He), inject_Z_mult. field. apply P, Ha.
  - exists N, (a + - e)%Z. split; [lia|].
    replace e with (- - e)%Z at 1 by lia.
    rewrite pow10_opp, (pow10_Z (- e)) by lia.
    rewrite Z.pow_add_r by lia. rewrite inject_Z_mult.
    field. split; apply P; lia.
Qed.

Lemma decimal_text_denominator (s : string) (v : Q) : decimal_text s v ->
  exists k : Z, (0 <= k)%Z /\ (Zpos (Qden (Qred v)) | 10 ^ k)%Z.
Proof.
  intros (neg & ip & p & x & _ & _ & _ & _ & _ & V).
  destruct (decimal_value_scaled neg ip p x) as (K & k & Hk & E).
  exists k. split; [exact Hk|].
  destruct (lowest_terms v) as (D & G & L).
  assert (P : (0 < 10 ^ k)%Z) by (apply Z.pow_pos_nonneg; lia).
  assert (X : inject_Z (Qnum (Qred v)) / inject_Z (Zpos (Qden (Qred v)))
              == inject_Z K / inject_Z (10 ^ k)) by (rewrite L, <- V; exact E).
  exact (proj2 (lowest_terms_divides _ _ K (10 ^ k) D P G X)).
Qed.

(** X6: [change_to_rational] returns on the ints and on the finite
    floats, with a positive denominator that divides a power of ten; on
    NaN and on the infinities [Fraction] refuses the text and
    [ValueError] is raised. *)
Theorem change_to_rational_domain (number : pynum) :
  (forall q : Q, number = PFloat (Fin q) -> is_f64 q) ->
  (finite_number number /\
   exists (num den k : Z),
     change_to_rational number = Ok (num, den) /\
     (0 < den)%Z /\ (0 <= k)%Z /\ (den | 10 ^ k)%Z) \/
  (~ finite_number number /\ change_to_rational number = Raise ValueError).
Proof.
  intros V.
  assert (F : finite_number number ->
              exists (num den k : Z),
                change_to_rational number = Ok (num, den) /\
                (0 < den)%Z /\ (0 <= k)%Z /\ (den | 10 ^ k)%Z).
  { intros H. destruct (str_text number H) as [v T].
    destruct (decimal_text_denominator _ _ T) as (k & Hk & Dv).
    exists (Qnum (Qred v)), (Zpos (Qden (Qred v))), k.
    split; [apply change_to_rational_text, T|]. split; [reflexivity|]. split; assumption. }
  destruct number as [n|[q|[|]|]].
  - left. split; [exact I | apply F; exact I].
  - left. split; [exact (V q eq_refl) | apply F; exact (V q eq_refl)].
  - right. split; [intros C; exact C | reflexivity].
  - right. split; [intros C; exact C | reflexivity].
  - right. split; [intros C; exact C | reflexivity].
Qed.

Lemma change_to_rational_domain_witness :
  (finite_number (PFloat (Fin (3401765831036633 # 70368744177664))) /\
   exists (num den k : Z),
     change_to_rational (PFloat (Fin (3401765831036633 # 70368744177664))) = Ok (num, den) /\
     (0 < den)%Z /\ (0 <= k)%Z /\ (den | 10 ^ k)%Z) \/
  (~ finite_number (PFloat (Fin (3401765831036633 # 70368744177664))) /\
   change_to_rational (PFloat (Fin (3401765831036633 # 70368744177664))) = Raise ValueError).
Proof.
  apply (change_to_rational_domain (PFloat (Fin (3401765831036633 # 70368744177664)))).
  intros q [= <-]. vm_compute. reflexivity.
Defined.

(** X7: an int is its own numerator, over 1: no digit is lost or added
    on the way through its text, whatever its sign and size. *)
Theorem change_to_rational_of_int (n : Z) :
  Fraction (str (PInt n)) = Ok (inject_Z n) /\
  change_to_rational (PInt n) = Ok (n, 1%Z).
Proof.
  split; [apply Fraction_str_int | apply change_to_rational_int].
Qed.

(** ** The text of a float reads back as the float *)

Lemma rhe_near (y : Q) (k : Z) : Qabs (y - inject_Z k) < 1 # 2 -> round_half_even y = k.
Proof.
  intros H. pose proof (rhe_error y) as E.
  apply Qabs_Qlt_condition in H. apply Qabs_Qle_condition in E.
  apply int_within_one; generalize dependent (inject_Z (round_half_even y));
    generalize dependent (inject_Z k); intros; lra.
Qed.

Lemma rnd_near (c : Q) (k e : Z) :
  ulp_exp c = e -> Qabs (c * 2 ^ (- e) - inject_Z k) < 1 # 2 ->
  rnd c == inject_Z k * 2 ^ e.
Proof.
  intros He H. rewrite rnd_eq, He, (rhe_near _ k H). reflexivity.
Qed.

(** Scaling by the unit in the last place and back. *)
Lemma scale_back (c : Q) (g : Z) : c == c * 2 ^ (- g) * 2 ^ g.
Proof.
  rewrite <- Qmult_assoc, (Qmult_comm (2 ^ (- g))), pow2_cancel. ring.
Qed.

Lemma scaled_bound_lt (y : Q) (g n : Z) : y < 2 ^ n -> y * 2 ^ g < 2 ^ (g + n).
Proof.
  intros H. rewrite pow2_add, (Qmult_comm (2 ^ g)).
  apply Qmult_lt_compat_r; [apply pow2_pos | exact H].
Qed.

Lemma scaled_bound_le (y : Q) (g n : Z) : 2 ^ n <= y -> 2 ^ (g + n) <= y * 2 ^ g.
Proof.
  intros H. rewrite pow2_add, (Qmult_comm (2 ^ g)).
  apply Qmult_le_compat_r; [exact H | apply Qlt_le_weak, pow2_pos].
Qed.

(** The significand of a positive float. *)
Lemma f64_anatomy (a : Q) : is_f64 a -> 0 < a ->
  exists j : Z,
    a == inject_Z j * 2 ^ ulp_exp a /\ (1 <= j < 2 ^ prec)%Z /\
    ((emin < ulp_exp a)%Z -> (2 ^ (prec - 1) <= j)%Z).
Proof.
  intros H P. destruct (is_f64_rnd a H) as [R _].
  pose proof (rnd_eq a) as E. rewrite R in E.
  set (g := ulp_exp a) in *. set (j := round_half_even (a * 2 ^ (- g))) in *.
  assert (Ha : ~ a == 0) by (intros C; rewrite C in P; discriminate).
  destruct (ilog2_spec a Ha) as [L U]. rewrite Qabs_pos in L, U by (apply Qlt_le_weak, P).
  pose proof (pow2_pos g) as Pg.
  assert (J : a * 2 ^ (- g) == inject_Z j).
  { rewrite E at 1. rewrite <- Qmult_assoc, pow2_cancel. ring. }
  assert (G : (ilog2 a - (prec - 1) <= g)%Z).
  { unfold g, ulp_exp. destruct (Qeq_bool a 0) eqn:E0; [|lia].
    apply Qeq_bool_iff in E0. contradiction. }
  exists j. split; [exact E|]. split; [split|].
  - assert (0 < inject_Z j).
    { rewrite <- J. apply Qmult_lt_0_compat; [exact P | apply pow2_pos]. }
    change 0 with (inject_Z 0) in H0. rewrite <- Zlt_Qlt in H0. lia.
  - rewrite Zlt_Qlt, <- pow2_Z by (unfold prec; lia). rewrite <- J.
    replace prec with (- g + (g + prec))%Z by lia.
    apply scaled_bound_lt. apply Qlt_le_trans with (1 := U). apply pow2_le.
    unfold prec in *. lia.
  - intros Hg.
    assert (G' : g = (ilog2 a - (prec - 1))%Z).
    { unfold g, ulp_exp in *. destruct (Qeq_bool a 0); lia. }
    rewrite Zle_Qle, <- pow2_Z by (unfold prec; lia). rewrite <- J.
    replace (prec - 1)%Z with (- g + ilog2 a)%Z by lia.
    apply scaled_bound_le. exact L.
Qed.

Lemma ulp_exp_ge_of (c : Q) (n : Z) : 2 ^ n <= c -> (n - (prec - 1) <= ulp_exp c)%Z.
Proof.
  intros H. pose proof (pow2_pos n) as Pn.
  assert (Hc : ~ c == 0) by (intros C; rewrite C in H; lra).
  destruct (ilog2_spec c Hc) as [_ U]. rewrite Qabs_pos in U by lra.
  assert (X : (n < ilog2 c + 1)%Z) by (apply pow2_lt_inv; lra).
  unfold ulp_exp. destruct (Qeq_bool c 0) eqn:E0.
  - apply Qeq_bool_iff in E0. contradiction.
  - lia.
Qed.

(** A number close enough to a float is rounded to it: closer than half
    a unit in the last place, and than a quarter of it at a power of
    two, below which the floats are twice as dense. *)
Lemma rnd_close (a c : Q) (j : Z) :
  a == inject_Z j * 2 ^ ulp_exp a -> (1 <= j < 2 ^ prec)%Z ->
  ((emin < ulp_exp a)%Z -> (2 ^ (prec - 1) <= j)%Z) ->
  Qabs (c * 2 ^ (- ulp_exp a) - inject_Z j) < 1 # 2 ->
  (j = (2 ^ (prec - 1))%Z -> Qabs (c * 2 ^ (- ulp_exp a) - inject_Z j) < 1 # 4) ->
  rnd c == a.
Proof.
  intros E Hj Hn D D4. set (g := ulp_exp a) in *.
  set (y := c * 2 ^ (- g)) in *.
  assert (Ec : c == y * 2 ^ g) by apply scale_back.
  pose proof (ulp_exp_ge a) as Gmin. fold g in Gmin.
  assert (J1 : 1 <= inject_Z j) by (change 1 with (inject_Z 1); rewrite <- Zle_Qle; lia).
  assert (J2 : inject_Z j <= inject_Z (2 ^ prec) - 1).
  { change 1 with (inject_Z 1). unfold Qminus. rewrite <- inject_Z_opp, <- inject_Z_plus, <- Zle_Qle. lia. }
  rewrite <- pow2_Z in J2 by (unfold prec; lia).
  apply Qabs_Qlt_condition in D. destruct D as [D1 D2].
  assert (Y0 : 0 < y) by lra.
  assert (C0 : 0 < c).
  { rewrite Ec. apply Qmult_lt_0_compat; [exact Y0 | apply pow2_pos]. }
  assert (Up : (ulp_exp c <= g)%Z).
  { apply (ulp_exp_le c (g + prec)); [|exact Gmin | lia].
    rewrite Qabs_pos by (apply Qlt_le_weak, C0). rewrite Ec.
    apply scaled_bound_lt. plra. }
  assert (Same : ulp_exp c = g -> rnd c == a).
  { intros S. rewrite E. apply rnd_near; [exact S|]. fold y.
    apply Qabs_Qlt_condition. split; assumption. }
  destruct (Z.eq_dec g emin) as [Ge|Ge].
  { apply Same. pose proof (ulp_exp_ge c). lia. }
  assert (Hj52 : (2 ^ (prec - 1) <= j)%Z) by (apply Hn; lia).
  assert (J3 : inject_Z (2 ^ (prec - 1)) <= inject_Z j) by (rewrite <- Zle_Qle; exact Hj52).
  rewrite <- pow2_Z in J3 by (unfold prec; lia).
  destruct (Qlt_le_dec y (2 ^ (prec - 1))) as [Lo|Hi].
  - (* below the power of two *)
    assert (Je : j = (2 ^ (prec - 1))%Z).
    { assert (X : inject_Z j < inject_Z (2 ^ (prec - 1) + 1)).
      { rewrite inject_Z_plus, <- pow2_Z by (unfold prec; lia). change (inject_Z 1) with 1. plra. }
      rewrite <- Zlt_Qlt in X. lia. }
    specialize (D4 Je). apply Qabs_Qlt_condition in D4. destruct D4 as [D3 D4].
    assert (Jq : inject_Z j == 2 ^ (prec - 1)).
    { rewrite Je. symmetry. apply pow2_Z. unfold prec. lia. }
    assert (S : ulp_exp c = (g - 1)%Z).
    { assert (I : ilog2 c = (g + (prec - 2))%Z).
      { apply ilog2_unique; rewrite Qabs_pos by (apply Qlt_le_weak, C0); rewrite Ec.
        - apply scaled_bound_le.
          assert (P2 : 2 ^ (prec - 1) == 2 * 2 ^ (prec - 2)) by reflexivity.
          assert (P3 : 1 <= 2 ^ (prec - 2)) by (vm_compute; discriminate).
          rewrite Jq in D3. rewrite P2 in D3. plra.
        - replace (g + (prec - 2) + 1)%Z with (g + (prec - 1))%Z by lia.
          apply scaled_bound_lt. exact Lo. }
      unfold ulp_exp. destruct (Qeq_bool c 0) eqn:E0.
      - apply Qeq_bool_iff in E0. rewrite E0 in C0. discriminate.
      - rewrite I. unfold prec in *. lia. }
    rewrite (rnd_near c (2 ^ prec) (g - 1) S).
    + rewrite E, Je. rewrite <- !pow2_Z by (unfold prec; lia).
      rewrite <- !pow2_add. replace (prec + (g - 1))%Z with (prec - 1 + g)%Z by lia. reflexivity.
    + assert (Y2 : c * 2 ^ (- (g - 1)) == 2 * y).
      { unfold y. replace (- (g - 1))%Z with (- g + 1)%Z by lia. rewrite pow2_succ. ring. }
      rewrite Y2, <- pow2_Z by (unfold prec; lia).
      assert (P2 : 2 ^ prec == 2 * 2 ^ (prec - 1)) by reflexivity.
      rewrite P2. rewrite Jq in D3, D4.
      apply Qabs_Qlt_condition. split; plra.
  - apply Same.
    assert (X : (g + (prec - 1) - (prec - 1) <= ulp_exp c)%Z).
    { apply ulp_exp_ge_of. rewrite Ec. apply scaled_bound_le. exact Hi. }
    lia.
Qed.

Lemma pow10_cancel (e : Z) : 10 ^ e * 10 ^ (- e) == 1.
Proof. rewrite <- pow10_add. replace (e + - e)%Z with 0%Z by lia. reflexivity. Qed.

(** Seventeen significant digits tell a float from its neighbours. *)
Lemma seventeen_digits (a : Q) (e10 : Z) : is_f64 a -> 0 < a -> 10 ^ e10 <= a ->
  rnd (inject_Z (round_half_even (a * 10 ^ (- (e10 - 17 + 1)))) * 10 ^ (e10 - 17 + 1)) == a.
Proof.
  intros H P L. set (e := (e10 - 17 + 1)%Z).
  destruct (f64_anatomy a H P) as (j & E & Hj & Hn).
  set (g := ulp_exp a) in *.
  set (C := inject_Z (round_half_even (a * 10 ^ (- e)))).
  pose proof (rhe_error (a * 10 ^ (- e))) as R. fold C in R.
  pose proof (pow10_pos e) as T0. pose proof (pow2_pos g) as U0.
  pose proof (pow2_pos (- g)) as V0.
  pose proof (pow10_cancel e) as TC. pose proof (pow2_cancel g) as UC.
  assert (L' : 10 ^ e * 10000000000000000 <= a).
  { apply Qle_trans with (2 := L). replace e10 with (e + 16)%Z by (unfold e; lia).
    rewrite pow10_add. apply Qle_refl. }
  assert (J2 : inject_Z j <= 9007199254740991).
  { change 9007199254740991 with (inject_Z (2 ^ prec - 1)). rewrite <- Zle_Qle. lia. }
  (* the distance in units of the last place *)
  set (t := 10 ^ e * 2 ^ (- g)).
  assert (JX : inject_Z j == a * 2 ^ (- g)).
  { rewrite E at 1. rewrite <- Qmult_assoc, UC. ring. }
  assert (Ht : t * 10000000000000000 <= inject_Z j).
  { rewrite JX. unfold t.
    assert (Y : 10 ^ e * 2 ^ (- g) * 10000000000000000
                == 10 ^ e * 10000000000000000 * 2 ^ (- g)) by ring.
    rewrite Y.
    apply Qmult_le_compat_r; [exact L' | apply Qlt_le_weak, V0]. }
  assert (T1 : 0 < t) by (apply Qmult_lt_0_compat; assumption).
  assert (D : Qabs (C * 10 ^ e * 2 ^ (- g) - inject_Z j) <= t * (1 # 2)).
  { assert (X : C * 10 ^ e * 2 ^ (- g) - inject_Z j == (C - a * 10 ^ (- e)) * t).
    { unfold t.
      transitivity (C * 10 ^ e * 2 ^ (- g) - a * 2 ^ (- g) * (10 ^ e * 10 ^ (- e))); [|ring].
      rewrite TC, <- JX. ring. }
    rewrite X, Qabs_Qmult, (Qabs_pos t) by (apply Qlt_le_weak, T1).
    rewrite (Qmult_comm _ t). apply Qmult_le_l; [exact T1 | exact R]. }
  apply (rnd_close a _ j E Hj Hn); fold g.
  - apply Qle_lt_trans with (1 := D). lra.
  - intros Je. apply Qle_lt_trans with (1 := D).
    assert (X : inject_Z j = 4503599627370496) by (rewrite Je; reflexivity).
    rewrite X in Ht. lra.
Qed.

Lemma reads_as_comp (a c c' : Q) : c == c' -> reads_as a c = reads_as a c'.
Proof. intros H. unfold reads_as. rewrite (round_f64_comp c c' H). reflexivity. Qed.

Lemma shortest_from_reads (a : Q) (e10 : Z) : is_f64 a -> 0 < a -> 10 ^ e10 <= a ->
  forall (fuel : nat) (n : Z), (n + Z.of_nat fuel = 17)%Z ->
    rnd (inject_Z (fst (shortest_from fuel n e10 a)) * 10 ^ snd (shortest_from fuel n e10 a))
    == a.
Proof.
  intros H P L. induction fuel as [|fuel IH]; intros n Hn; cbn [shortest_from].
  - cbn [fst snd]. replace n with 17%Z by lia. apply seventeen_digits; assumption.
  - set (e := (e10 - n + 1)%Z). set (y := a * 10 ^ (- e)).
    destruct (reads_as a (inject_Z (Qfloor y) * 10 ^ e)) eqn:R1;
      destruct (reads_as a (inject_Z (Qfloor y + 1) * 10 ^ e)) eqn:R2; cbn [fst snd].
    + destruct (rhe_cases y) as [[-> _]|[-> _]]; apply reads_as_rnd; assumption.
    + apply reads_as_rnd, R1.
    + apply reads_as_rnd, R2.
    + apply IH. lia.
Qed.

Lemma repr_digits_reads (a : Q) : is_f64 a -> 0 < a ->
  rnd (inject_Z (fst (repr_digits a)) * 10 ^ snd (repr_digits a)) == a.
Proof.
  intros H P.
  assert (Ha : ~ a == 0) by (intros C; rewrite C in P; discriminate).
  destruct (f64_magnitude a H Ha) as [M1 M2]. rewrite Qabs_pos in M1, M2 by (apply Qlt_le_weak, P).
  destruct (ilog10_spec a M1 M2) as [L _].
  pose proof (shortest_from_reads a (ilog10 a) H P L 16 1 ltac:(lia)) as S.
  pose proof (shortest_from_pos 16 1 (ilog10 a) a ltac:(lia) L) as D.
  unfold repr_digits. destruct (shortest_from 16 1 (ilog10 a) a) as [d e].
  cbn [fst snd] in *.
  pose proof (strip_zeros_spec 17 d e D) as Z.
  destruct (strip_zeros 17 d e) as [d' e']. cbn [fst snd]. destruct Z as [_ V].
  rewrite (rnd_comp _ _ V). exact S.
Qed.

Lemma Qred_f64 (q : Q) : is_f64 q -> Qred q = q.
Proof.
  intros H. destruct (is_f64_rnd q H) as [R _]. rewrite <- R. unfold rnd.
  apply Qcanon.Qred_involutive.
Qed.

Lemma repr_value_reads (q : Q) : is_f64 q -> round_f64 (repr_value q) = Fin q.
Proof.
  intros H. destruct (is_f64_rnd q H) as [R B].
  assert (G : forall c : Q, rnd c == q -> round_f64 c = Fin q).
  { intros c Hc. rewrite round_f64_fin by (rewrite Hc; exact B).
    rewrite (rnd_canon _ _ Hc), (Qred_f64 q H). reflexivity. }
  unfold repr_value. destruct (Qcompare_spec q 0) as [E|E|E].
  - apply G. rewrite (rnd_comp 0 q) by (symmetry; exact E). rewrite R. reflexivity.
  - assert (Pa : 0 < Qabs q) by (rewrite Qabs_neg by lra; lra).
    assert (Fa : is_f64 (Qabs q)).
    { assert (X : Qabs q = - q).
      { destruct q as [[|n|n] d]; try reflexivity; exfalso; revert E; unfold Qlt; cbn; lia. }
      rewrite X. apply is_f64_opp, H. }
    pose proof (repr_digits_reads (Qabs q) Fa Pa) as S.
    destruct (repr_digits (Qabs q)) as [d e]. cbn [fst snd] in S.
    apply G. rewrite rnd_opp, S. rewrite Qabs_neg by lra. ring.
  - assert (Pa : 0 < Qabs q) by (rewrite Qabs_pos by lra; lra).
    assert (Fa : is_f64 (Qabs q)).
    { assert (X : Qabs q = q).
      { destruct q as [[|n|n] d]; try reflexivity; exfalso; revert E; unfold Qlt; cbn; lia. }
      rewrite X. exact H. }
    pose proof (repr_digits_reads (Qabs q) Fa Pa) as S.
    destruct (repr_digits (Qabs q)) as [d e]. cbn [fst snd] in S.
    apply G. rewrite S. apply Qabs_pos. lra.
Qed.

(** ** What [change_to_rational] returns *)





(** X8: the pair of a float gives the float back: the float nearest to
    numerator / denominator is the argument: the text that [str] writes
    loses nothing of it. *)
Theorem change_to_rational_reads_back (q : Q) :
  is_f64 q ->
  exists num den : Z,
    change_to_rational (PFloat (Fin q)) = Ok (num, den) /\
    (0 < den)%Z /\
    round_f64 (inject_Z num / inject_Z den) = Fin q.
Proof.
  intros H. rewrite (change_to_rational_float q H).
  destruct (lowest_terms (repr_value q)) as (D & _ & V).
  eexists. eexists. split; [reflexivity|]. split; [exact D|].
  rewrite (round_f64_comp _ _ V). apply repr_value_reads, H.
Qed.

Lemma change_to_rational_reads_back_witness :
  exists num den : Z,
    change_to_rational (PFloat (Fin (3550820201266319 # 140737488355328))) = Ok (num, den) /\
    (0 < den)%Z /\
    round_f64 (inject_Z num / inject_Z den) = Fin (3550820201266319 # 140737488355328).
Proof.
  apply (change_to_rational_reads_back (3550820201266319 # 140737488355328)).
  vm_compute. reflexivity.
Defined.

(** ** The block of [set_gps_location] *)

(** One coordinate on its way into the block: the tuple of [to_deg] and
    its three rationals. *)
Lemma exiv_coordinate (v : Q) (negativeRef positiveRef : string) :
  is_f64 v ->
  exists deg min K num den : Z,
    to_deg (Fin v) [negativeRef; positiveRef]
    = Ok (deg, min, round_f64 (inject_Z K / 100000), ref_char v negativeRef positiveRef) /\
    exiv deg min (round_f64 (inject_Z K / 100000)) = Ok ((deg, 1%Z), (min, 1%Z), (num, den)) /\
    (0 <= deg)%Z /\ inject_Z deg <= Qabs v /\ (0 <= min <= 59)%Z /\
    (0 <= K <= 6000000)%Z /\
    inject_Z num / inject_Z den == inject_Z K / 100000 /\
    (den | 100000)%Z /\ (0 < den)%Z /\ (0 <= num <= 6000000)%Z /\
    Qabs (inject_Z deg + inject_Z min / 60 + inject_Z K / 100000 / 3600 - Qabs v)
    <= 139 # 100000000000.
Proof.
  intros H. destruct (is_f64_abs_repr v H) as [R B].
  pose proof (dms_trace_exists (Qabs v) R B) as T.
  rewrite (to_deg_finite v _ _ H). unfold dms_contract.
  set (a := Qabs v) in *. set (m := times60 (frac_part a)) in *.
  set (s := times60 (frac_part m)) in *.
  pose proof (tr_s_lo _ _ _ _ _ T) as S0. pose proof (tr_s_hi _ _ _ _ _ T) as S1.
  destruct (round5_range s S0 S1) as ((K0 & K1) & _).
  pose proof (five_decimal_count s S0 S1) as HK.
  destruct (five_decimals_rational _ HK) as (num & den & C & V & Dv & D0 & N).
  exists (truncate a), (truncate m), (round_half_even (s * 100000)), num, den.
  split; [rewrite (round_f64_upto60 _ K0 K1); reflexivity|].
  split.
  { unfold exiv. rewrite !change_to_rational_int. cbn [rbind]. rewrite C. reflexivity. }
  split; [exact (tr_deg _ _ _ _ _ T)|].
  split; [rewrite truncate_nonneg by (apply Qabs_nonneg); apply Qfloor_le|].
  split; [exact (tr_min _ _ _ _ _ T)|].
  split; [exact HK|].
  do 4 (split; [assumption|]).
  apply (decode_error_sharp a m (frac_part m) s
           (inject_Z (round_half_even (s * 100000)) / 100000) (round5 s)).
  - apply frac_part_eq.
  - exact (tr_m_err _ _ _ _ _ T).
  - exact (tr_s_err _ _ _ _ _ T).
  - exact (tr_k_err _ _ _ _ _ T).
  - exact (tr_sec_err _ _ _ _ _ T).
Qed.

Lemma dms_value_eq (deg min num den K : Z) :
  inject_Z num / inject_Z den == inject_Z K / 100000 ->
  dms_value ((deg, 1%Z), (min, 1%Z), (num, den))
  == inject_Z deg + inject_Z min / 60 + inject_Z K / 100000 / 3600.
Proof.
  intros V. unfold dms_value, rational_value. cbn [fst snd]. rewrite V.
  change (inject_Z 1) with 1. field.
Qed.

Lemma coordinate_decodes (v : Q) (negativeRef positiveRef : string) (deg min num den K : Z) :
  negativeRef <> positiveRef ->
  (0 <= deg)%Z -> (0 <= min)%Z -> (0 <= K)%Z ->
  inject_Z num / inject_Z den == inject_Z K / 100000 ->
  Qabs (inject_Z deg + inject_Z min / 60 + inject_Z K / 100000 / 3600 - Qabs v)
  <= 139 # 100000000000 ->
  Qabs (signed_degrees (ref_char v negativeRef positiveRef) negativeRef
          ((deg, 1%Z), (min, 1%Z), (num, den)) - v) <= 139 # 100000000000.
Proof.
  intros Hne D M HK V E. unfold signed_degrees.
  pose proof (dms_value_eq deg min num den K V) as X.
  assert (K0 : 0 <= inject_Z K / 100000).
  { apply Qle_shift_div_l; [reflexivity|]. rewrite Qmult_0_l.
    change 0 with (inject_Z 0). rewrite <- Zle_Qle. exact HK. }
  pose proof (dms_nonneg deg min _ D M K0) as P.
  rewrite <- X in E, P.
  apply signed_decode; assumption.
Qed.

(** X9: the latitude and the longitude that a reader of the block
    computes from the references and the rationals are the ones given,
    to within 1.39e-9 of a degree. *)
Theorem gps_block_decodes (lat lng altitude : Q) :
  is_f64 lat -> is_f64 lng -> is_f64 altitude ->
  exists block : gps_ifd,
    gps_ifd_of (Fin lat) (Fin lng) (Fin altitude) = Ok block /\
    Qabs (latitude_of block - lat) <= 139 # 100000000000 /\
    Qabs (longitude_of block - lng) <= 139 # 100000000000.
Proof.
  intros Hlat Hlng Halt.
  destruct (exiv_coordinate lat "S" "N" Hlat)
    as (d1 & m1 & K1 & n1 & e1 & T1 & X1 & D1 & _ & M1 & HK1 & V1 & _ & _ & _ & E1).
  destruct (exiv_coordinate lng "W" "E" Hlng)
    as (d2 & m2 & K2 & n2 & e2 & T2 & X2 & D2 & _ & M2 & HK2 & V2 & _ & _ & _ & E2).
  unfold gps_ifd_of. rewrite T1, T2. cbn [rbind]. rewrite X1, X2. cbn [rbind py_round].
  rewrite change_to_rational_int. cbn [rbind].
  eexists. split; [reflexivity|].
  unfold latitude_of, longitude_of. cbn [GPSLatitudeRef GPSLatitude GPSLongitudeRef GPSLongitude].
  split.
  - apply (coordinate_decodes lat "S" "N" d1 m1 n1 e1 K1); try assumption; try lia. discriminate.
  - apply (coordinate_decodes lng "W" "E" d2 m2 n2 e2 K2); try assumption; try lia. discriminate.
Qed.

Lemma gps_block_decodes_witness :
  exists block : gps_ifd,
    gps_ifd_of (Fin (3550820201266319 # 140737488355328)) (Fin (- (161 # 2)))
               (Fin (- (7093169413108531 # 562949953421312))) = Ok block /\
    Qabs (latitude_of block - (3550820201266319 # 140737488355328)) <= 139 # 100000000000 /\
    Qabs (longitude_of block - - (161 # 2)) <= 139 # 100000000000.
Proof.
  apply (gps_block_decodes (3550820201266319 # 140737488355328) (- (161 # 2))
           (- (7093169413108531 # 562949953421312))); vm_compute; reflexivity.
Defined.

(** X10: the references and the rationals of the two coordinates in the
    block, for coordinates below 2^32 in magnitude.  The references are
    S or N and W or E by the sign, empty at zero; degrees and minutes are
    over 1, the seconds are over a divisor of 100000 and at most 60; and
    all six pairs are unsigned 32-bit rationals, as EXIF stores them. *)
Theorem gps_block_rationals (lat lng altitude : Q) :
  is_f64 lat -> is_f64 lng -> is_f64 altitude ->
  Qabs lat < 2 ^ 32 -> Qabs lng < 2 ^ 32 ->
  exists (block : gps_ifd) (lat_d lat_m lng_d lng_m : Z) (lat_s lng_s : rational),
    gps_ifd_of (Fin lat) (Fin lng) (Fin altitude) = Ok block /\
    GPSLatitudeRef block = ref_char lat "S" "N" /\
    GPSLongitudeRef block = ref_char lng "W" "E" /\
    GPSLatitude block = ((lat_d, 1%Z), (lat_m, 1%Z), lat_s) /\
    GPSLongitude block = ((lng_d, 1%Z), (lng_m, 1%Z), lng_s) /\
    (0 <= lat_d < 2 ^ 32)%Z /\ (0 <= lat_m <= 59)%Z /\
    (0 <= lng_d < 2 ^ 32)%Z /\ (0 <= lng_m <= 59)%Z /\
    (snd lat_s | 100000)%Z /\ (snd lng_s | 100000)%Z /\
    unsigned_rational lat_s /\ unsigned_rational lng_s /\
    rational_value lat_s <= 60 /\ rational_value lng_s <= 60.
Proof.
  intros Hlat Hlng Halt Blat Blng.
  destruct (exiv_coordinate lat "S" "N" Hlat)
    as (d1 & m1 & K1 & n1 & e1 & T1 & X1 & D1 & L1 & M1 & HK1 & V1 & Dv1 & P1 & N1 & _).
  destruct (exiv_coordinate lng "W" "E" Hlng)
    as (d2 & m2 & K2 & n2 & e2 & T2 & X2 & D2 & L2 & M2 & HK2 & V2 & Dv2 & P2 & N2 & _).
  unfold gps_ifd_of. rewrite T1, T2. cbn [rbind]. rewrite X1, X2. cbn [rbind py_round].
  rewrite change_to_rational_int. cbn [rbind].
  assert (U : forall (d : Z) (v : Q), inject_Z d <= Qabs v -> Qabs v < 2 ^ 32 -> (d < 2 ^ 32)%Z).
  { intros d v A B. rewrite Zlt_Qlt. apply Qle_lt_trans with (1 := A).
    apply Qlt_le_trans with (1 := B). vm_compute. discriminate. }
  assert (W : forall n e : Z, (e | 100000)%Z -> (0 < e)%Z -> (0 <= n <= 6000000)%Z ->
                unsigned_rational (n, e)).
  { intros n e Dv P N. unfold unsigned_rational. cbn [fst snd].
    apply Z.divide_pos_le in Dv; lia. }
  assert (S60 : forall n e K : Z, inject_Z n / inject_Z e == inject_Z K / 100000 ->
                  (K <= 6000000)%Z -> rational_value (n, e) <= 60).
  { intros n e K V HK. unfold rational_value. cbn [fst snd]. rewrite V.
    apply Qle_shift_div_r; [reflexivity|].
    apply Qle_trans with (inject_Z 6000000); [rewrite <- Zle_Qle; exact HK | vm_compute; discriminate]. }
  exists {| GPSVersionID := (2, 0, 0, 0)%Z; GPSAltitudeRef := 1%Z;
            GPSAltitude := (round_half_even altitude, 1%Z);
            GPSLatitudeRef := ref_char lat "S" "N";
            GPSLatitude := ((d1, 1%Z), (m1, 1%Z), (n1, e1));
            GPSLongitudeRef := ref_char lng "W" "E";
            GPSLongitude := ((d2, 1%Z), (m2, 1%Z), (n2, e2)) |},
         d1, m1, d2, m2, (n1, e1), (n2, e2).
  cbn [GPSLatitudeRef GPSLatitude GPSLongitudeRef GPSLongitude snd].
  do 5 (split; [reflexivity|]).
  split; [split; [exact D1 | apply (U d1 lat); assumption]|].
  split; [exact M1|].
  split; [split; [exact D2 | apply (U d2 lng); assumption]|].
  split; [exact M2|].
  split; [exact Dv1|]. split; [exact Dv2|].
  split; [apply W; assumption|]. split; [apply W; assumption|].
  split; [apply (S60 n1 e1 K1); [exact V1 | lia] | apply (S60 n2 e2 K2); [exact V2 | lia]].
Qed.

Lemma gps_block_rationals_witness :
  exists (block : gps_ifd) (lat_d lat_m lng_d lng_m : Z) (lat_s lng_s : rational),
    gps_ifd_of (Fin (3550820201266319 # 140737488355328)) (Fin (- (161 # 2)))
               (Fin (- (7093169413108531 # 562949953421312))) = Ok block /\
    GPSLatitudeRef block = ref_char (3550820201266319 # 140737488355328) "S" "N" /\
    GPSLongitudeRef block = ref_char (- (161 # 2)) "W" "E" /\
    GPSLatitude block = ((lat_d, 1%Z), (lat_m, 1%Z), lat_s) /\
    GPSLongitude block = ((lng_d, 1%Z), (lng_m, 1%Z), lng_s) /\
    (0 <= lat_d < 2 ^ 32)%Z /\ (0 <= lat_m <= 59)%Z /\
    (0 <= lng_d < 2 ^ 32)%Z /\ (0 <= lng_m <= 59)%Z /\
    (snd lat_s | 100000)%Z /\ (snd lng_s | 100000)%Z /\
    unsigned_rational lat_s /\ unsigned_rational lng_s /\
    rational_value lat_s <= 60 /\ rational_value lng_s <= 60.
Proof.
  apply (gps_block_rationals (3550820201266319 # 140737488355328) (- (161 # 2))
           (- (7093169413108531 # 562949953421312)));
    solve [vm_compute; reflexivity].
Defined.

Lemma to_deg_raises (value : pyfloat) (e : exn) (negativeRef positiveRef : string) :
  py_int value = Raise e -> to_deg value [negativeRef; positiveRef] = Raise e.
Proof.
  destruct value as [q|[|]|]; cbn [py_int]; intros [= <-]; reflexivity.
Qed.

Lemma to_deg_returns (v : Q) (negativeRef positiveRef : string) :
  is_f64 v -> exists deg min sec ref r,
    to_deg (Fin v) [negativeRef; positiveRef] = Ok (deg, min, Fin sec, ref) /\
    exiv deg min (Fin sec) = Ok r.
Proof.
  intros H. destruct (exiv_finite v negativeRef positiveRef H) as (d & m & s & r & x & T & X).
  eauto 10.
Qed.

(** X11: a coordinate that is not finite makes [set_gps_location] raise
    before piexif is called and before the file is touched: [ValueError]
    for NaN and [OverflowError] for an infinity, from [int] for the
    latitude and the longitude and from [round] for the altitude, the
    first of the three in this order deciding. *)
Theorem gps_block_non_finite :
  (forall (lat lng altitude : pyfloat) (e : exn),
      py_int lat = Raise e -> gps_ifd_of lat lng altitude = Raise e) /\
  (forall (lat : Q) (lng altitude : pyfloat) (e : exn),
      is_f64 lat -> py_int lng = Raise e -> gps_ifd_of (Fin lat) lng altitude = Raise e) /\
  (forall (lat lng : Q) (altitude : pyfloat) (e : exn),
      is_f64 lat -> is_f64 lng -> py_round altitude = Raise e ->
      gps_ifd_of (Fin lat) (Fin lng) altitude = Raise e) /\
  (forall (lat lng altitude : pyfloat) (e : exn),
      gps_ifd_of lat lng altitude = Raise e ->
      forall (piexif_dump : gps_ifd -> result string)
             (piexif_insert : string -> string -> result string)
             (file_name : string) (w : world),
        set_gps_location piexif_dump piexif_insert file_name lat lng altitude w = (Raise e, w)).
Proof.
  split; [|split; [|split]].
  - intros lat lng alt e H. unfold gps_ifd_of. rewrite (to_deg_raises lat e _ _ H). reflexivity.
  - intros lat lng alt e Hlat H. unfold gps_ifd_of.
    destruct (to_deg_returns lat "S" "N" Hlat) as (d & m & s & r & x & T & X).
    rewrite T, (to_deg_raises lng e _ _ H). reflexivity.
  - intros lat lng alt e Hlat Hlng H. unfold gps_ifd_of.
    destruct (to_deg_returns lat "S" "N" Hlat) as (d1 & m1 & s1 & r1 & x1 & T1 & X1).
    destruct (to_deg_returns lng "W" "E" Hlng) as (d2 & m2 & s2 & r2 & x2 & T2 & X2).
    rewrite T1, T2. cbn [rbind]. rewrite X1, X2. cbn [rbind]. rewrite H. reflexivity.
  - intros lat lng alt e H dump insert file w.
    unfold set_gps_location, bind, lift. rewrite H. reflexivity.
Qed.

Lemma gps_block_non_finite_witness :
  gps_ifd_of NaN (Inf true) (Fin 1) = Raise ValueError /\
  gps_ifd_of (Fin (- (161 # 2))) (Inf true) NaN = Raise OverflowError /\
  gps_ifd_of (Fin (- (161 # 2))) (Fin (3 # 2)) NaN = Raise ValueError /\
  set_gps_location Sample.piexif_dump Sample.piexif_insert "img/a.jpg"
    (Fin (- (161 # 2))) (Fin (3 # 2)) NaN Sample.world0 = (Raise ValueError, Sample.world0).
Proof.
  destruct gps_block_non_finite as (A & B & C & D).
  split; [apply A; reflexivity|].
  split; [apply B; [vm_compute; reflexivity | reflexivity]|].
  split; [apply C; [vm_compute; reflexivity | vm_compute; reflexivity | reflexivity]|].
  apply D. apply C; [vm_compute; reflexivity | vm_compute; reflexivity | reflexivity].
Defined.

Section Tagging.
Variable piexif_dump : gps_ifd -> result string.
Variable piexif_insert : string -> string -> result string.

(** X12: what [set_gps_location] does to the world.  It prints nothing,
    creates and deletes no file and changes no file but [file_name]; when
    it raises nothing has changed at all, and when it returns the content
    of [file_name] is what [piexif.insert] makes of the old content and
    of the dump of the block. *)
Theorem set_gps_location_effect (file_name : string) (lat lng altitude : pyfloat)
        (w w' : world) (r : result unit) :
  set_gps_location piexif_dump piexif_insert file_name lat lng altitude w = (r, w') ->
  stdout w' = stdout w /\
  (forall p : string, p <> file_name -> files w' !! p = files w !! p) /\
  (forall p : string, is_Some (files w' !! p) <-> is_Some (files w !! p)) /\
  match r with
  | Raise _ => w' = w
  | Ok _ =>
      exists (block : gps_ifd) (exif_bytes data data' : string),
        gps_ifd_of lat lng altitude = Ok block /\
        piexif_dump block = Ok exif_bytes /\
        files w !! file_name = Some data /\
        piexif_insert exif_bytes data = Ok data' /\
        files w' = <[file_name := data']> (files w)
  end.
Proof.
  intros H.
  destruct (set_gps_location_files piexif_dump piexif_insert _ _ _ _ _ _ _ H) as (A & B & C).
  split; [exact A|]. split; [exact B|]. split; [exact C|].
  unfold set_gps_location, bind, lift, insert_exif in H.
  destruct (gps_ifd_of lat lng altitude) as [block|e] eqn:G; [|inversion H; reflexivity].
  destruct (piexif_dump block) as [exif_bytes|e] eqn:D; [|inversion H; reflexivity].
  destruct (files w !! file_name) as [data|] eqn:F; [|inversion H; reflexivity].
  destruct (piexif_insert exif_bytes data) as [data'|e] eqn:I; inversion H; [|reflexivity].
  exists block, exif_bytes, data, data'. repeat split; try assumption; reflexivity.
Qed.

End Tagging.

Lemma set_gps_location_effect_witness :
  let w' := snd (set_gps_location Sample.piexif_dump Sample.piexif_insert "img/a.jpg"
                   (Fin (- (161 # 2))) (Fin (3 # 2)) (Fin 1) Sample.world0) in
  stdout w' = stdout Sample.world0 /\
  (forall p : string, p <> "img/a.jpg"%string -> files w' !! p = files Sample.world0 !! p) /\
  (forall p : string, is_Some (files w' !! p) <-> is_Some (files Sample.world0 !! p)) /\
  exists (block : gps_ifd) (exif_bytes data data' : string),
    gps_ifd_of (Fin (- (161 # 2))) (Fin (3 # 2)) (Fin 1) = Ok block /\
    Sample.piexif_dump block = Ok exif_bytes /\
    files Sample.world0 !! "img/a.jpg"%string = Some data /\
    Sample.piexif_insert exif_bytes data = Ok data' /\
    files w' = <["img/a.jpg"%string := data']> (files Sample.world0).
Proof.
  apply (set_gps_location_effect Sample.piexif_dump Sample.piexif_insert "img/a.jpg"
           (Fin (- (161 # 2))) (Fin (3 # 2)) (Fin 1) Sample.world0
           (snd (set_gps_location Sample.piexif_dump Sample.piexif_insert "img/a.jpg"
                   (Fin (- (161 # 2))) (Fin (3 # 2)) (Fin 1) Sample.world0)) (Ok tt)).
  vm_compute. reflexivity.
Defined.

(** X13: the altitude of the block is the integer nearest to the one
    given, the even one of the two when it is half way: up to half a
    metre is lost, a whole number of metres is kept as it is, and below
    -0.5 the numerator is negative. *)
Lemma gps_ifd_of_finite (lat lng altitude : Q) :
  is_f64 lat -> is_f64 lng ->
  exists block : gps_ifd,
    gps_ifd_of (Fin lat) (Fin lng) (Fin altitude) = Ok block /\
    GPSAltitude block = (round_half_even altitude, 1%Z).
Proof.
  intros Hlat Hlng.
  destruct (to_deg_returns lat "S" "N" Hlat) as (d1 & m1 & s1 & r1 & x1 & T1 & X1).
  destruct (to_deg_returns lng "W" "E" Hlng) as (d2 & m2 & s2 & r2 & x2 & T2 & X2).
  unfold gps_ifd_of. rewrite T1, T2. cbn [rbind]. rewrite X1, X2. cbn [rbind py_round].
  rewrite change_to_rational_int. cbn [rbind].
  eexists. split; reflexivity.
Qed.

Lemma rhe_negative (x : Q) : x < - (1 # 2) -> (round_half_even x < 0)%Z.
Proof.
  intros N. pose proof (rhe_error x) as E. apply Qabs_Qle_condition in E.
  assert (X : inject_Z (round_half_even x) < inject_Z 0).
  { change (inject_Z 0) with 0. lra. }
  rewrite <- Zlt_Qlt in X. exact X.
Qed.

Theorem gps_block_altitude_nearest (lat lng altitude : Q) :
  is_f64 lat -> is_f64 lng -> is_f64 altitude ->
  exists (block : gps_ifd) (metres : Z),
    gps_ifd_of (Fin lat) (Fin lng) (Fin altitude) = Ok block /\
    GPSAltitude block = (metres, 1%Z) /\
    Qabs (inject_Z metres - altitude) <= 1 # 2 /\
    (forall k : Z, altitude == inject_Z k -> metres = k) /\
    (Qabs (inject_Z metres - altitude) == 1 # 2 -> Z.even metres = true) /\
    (altitude < - (1 # 2) -> (metres < 0)%Z).
Proof.
  intros Hlat Hlng Halt.
  destruct (to_deg_returns lat "S" "N" Hlat) as (d1 & m1 & s1 & r1 & x1 & T1 & X1).
  destruct (to_deg_returns lng "W" "E" Hlng) as (d2 & m2 & s2 & r2 & x2 & T2 & X2).
  unfold gps_ifd_of. rewrite T1, T2. cbn [rbind]. rewrite X1, X2. cbn [rbind py_round].
  rewrite change_to_rational_int. cbn [rbind].
  eexists. exists (round_half_even altitude). split; [reflexivity|].
  cbn [GPSAltitude]. split; [reflexivity|]. split; [apply rhe_error|].
  split; [|split].
  - intros k E. rewrite (rhe_comp _ _ E). apply rhe_Z.
  - unfold round_half_even. set (f := Qfloor altitude).
    pose proof (Qfloor_le altitude) as L. pose proof (Qlt_floor altitude) as U.
    fold f in L, U. rewrite inject_Z_plus in U. change (inject_Z 1) with 1 in U.
    destruct (Qcompare_spec (altitude - inject_Z f) (1 # 2)) as [E|E|E].
    + intros _. destruct (Z.even f) eqn:Ev; [exact Ev|].
      rewrite Z.even_add, Ev. reflexivity.
    + intros A. exfalso. rewrite Qabs_neg in A by lra. lra.
    + intros A. exfalso. rewrite inject_Z_plus in A. change (inject_Z 1) with 1 in A.
      rewrite Qabs_pos in A by lra. lra.
  - intros N. pose proof (rhe_error altitude) as E. apply Qabs_Qle_condition in E.
    assert (X : inject_Z (round_half_even altitude) < inject_Z 0).
    { change (inject_Z 0) with 0. lra. }
    rewrite <- Zlt_Qlt in X. exact X.
Qed.

Lemma gps_block_altitude_nearest_witness :
  exists (block : gps_ifd) (metres : Z),
    gps_ifd_of (Fin (- (161 # 2))) (Fin (3 # 2)) (Fin (5 # 2)) = Ok block /\
    GPSAltitude block = (metres, 1%Z) /\
    Qabs (inject_Z metres - (5 # 2)) <= 1 # 2 /\
    (forall k : Z, (5 # 2) == inject_Z k -> metres = k) /\
    (Qabs (inject_Z metres - (5 # 2)) == 1 # 2 -> Z.even metres = true) /\
    ((5 # 2) < - (1 # 2) -> (metres < 0)%Z).
Proof.
  apply (gps_block_altitude_nearest (- (161 # 2)) (3 # 2) (5 # 2)); vm_compute; reflexivity.
Defined.

Local Open Scope Z_scope.
Local Open Scope cmd_scope.

(** ** The report and the reader *)

Lemma one_line_cons (c : ascii) (s : string) :
  one_line (String c s) -> c <> ascii_of_nat 10 /\ one_line s.
Proof.
  unfold one_line. cbn [list_ascii_of_string]. intros H. split.
  - intros C. apply H. left. exact C.
  - intros C. apply H. right. exact C.
Qed.

(** Where the first line of a text ends. *)
Lemma first_line_unique (a b r1 r2 : string) :
  one_line a -> one_line b ->
  (a ++ newline ++ r1)%string = (b ++ newline ++ r2)%string -> a = b /\ r1 = r2.
Proof.
  revert b. induction a as [|c a IH]; intros [|d b] Ha Hb E.
  - change (String (ascii_of_nat 10) r1 = String (ascii_of_nat 10) r2) in E.
    inversion E. split; reflexivity.
  - exfalso. apply one_line_cons in Hb. destruct Hb as [Hd _].
    change (String (ascii_of_nat 10) r1 = String d (b ++ newline ++ r2)%string) in E.
    inversion E. congruence.
  - exfalso. apply one_line_cons in Ha. destruct Ha as [Hc _].
    change (String c (a ++ newline ++ r1)%string = String (ascii_of_nat 10) r2) in E.
    inversion E. congruence.
  - apply one_line_cons in Ha, Hb. destruct Ha as [_ Ha]. destruct Hb as [_ Hb].
    change (String c (a ++ newline ++ r1)%string = String d (b ++ newline ++ r2)%string) in E.
    inversion E as [[Hcd E']]. destruct (IH b Ha Hb E') as [-> ->].
    split; reflexivity.
Qed.

Lemma report_lines_injective (l1 l2 : list string) :
  Forall one_line l1 -> Forall one_line l2 ->
  report_lines l1 = report_lines l2 -> l1 = l2.
Proof.
  revert l2. induction l1 as [|a l1 IH]; intros [|b l2] H1 H2 E.
  - reflexivity.
  - exfalso. cbn [report_lines fold_right] in E. destruct b; discriminate.
  - exfalso. cbn [report_lines fold_right] in E. destruct a; discriminate.
  - inversion H1; subst. inversion H2; subst. cbn [report_lines fold_right] in E.
    destruct (first_line_unique a b _ _ ltac:(assumption) ltac:(assumption) E) as [-> E'].
    f_equal. apply IH; assumption.
Qed.

(** X14: the report can be read back.  Where the report can be written,
    two different lists of names without a newline leave two different
    reports: the file tells which names failed. *)
Theorem report_identifies_failures (dir_writable file_writable : string -> bool)
        (l1 l2 : list string) (csvFile : string) (w1 w2 : world) :
  Forall one_line l1 -> Forall one_line l2 ->
  dir_writable csvFile = true ->
  l1 <> l2 ->
  fst (write_list_to_file dir_writable file_writable l1 csvFile w1) = Ok tt /\
  fst (write_list_to_file dir_writable file_writable l2 csvFile w2) = Ok tt /\
  files (snd (write_list_to_file dir_writable file_writable l1 csvFile w1)) !! csvFile
  <> files (snd (write_list_to_file dir_writable file_writable l2 csvFile w2)) !! csvFile.
Proof.
  intros H1 H2 D Hne. rewrite !write_list_to_file_spec, D. cbn [fst snd files].
  split; [reflexivity|]. split; [reflexivity|].
  rewrite !lookup_insert_eq. intros [= E]. apply Hne.
  apply report_lines_injective; assumption.
Qed.

Lemma report_identifies_failures_witness :
  fst (write_list_to_file Sample.dir_writable Sample.file_writable ["b.jpg"%string]
         "errors.csv" Sample.world0) = Ok tt /\
  fst (write_list_to_file Sample.dir_writable Sample.file_writable ["b.jpg"; "d.jpg"]%string
         "errors.csv" (World ∅ [])) = Ok tt /\
  files (snd (write_list_to_file Sample.dir_writable Sample.file_writable ["b.jpg"%string]
                "errors.csv" Sample.world0)) !! "errors.csv"%string
  <> files (snd (write_list_to_file Sample.dir_writable Sample.file_writable
                   ["b.jpg"; "d.jpg"]%string "errors.csv" (World ∅ []))) !! "errors.csv"%string.
Proof.
  apply (report_identifies_failures Sample.dir_writable Sample.file_writable
           ["b.jpg"%string] ["b.jpg"; "d.jpg"]%string "errors.csv" Sample.world0 (World ∅ [])).
  - repeat constructor; unfold one_line; cbn; intros C;
      repeat (destruct C as [C|C]; [discriminate|]); exact C.
  - repeat constructor; unfold one_line; cbn; intros C;
      repeat (destruct C as [C|C]; [discriminate|]); exact C.
  - vm_compute. reflexivity.
  - discriminate.
Defined.

Section ReaderProps.
Variable value : Type.
Variable py_str : value -> string.
Variable Image_open : string -> result (gmap string string).
Variable piexif_load : string -> result (gmap string (gmap Z value)).

(** X15: [getGPSInfo] prints the three tags or nothing: when the file,
    its EXIF block or one of the three tags is missing it raises before
    the first line is printed.  It changes no file. *)
Theorem getGPSInfo_all_or_nothing (inFile : string) (w w' : world)
        (r : unit + lookup_exn) :
  getGPSInfo value py_str Image_open piexif_load inFile w = (r, w') ->
  files w' = files w /\
  match r with
  | inl _ =>
      exists (content exif : string) (info : gmap string string)
             (exif_dict : gmap string (gmap Z value)) (gps : gmap Z value)
             (latitude longitude altitude : value),
        files w !! inFile = Some content /\ Image_open content = Ok info /\
        info !! "exif"%string = Some exif /\ piexif_load exif = Ok exif_dict /\
        exif_dict !! "GPS"%string = Some gps /\
        gps !! tag_GPSLatitude = Some latitude /\
        gps !! tag_GPSLongitude = Some longitude /\
        gps !! tag_GPSAltitude = Some altitude /\
        stdout w' = stdout w ++ [py_str latitude; py_str longitude; py_str altitude]
  | inr _ => stdout w' = stdout w
  end.
Proof.
  unfold getGPSInfo. intros H.
  destruct (files w !! inFile) as [content|] eqn:E1; [|inversion H; split; reflexivity].
  destruct (Image_open content) as [info|e] eqn:E2; [|inversion H; split; reflexivity].
  destruct (info !! "exif"%string) as [exif|] eqn:E3; [|inversion H; split; reflexivity].
  destruct (piexif_load exif) as [exif_dict|e] eqn:E4; [|inversion H; split; reflexivity].
  destruct (exif_dict !! "GPS"%string) as [gps|] eqn:E5; [|inversion H; split; reflexivity].
  destruct (gps !! tag_GPSLatitude) as [latitude|] eqn:E6; [|inversion H; split; reflexivity].
  destruct (gps !! tag_GPSLongitude) as [longitude|] eqn:E7; [|inversion H; split; reflexivity].
  destruct (gps !! tag_GPSAltitude) as [altitude|] eqn:E8; [|inversion H; split; reflexivity].
  inversion H; subst; clear H. split; [reflexivity|].
  exists content, exif, info, exif_dict, gps, latitude, longitude, altitude.
  repeat (split; [first [assumption | reflexivity]|]). reflexivity.
Qed.

End ReaderProps.

Lemma getGPSInfo_all_or_nothing_witness :
  let Image_open := fun content : string => Ok ({["exif"%string := content]} : gmap string string) in
  let piexif_load := fun exif : string =>
    Ok ({["GPS"%string := {[2 := "((25, 1), (13, 1), (24171, 500))"%string;
                            4 := "((80, 1), (30, 1), (0, 1))"%string]}]}
        : gmap string (gmap Z string)) in
  files (snd (getGPSInfo string id Image_open piexif_load "img/a.jpg" Sample.world0))
  = files Sample.world0 /\
  stdout (snd (getGPSInfo string id Image_open piexif_load "img/a.jpg" Sample.world0))
  = stdout Sample.world0.
Proof.
  cbv zeta.
  apply (getGPSInfo_all_or_nothing string id
           (fun content : string => Ok ({["exif"%string := content]} : gmap string string))
           (fun exif : string =>
              Ok ({["GPS"%string := {[2 := "((25, 1), (13, 1), (24171, 500))"%string;
                                      4 := "((80, 1), (30, 1), (0, 1))"%string]}]}
                  : gmap string (gmap Z string)))
           "img/a.jpg" Sample.world0 _ (inr KeyError)).
  vm_compute. reflexivity.
Defined.

(** ** The run *)

Section RunProps.

Variable path_join : string -> string -> string.
Variable csv_reader : string -> list (list string).
Variable py_float : string -> result pyfloat.
Variable piexif_dump : gps_ifd -> result string.
Variable piexif_insert : string -> string -> result string.
Variable dir_writable : string -> bool.
Variable file_writable : string -> bool.
Variables sourceImageFolder gpscsv errorLogCSV : string.
Variables img_Name_Column Lat_Y_Column Long_X_Column Alt_Z_Column : Z.

Local Abbreviation process_row_ :=
  (process_row path_join py_float piexif_dump piexif_insert sourceImageFolder
     img_Name_Column Lat_Y_Column Long_X_Column Alt_Z_Column).
Local Abbreviation process_rows_ :=
  (process_rows path_join py_float piexif_dump piexif_insert sourceImageFolder
     img_Name_Column Lat_Y_Column Long_X_Column Alt_Z_Column).
Local Abbreviation main_ :=
  (main path_join csv_reader py_float piexif_dump piexif_insert dir_writable file_writable
     sourceImageFolder gpscsv errorLogCSV img_Name_Column Lat_Y_Column Long_X_Column
     Alt_Z_Column).
Local Abbreviation missing_ := (missing_names path_join sourceImageFolder img_Name_Column).
Local Abbreviation line_ := (row_line path_join sourceImageFolder img_Name_Column).
Local Abbreviation paths_ := (image_paths path_join sourceImageFolder img_Name_Column).
Local Abbreviation set_gps_ := (set_gps_location piexif_dump piexif_insert).
Local Abbreviation report_ := (report dir_writable file_writable).
Local Abbreviation main_unfold_ :=
  (main_unfold path_join csv_reader py_float piexif_dump piexif_insert dir_writable
     file_writable sourceImageFolder gpscsv errorLogCSV img_Name_Column Lat_Y_Column
     Long_X_Column Alt_Z_Column).
Local Abbreviation main_ok_ :=
  (main_ok path_join csv_reader py_float piexif_dump piexif_insert dir_writable
     file_writable sourceImageFolder gpscsv errorLogCSV img_Name_Column Lat_Y_Column
     Long_X_Column Alt_Z_Column).

(** A row whose image is there, up to the call of [set_gps_location]. *)
Lemma process_row_present (row : list string) (failed : list string) (w : world)
      (name : string) (lat lng alt : pyfloat) :
  py_index row img_Name_Column = Ok name ->
  is_Some (files w !! path_join sourceImageFolder name) ->
  float_at py_float row Lat_Y_Column = Ok lat ->
  float_at py_float row Long_X_Column = Ok lng ->
  float_at py_float row Alt_Z_Column = Ok alt ->
  process_row_ row failed w =
  (set_gps_ (path_join sourceImageFolder name) lat lng alt ;; ret failed)
    (World (files w) (stdout w ++ [path_join sourceImageFolder name])).
Proof.
  intros Hn Hf H1 H2 H3. unfold process_row.
  unfold bind at 1. unfold lift at 1. rewrite Hn.
  unfold bind at 1. unfold path_exists at 1. rewrite bool_decide_eq_true_2 by exact Hf.
  cbn [negb]. unfold bind at 1. unfold print at 1.
  unfold bind at 1. unfold lift at 1. rewrite H1.
  unfold bind at 1. unfold lift at 1. rewrite H2.
  unfold bind at 1. unfold lift at 1. rewrite H3.
  reflexivity.
Qed.

(** X16: the row of an image that is there: the image is given its GPS
    block, its path is printed, nothing is added to the failures, and the
    loop goes on with the rows after it. *)
Theorem present_file_tagged (row : list string) (rest : list (list string))
        (failed : list string) (w : world) (name data exif_bytes data' : string)
        (lat lng alt : pyfloat) (block : gps_ifd) :
  py_index row img_Name_Column = Ok name ->
  files w !! path_join sourceImageFolder name = Some data ->
  float_at py_float row Lat_Y_Column = Ok lat ->
  float_at py_float row Long_X_Column = Ok lng ->
  float_at py_float row Alt_Z_Column = Ok alt ->
  gps_ifd_of lat lng alt = Ok block ->
  piexif_dump block = Ok exif_bytes ->
  piexif_insert exif_bytes data = Ok data' ->
  process_rows_ (row :: rest) failed w =
  process_rows_ rest failed
    (World (<[path_join sourceImageFolder name := data']> (files w))
           (stdout w ++ [path_join sourceImageFolder name])).
Proof.
  intros Hn Hf H1 H2 H3 Hb Hd Hi. cbn [process_rows]. unfold bind at 1.
  rewrite (process_row_present row failed w name lat lng alt Hn (mk_is_Some _ _ Hf) H1 H2 H3).
  unfold bind at 1. unfold set_gps_location, bind, lift, insert_exif. rewrite Hb, Hd.
  cbn [files stdout]. rewrite Hf, Hi. reflexivity.
Qed.

Lemma set_gps_location_raise (file_name : string) (lat lng alt : pyfloat) (w : world) (e : exn) :
  fst (set_gps_ file_name lat lng alt w) = Raise e ->
  set_gps_ file_name lat lng alt w = (Raise e, w).
Proof.
  unfold set_gps_location, bind, lift, insert_exif.
  destruct (gps_ifd_of lat lng alt) as [block|e']; [|intros [= ->]; reflexivity].
  destruct (piexif_dump block) as [exif_bytes|e']; [|intros [= ->]; reflexivity].
  destruct (files w !! file_name) as [data|]; [|intros [= <-]; reflexivity].
  destruct (piexif_insert exif_bytes data) as [data'|e']; [discriminate|].
  intros [= ->]. reflexivity.
Qed.

(** Whether [set_gps_location] raises depends on the files only. *)
Lemma set_gps_location_outcome (file_name : string) (lat lng alt : pyfloat) (w w0 : world) :
  files w = files w0 ->
  fst (set_gps_ file_name lat lng alt w) = fst (set_gps_ file_name lat lng alt w0).
Proof.
  intros E. unfold set_gps_location, bind, lift, insert_exif. rewrite E.
  destruct (gps_ifd_of lat lng alt) as [block|e']; [|reflexivity].
  destruct (piexif_dump block) as [exif_bytes|e']; [|reflexivity].
  destruct (files w0 !! file_name) as [data|]; [|reflexivity].
  destruct (piexif_insert exif_bytes data) as [data'|e']; reflexivity.
Qed.

(** X17: when [set_gps_location] raises at a row (a coordinate that is
    not finite, or piexif refusing the block or the image), the run
    raises with it: the path of the image has been printed, the files are
    as the rows before left them, and neither the rows after are
    processed nor a report written. *)
Theorem tagging_failure_aborts (w : world) (data : string) (header : list string)
        (pre : list (list string)) (row : list string) (post : list (list string))
        (failed : list string) (w1 : world) (e : exn) (name : string)
        (lat lng alt : pyfloat) :
  files w !! gpscsv = Some data ->
  csv_reader data = header :: pre ++ row :: post ->
  process_rows_ pre [] w = (Ok failed, w1) ->
  py_index row img_Name_Column = Ok name ->
  is_Some (files w1 !! path_join sourceImageFolder name) ->
  float_at py_float row Lat_Y_Column = Ok lat ->
  float_at py_float row Long_X_Column = Ok lng ->
  float_at py_float row Alt_Z_Column = Ok alt ->
  fst (set_gps_ (path_join sourceImageFolder name) lat lng alt w1) = Raise e ->
  main_ w =
  (Raise e, World (files w1) (stdout w1 ++ [path_join sourceImageFolder name])).
Proof.
  intros H Hc Hp Hn Hf H1 H2 H3 Hr.
  rewrite (main_unfold_ w data H), Hc. cbn [tl].
  unfold bind at 1. rewrite process_rows_app. unfold bind at 1. rewrite Hp.
  cbn [process_rows]. unfold bind at 1.
  rewrite (process_row_present row failed w1 name lat lng alt Hn Hf H1 H2 H3).
  unfold bind at 1.
  assert (X : forall w0, fst (set_gps_ (path_join sourceImageFolder name) lat lng alt w0) = Raise e ->
              set_gps_ (path_join sourceImageFolder name) lat lng alt w0 = (Raise e, w0))
    by (intros w0; apply set_gps_location_raise).
  rewrite X; [reflexivity|].
  rewrite <- Hr. apply set_gps_location_outcome. reflexivity.
Qed.

(** X21: an altitude below sea level stops the run.  [piexif.dump] packs
    the rationals of the block as unsigned ones and raises [struct.error]
    on a negative numerator.  With such a dump, a row whose image is in
    the folder, whose latitude and longitude are finite and whose
    altitude is below -0.5, so that it rounds below zero, ends the run
    with that error once it is reached: its path has been printed, its
    image is not tagged, the rows after it are not read and no report is
    written. *)
Theorem negative_altitude_aborts (w : world) (data : string) (header : list string)
        (pre : list (list string)) (row : list string) (post : list (list string))
        (failed : list string) (w1 : world) (name : string) (lat lng alt : Q) :
  (forall block : gps_ifd,
     (fst (GPSAltitude block) < 0)%Z -> piexif_dump block = Raise StructError) ->
  files w !! gpscsv = Some data ->
  csv_reader data = header :: pre ++ row :: post ->
  process_rows_ pre [] w = (Ok failed, w1) ->
  py_index row img_Name_Column = Ok name ->
  is_Some (files w1 !! path_join sourceImageFolder name) ->
  float_at py_float row Lat_Y_Column = Ok (Fin lat) -> is_f64 lat ->
  float_at py_float row Long_X_Column = Ok (Fin lng) -> is_f64 lng ->
  float_at py_float row Alt_Z_Column = Ok (Fin alt) -> (alt < - (1 # 2))%Q ->
  main_ w =
  (Raise StructError, World (files w1) (stdout w1 ++ [path_join sourceImageFolder name])).
Proof.
  intros Hd H Hc Hp Hn Hf H1 L1 H2 L2 H3 N.
  destruct (gps_ifd_of_finite lat lng alt L1 L2) as (block & B & A).
  assert (Neg : (fst (GPSAltitude block) < 0)%Z).
  { rewrite A. cbn [fst]. apply rhe_negative, N. }
  rewrite (main_unfold_ w data H), Hc. cbn [tl].
  unfold bind at 1. rewrite process_rows_app. unfold bind at 1. rewrite Hp.
  cbn [process_rows]. unfold bind at 1.
  rewrite (process_row_present row failed w1 name (Fin lat) (Fin lng) (Fin alt) Hn Hf H1 H2 H3).
  unfold bind at 1.
  assert (X : forall w0, set_gps_ (path_join sourceImageFolder name) (Fin lat) (Fin lng) (Fin alt) w0
                         = (Raise StructError, w0)).
  { intros w0. unfold set_gps_location, bind, lift. rewrite B, (Hd block Neg). reflexivity. }
  rewrite X. reflexivity.
Qed.

(** Without the table nothing is done. *)
Lemma main_without_table (w : world) :
  files w !! gpscsv = None -> main_ w = (Raise OSError, w).
Proof.
  intros H. unfold main, bind, open_read. rewrite H. reflexivity.
Qed.

(** The files after the report. *)
Lemma report_files (failed : list string) (w w' : world) (r : result unit) :
  report_ errorLogCSV failed w = (r, w') ->
  (forall p, p <> errorLogCSV -> files w' !! p = files w !! p) /\
  (is_Some (files w !! errorLogCSV) -> is_Some (files w' !! errorLogCSV)) /\
  (forall e : exn, r = Raise e -> files w' = files w).
Proof.
  rewrite report_spec. destruct failed as [|name failed].
  - intros [= <- <-]. split; [reflexivity|]. split; [intros Hs; exact Hs | discriminate].
  - destruct (dir_writable errorLogCSV); intros [= <- <-]; cbn [files].
    + split; [intros p Hp; apply lookup_insert_ne; congruence|].
      split; [|discriminate]. intros _. rewrite lookup_insert_eq. eauto.
    + split; [reflexivity|]. split; [intros Hs; exact Hs | reflexivity].
Qed.

(** X18: what a run leaves alone, however it ends: no file is deleted,
    none is created but the report, and only the images that the table
    names and the report are written to; when the run raises, no file is
    created and the report is as it was; and without the table the run
    raises [OSError] and nothing has changed at all. *)
Theorem run_leaves_other_files (w w' : world) (r : result unit) :
  main_ w = (r, w') ->
  let rows := match files w !! gpscsv with
              | Some data => tl (csv_reader data)
              | None => []
              end in
  (forall p : string, is_Some (files w !! p) -> is_Some (files w' !! p)) /\
  (forall p : string, p <> errorLogCSV -> is_Some (files w' !! p) -> is_Some (files w !! p)) /\
  (forall p : string, (p ∉ paths_ rows) -> p <> errorLogCSV -> files w' !! p = files w !! p) /\
  (forall e : exn, r = Raise e ->
     (forall p : string, is_Some (files w' !! p) <-> is_Some (files w !! p)) /\
     ((errorLogCSV ∉ paths_ rows) -> files w' !! errorLogCSV = files w !! errorLogCSV)) /\
  (files w !! gpscsv = None -> r = Raise OSError /\ w' = w).
Proof.
  intros Hm. destruct (files w !! gpscsv) as [data|] eqn:H; intros rows.
  - rewrite (main_unfold_ w data H) in Hm.
    fold rows in Hm. unfold bind in Hm.
    destruct (process_rows_ rows [] w) as [r1 w1] eqn:Hp.
    destruct (process_rows_inv _ _ _ _ _ _ _ _ _ _ _ _ _ _ Hp) as (D & F & _).
    destruct r1 as [failed|e1].
    + destruct (report_files failed w1 w' r Hm) as (F2 & S2 & R2).
      split; [|split; [|split; [|split]]].
      * intros p Hs. destruct (decide (p = errorLogCSV)) as [->|Hne].
        -- apply S2, D, Hs.
        -- rewrite F2 by exact Hne. apply D, Hs.
      * intros p Hne Hs. rewrite F2 in Hs by exact Hne. apply D, Hs.
      * intros p Hp' Hne. rewrite F2 by exact Hne. apply F, Hp'.
      * intros e C. rewrite (R2 e C). split; [exact D | apply F].
      * discriminate.
    + inversion Hm; subst; clear Hm.
      split; [intros p; apply D|]. split; [intros p _; apply D|].
      split; [intros p Hp' _; apply F, Hp'|].
      split; [|discriminate].
      intros e _. split; [exact D | apply F].
  - rewrite (main_without_table w H) in Hm. inversion Hm; subst; clear Hm.
    split; [intros p Hs; exact Hs|]. split; [intros p _ Hs; exact Hs|].
    split; [reflexivity|]. split; [|intros _; split; reflexivity].
    intros e _. split; [intros p; reflexivity | reflexivity].
Qed.

(** X19: everything that a run that completes prints: the line of each
    row in the order of the table and then, when images were missing, the
    three lines about the report, the first with their number. *)
Theorem run_output (w w' : world) (data : string) :
  files w !! gpscsv = Some data ->
  main_ w = (Ok tt, w') ->
  let rows := tl (csv_reader data) in
  let failed := missing_ (files w) rows in
  stdout w' =
  stdout w ++ map (line_ (files w)) rows ++
  match failed with
  | [] => []
  | _ =>
      [("could not locate " ++ str_int (Z.of_nat (length failed))
        ++ " files at path specified")%string;
       ("appending names of failed files to CSV to errorLog " ++ errorLogCSV)%string;
       ("see " ++ errorLogCSV
        ++ " for list of failed files... locate the files and reprocess")%string]
  end.
Proof.
  intros H Hm rows failed.
  destruct (main_ok_ w w' data H Hm) as (failed' & w1 & Hp & Hr).
  destruct (process_rows_inv _ _ _ _ _ _ _ _ _ _ _ _ _ _ Hp) as (_ & _ & R).
  destruct (R failed' eq_refl) as [E S]. cbn in E. fold rows in E. fold failed in E. subst failed'.
  destruct (report_ok _ _ _ _ _ _ Hr) as [_ Hw]. rewrite Hw. fold rows.
  destruct failed as [|n f].
  - rewrite S, app_nil_r. reflexivity.
  - cbn [stdout]. rewrite S, <- app_assoc. reflexivity.
Qed.

Lemma missing_names_agree (fs fs' : gmap string string) (rows : list (list string)) :
  (forall p, p ∈ paths_ rows -> (is_Some (fs' !! p) <-> is_Some (fs !! p))) ->
  missing_ fs' rows = missing_ fs rows.
Proof.
  unfold missing_names, image_paths. induction rows as [|row rows IH]; [reflexivity|].
  cbn [omap list_omap]. intros H.
  destruct (py_index row img_Name_Column) as [name|e].
  - rewrite IH by (intros p Hp; apply H; right; exact Hp).
    specialize (H (path_join sourceImageFolder name) ltac:(left)).
    destruct (fs' !! path_join sourceImageFolder name), (fs !! path_join sourceImageFolder name);
      try reflexivity; exfalso; destruct H as [H1 H2].
    + destruct H1 as [x Hx]; [eauto | discriminate].
    + destruct H2 as [x Hx]; [eauto | discriminate].
  - apply IH. exact H.
Qed.

(** X20: running again over what a run has left (the table and the
    report being no images of the table) finds the table as it was and
    the same images missing and, when it completes, leaves the same
    report. *)
Theorem rerun_same_failures (w w' w'' : world) (data : string) (r : result unit) :
  files w !! gpscsv = Some data ->
  main_ w = (Ok tt, w') ->
  let rows := tl (csv_reader data) in
  (gpscsv ∉ paths_ rows) -> (errorLogCSV ∉ paths_ rows) -> gpscsv <> errorLogCSV ->
  main_ w' = (r, w'') ->
  files w' !! gpscsv = Some data /\
  missing_ (files w') rows = missing_ (files w) rows /\
  (r = Ok tt -> files w'' !! errorLogCSV = files w' !! errorLogCSV).
Proof.
  intros H Hm rows G1 G2 G3 Hm2.
  destruct (main_ok_ w w' data H Hm) as (failed & w1 & Hp & Hr).
  fold rows in Hp.
  destruct (process_rows_inv _ _ _ _ _ _ _ _ _ _ _ _ _ _ Hp) as (D & F & R).
  destruct (R failed eq_refl) as [E _]. cbn in E. subst failed.
  destruct (report_files _ w1 w' _ Hr) as (F2 & _ & _).
  destruct (report_ok _ _ _ _ _ _ Hr) as [_ Hw].
  assert (T : files w' !! gpscsv = Some data).
  { rewrite F2 by exact G3. rewrite F by exact G1. exact H. }
  assert (M : missing_ (files w') rows = missing_ (files w) rows).
  { apply missing_names_agree. intros p Hp'.
    assert (Hne : p <> errorLogCSV) by (intros ->; apply G2, Hp').
    rewrite F2 by exact Hne. apply D. }
  split; [exact T|]. split; [exact M|].
  intros ->.
  destruct (main_ok_ w' w'' data T Hm2) as (failed2 & w2 & Hp2 & Hr2).
  fold rows in Hp2.
  destruct (process_rows_inv _ _ _ _ _ _ _ _ _ _ _ _ _ _ Hp2) as (D' & F' & R').
  destruct (R' failed2 eq_refl) as [E' _]. cbn in E'. subst failed2.
  destruct (report_ok _ _ _ _ _ _ Hr2) as [_ Hw2].
  rewrite M in Hw2.
  destruct (missing_ (files w) rows) as [|n f] eqn:Em.
  - rewrite Hw2. apply F', G2.
  - rewrite Hw2. cbn [files]. rewrite lookup_insert_eq.
    rewrite Hw. cbn [files]. rewrite lookup_insert_eq. reflexivity.
Qed.

End RunProps.

(** ** The run at the sample folder *)

Lemma present_file_tagged_witness :
  Sample.loop (["c.jpg"; "-33.9"; "18.4"; "26.4"] :: [["b.jpg"; "1.5"; "2.5"; "3"]])%string
    [] Sample.world0 =
  Sample.loop [["b.jpg"; "1.5"; "2.5"; "3"]]%string []
    (World (<["img/c.jpg"%string := "GPS S E 26;JPEG"%string]> (files Sample.world0))
           (stdout Sample.world0 ++ ["img/c.jpg"%string])).
Proof.
  eapply (present_file_tagged Sample.path_join Sample.py_float Sample.piexif_dump
            Sample.piexif_insert "img" 0 1 2 3
            ["c.jpg"; "-33.9"; "18.4"; "26.4"]%string [["b.jpg"; "1.5"; "2.5"; "3"]]%string
            [] Sample.world0 "c.jpg" "JPEG" "GPS S E 26;" "GPS S E 26;JPEG").
  - reflexivity.
  - vm_compute. reflexivity.
  - lazy. reflexivity.
  - lazy. reflexivity.
  - lazy. reflexivity.
  - lazy. reflexivity.
  - lazy. reflexivity.
  - reflexivity.
Defined.

Lemma tagging_failure_aborts_witness :
  Sample.run "far.csv" "errors.csv" Overflow.world0 =
  (Raise OverflowError,
   World (files (snd (Sample.loop [["c.jpg"; "-33.9"; "18.4"; "26.4"]]%string []
                        Overflow.world0)))
         (stdout (snd (Sample.loop [["c.jpg"; "-33.9"; "18.4"; "26.4"]]%string []
                         Overflow.world0))
          ++ [Sample.path_join "img" "a.jpg"])).
Proof.
  apply (tagging_failure_aborts Sample.path_join Sample.csv_reader Sample.py_float
           Sample.piexif_dump Sample.piexif_insert Sample.dir_writable
           Sample.file_writable "img" "far.csv" "errors.csv" 0 1 2 3
           Overflow.world0 Overflow.table ["name"; "lat"; "lon"; "alt"]%string
           [["c.jpg"; "-33.9"; "18.4"; "26.4"]]%string
           ["a.jpg"; "1e999"; "-80.5"; "12.6"]%string
           [["b.jpg"; "1.5"; "2.5"; "3"]]%string
           []
           (snd (Sample.loop [["c.jpg"; "-33.9"; "18.4"; "26.4"]]%string [] Overflow.world0))
           OverflowError "a.jpg"%string
           (Inf false) (Fin (- (161 # 2))) (Fin (7093169413108531 # 562949953421312))).
  - vm_compute. reflexivity.
  - vm_compute. reflexivity.
  - vm_compute. reflexivity.
  - reflexivity.
  - vm_compute. eexists. reflexivity.
  - vm_compute. reflexivity.
  - vm_compute. reflexivity.
  - vm_compute. reflexivity.
  - vm_compute. reflexivity.
Defined.

Lemma negative_altitude_aborts_witness :
  Sample.run "sea.csv" "errors.csv" BelowSea.world0 =
  (Raise StructError,
   World (files (snd (Sample.loop [["a.jpg"; "25.230095"; "-80.5"; "12.6"];
                                   ["b.jpg"; "1.5"; "2.5"; "3"]]%string []
                        BelowSea.world0)))
         (stdout (snd (Sample.loop [["a.jpg"; "25.230095"; "-80.5"; "12.6"];
                                    ["b.jpg"; "1.5"; "2.5"; "3"]]%string []
                         BelowSea.world0))
          ++ [Sample.path_join "img" "c.jpg"])).
Proof.
  apply (negative_altitude_aborts Sample.path_join Sample.csv_reader Sample.py_float
           Sample.piexif_dump Sample.piexif_insert Sample.dir_writable
           Sample.file_writable "img" "sea.csv" "errors.csv" 0 1 2 3
           BelowSea.world0 BelowSea.table ["name"; "lat"; "lon"; "alt"]%string
           [["a.jpg"; "25.230095"; "-80.5"; "12.6"]; ["b.jpg"; "1.5"; "2.5"; "3"]]%string
           ["c.jpg"; "-33.9"; "18.4"; "-12.6"]%string
           [["d.jpg"; "1"; "2"; "3"]]%string
           ["b.jpg"]%string
           (snd (Sample.loop [["a.jpg"; "25.230095"; "-80.5"; "12.6"];
                              ["b.jpg"; "1.5"; "2.5"; "3"]]%string [] BelowSea.world0))
           "c.jpg"%string
           (- (4771000855245619 # 140737488355328)) (2589569785738035 # 140737488355328)
           (- (7093169413108531 # 562949953421312))).
  - intros block Hneg. unfold Sample.piexif_dump, Sample.fits_rational, Sample.fits_long.
    destruct (0 <=? fst (GPSAltitude block))%Z eqn:E; [|reflexivity].
    apply Z.leb_le in E. lia.
  - vm_compute. reflexivity.
  - vm_compute. reflexivity.
  - vm_compute. reflexivity.
  - reflexivity.
  - vm_compute. eexists. reflexivity.
  - vm_compute. reflexivity.
  - vm_compute. reflexivity.
  - vm_compute. reflexivity.
  - vm_compute. reflexivity.
  - vm_compute. reflexivity.
  - reflexivity.
Defined.

Lemma run_leaves_other_files_witness :
  let w := Sample.world0 in
  let w' := snd (Sample.run "gps.csv" "errors.csv" Sample.world0) in
  let rows := match files w !! "gps.csv"%string with
              | Some data => tl (Sample.csv_reader data)
              | None => []
              end in
  (forall p : string, is_Some (files w !! p) -> is_Some (files w' !! p)) /\
  (forall p : string, p <> "errors.csv"%string -> is_Some (files w' !! p) -> is_Some (files w !! p)) /\
  (forall p : string, (p ∉ image_paths Sample.path_join "img" 0 rows) -> p <> "errors.csv"%string ->
     files w' !! p = files w !! p) /\
  (forall e : exn, Ok tt = Raise e ->
     (forall p : string, is_Some (files w' !! p) <-> is_Some (files w !! p)) /\
     (("errors.csv"%string ∉ image_paths Sample.path_join "img" 0 rows) ->
      files w' !! "errors.csv"%string = files w !! "errors.csv"%string)) /\
  (files w !! "gps.csv"%string = None -> Ok tt = Raise OSError /\ w' = w).
Proof.
  apply (run_leaves_other_files Sample.path_join Sample.csv_reader Sample.py_float
           Sample.piexif_dump Sample.piexif_insert Sample.dir_writable
           Sample.file_writable "img" "gps.csv" "errors.csv" 0 1 2 3
           Sample.world0 (snd (Sample.run "gps.csv" "errors.csv" Sample.world0)) (Ok tt)).
  vm_compute. reflexivity.
Defined.

Lemma run_output_witness :
  stdout (snd (Sample.run "gps.csv" "errors.csv" Sample.world0)) =
  stdout Sample.world0 ++
  map (row_line Sample.path_join "img" 0 (files Sample.world0))
      (tl (Sample.csv_reader Sample.table)) ++
  match missing_names Sample.path_join "img" 0 (files Sample.world0)
          (tl (Sample.csv_reader Sample.table)) with
  | [] => []
  | _ =>
      [("could not locate "
        ++ str_int (Z.of_nat (length (missing_names Sample.path_join "img" 0 (files Sample.world0)
                                        (tl (Sample.csv_reader Sample.table)))))
        ++ " files at path specified")%string;
       ("appending names of failed files to CSV to errorLog " ++ "errors.csv")%string;
       ("see " ++ "errors.csv"
        ++ " for list of failed files... locate the files and reprocess")%string]
  end.
Proof.
  apply (run_output Sample.path_join Sample.csv_reader Sample.py_float
           Sample.piexif_dump Sample.piexif_insert Sample.dir_writable
           Sample.file_writable "img" "gps.csv" "errors.csv" 0 1 2 3
           Sample.world0 (snd (Sample.run "gps.csv" "errors.csv" Sample.world0)) Sample.table).
  - vm_compute. reflexivity.
  - vm_compute. reflexivity.
Defined.

Lemma rerun_same_failures_witness :
  let w' := snd (Sample.run "gps.csv" "errors.csv" Sample.world0) in
  let w'' := snd (Sample.run "gps.csv" "errors.csv" w') in
  let rows := tl (Sample.csv_reader Sample.table) in
  files w' !! "gps.csv"%string = Some Sample.table /\
  missing_names Sample.path_join "img" 0 (files w') rows
  = missing_names Sample.path_join "img" 0 (files Sample.world0) rows /\
  (Ok tt = Ok tt -> files w'' !! "errors.csv"%string = files w' !! "errors.csv"%string).
Proof.
  apply (rerun_same_failures Sample.path_join Sample.csv_reader Sample.py_float
           Sample.piexif_dump Sample.piexif_insert Sample.dir_writable
           Sample.file_writable "img" "gps.csv" "errors.csv" 0 1 2 3
           Sample.world0 (snd (Sample.run "gps.csv" "errors.csv" Sample.world0))
           (snd (Sample.run "gps.csv" "errors.csv"
                   (snd (Sample.run "gps.csv" "errors.csv" Sample.world0))))
           Sample.table (Ok tt)).
  - vm_compute. reflexivity.
  - vm_compute. reflexivity.
  - refine (bool_decide_unpack _ _). vm_compute. exact I.
  - refine (bool_decide_unpack _ _). vm_compute. exact I.
  - discriminate.
  - vm_compute. reflexivity.
Defined.
